(** * Scheduler and job manager of sentinel-webscraper

    A shallow embedding of [src/core/scheduler-job-manager.ts]: the circuit
    breaker, the resource monitor, the priority lanes and the
    [SchedulerJobManager] class with its registry, its execution ledger and
    its retry loop.

    Conventions of the embedding.
    - A JavaScript [number] that the code uses as a count, a priority or a
      millisecond timestamp is a [Z].  Doubles are exact on the integers the
      scheduler handles (below 2^53); fractional numbers are outside the model.
    - An [async] method is a function from the state of the program before
      the call to its settlement and the state after it (type [M]).  Calls run
      one after the other: the interleaving of two executions that are in
      flight at once is outside the model.
    - The wall clock, the heap readings of [process.memoryUsage()] and the job
      bodies belong to the environment; the state carries them as oracles. *)

From Stdlib Require Import ZArith QArith Qminmax Qround List Lia Lqa Sorting.Permutation.
From stdpp Require Import base tactics option list sorting gmap strings pretty fin_maps.

#[local] Open Scope Z_scope.

(** ** Values a promise settles with *)

(** What a [throw] carries.  [error instanceof Error] holds for the first
    three; [QueueTimeoutError] is the [TimeoutError] of the queue library,
    [ZodError] what [JobSchema.parse] throws, with the paths of the fields it
    refused. *)
Inductive Thrown : Type :=
| JsError (message : string)
| QueueTimeoutError (message : string)
| ZodError (issues : list string)
| NonError (shown : string).

(** Settlement of an awaited call.  [Hang] stands for a promise that is still
    pending when the model stops waiting for it. *)
Inductive Outcome (A : Type) : Type :=
| Ret (a : A)
| Throw (e : Thrown)
| Hang.
Arguments Ret {A} a.
Arguments Throw {A} e.
Arguments Hang {A}.

#[global] Instance Thrown_eq_dec : EqDecision Thrown.
Proof. solve_decision. Defined.

(** [error instanceof Error] *)
Definition instanceofError (e : Thrown) : bool :=
  match e with
  | JsError _ | QueueTimeoutError _ | ZodError _ => true
  | NonError _ => false
  end.

(** [error instanceof Error ? error.message : String(error)].  The message
    of a [ZodError] renders its issues; the model keeps their paths. *)
Definition errorMessage (e : Thrown) : string :=
  match e with
  | JsError m | QueueTimeoutError m => m
  | ZodError issues => String.concat ", " issues
  | NonError s => s
  end.

(** [Math.round(p / q)] for integers [p] and [q > 0]: the nearest integer,
    halves going up. *)
Definition round_div (p q : Z) : Z := (2 * p + q) / (2 * q).

(** ** CircuitBreaker (lines 96-142) *)

Module CircuitBreaker.

Inductive State : Type := closed | open | half_open.

#[global] Instance State_eq_dec : EqDecision State.
Proof. solve_decision. Defined.

Record t : Type := mk {
  threshold : Z;
  timeout : Z;
  failureCount : Z;
  lastFailureTime : Z;
  state : State
}.

(** [new CircuitBreaker(threshold, timeout = 60000)] *)
Definition default_timeout : Z := 60000.

Definition new (threshold timeout : Z) : t :=
  {| threshold := threshold; timeout := timeout;
     failureCount := 0; lastFailureTime := 0; state := closed |}.

Definition set_state (st : State) (cb : t) : t :=
  {| threshold := threshold cb; timeout := timeout cb;
     failureCount := failureCount cb;
     lastFailureTime := lastFailureTime cb; state := st |}.

Definition onSuccess (cb : t) : t :=
  {| threshold := threshold cb; timeout := timeout cb;
     failureCount := 0;
     lastFailureTime := lastFailureTime cb; state := closed |}.

Definition onFailure (now : Z) (cb : t) : t :=
  let n := failureCount cb + 1 in
  {| threshold := threshold cb; timeout := timeout cb;
     failureCount := n;
     lastFailureTime := now;
     state := if threshold cb <=? n then open else state cb |}.

Definition rejection : Thrown :=
  JsError "Circuit breaker is OPEN - operation rejected".

(** [getState()] (lines 139-141) *)
Definition getState (cb : t) : string :=
  match state cb with
  | closed => "closed"
  | open => "open"
  | half_open => "half-open"
  end.

(** The guard at the head of [execute]: [None] is the rejection, [Some cb']
    lets the call through with the breaker as the guard left it. *)
Definition enter (now : Z) (cb : t) : option t :=
  match state cb with
  | open =>
      if timeout cb <? now - lastFailureTime cb
      then Some (set_state half_open cb)
      else None
  | _ => Some cb
  end.

Section Execute.
Context {S A : Type}.
(** [Date.now()] in a state of the program. *)
Variable clock : S -> Z.

(** [execute(operation)].  The breaker object is passed in and handed
    back; [operation] runs on the program state. *)
Definition execute (operation : S -> Outcome A * S) (cb : t) (s : S)
  : Outcome A * t * S :=
  match enter (clock s) cb with
  | None => (Throw rejection, cb, s)
  | Some cb1 =>
      match operation s with
      | (Ret v, s') => (Ret v, onSuccess cb1, s')
      | (Throw e, s') => (Throw e, onFailure (clock s') cb1, s')
      | (Hang, s') => (Hang, cb1, s')
      end
  end.

Definition breaker_after (r : Outcome A * t * S) : t := snd (fst r).
Definition state_after (r : Outcome A * t * S) : S := snd r.
Definition settled (r : Outcome A * t * S) : Outcome A := fst (fst r).

(** One call after the other on the same breaker. *)
Fixpoint execute_all (ops : list (S -> Outcome A * S)) (cb : t) (s : S)
  : t * S :=
  match ops with
  | [] => (cb, s)
  | op :: rest =>
      let r := execute op cb s in
      execute_all rest (breaker_after r) (state_after r)
  end.

(** The breakers a program can hold: made by [new], then only touched by
    [execute]. *)
Inductive reachable (N T : Z) : t -> Prop :=
| reach_new : reachable N T (new N T)
| reach_execute cb op s :
    reachable N T cb -> reachable N T (breaker_after (execute op cb s)).

(** An operation that rejects whenever it is called. *)
Definition always_fails (op : S -> Outcome A * S) : Prop :=
  forall s, exists e s', op s = (Throw e, s').

End Execute.

End CircuitBreaker.

(** ** ResourceMonitor (lines 145-191) *)

Module ResourceMonitor.

(** What [process.memoryUsage()] reports, in bytes. *)
Record HeapSample : Type := { heapUsed : Z; heapTotal : Z }.

(** The object [getCurrentUsage] returns. *)
Record Usage : Type := { memory : Z; cpu : Q }.

(** An entry of [readings]. *)
Record Reading : Type := { timestamp : Z; r_memory : Z; r_cpu : Q }.

(** [Math.round((memUsage.heapUsed / memUsage.heapTotal) * 100)], with the
    quotient taken exactly.  The source rounds the product of two doubles,
    which can fall on the other side of a half: at 29/200 it gives 14 where
    the exact figure is 15. *)
Definition memoryPercent (m : HeapSample) : Z :=
  round_div (100 * heapUsed m) (heapTotal m).

(** The callback handed to [setImmediate]: it runs on a later tick, when
    the lag [lag_ns] (nanoseconds, from [process.hrtime.bigint()]) and the
    time [now] are known, and pushes one reading, keeping the last 100. *)
Definition recordSample (memory lag_ns now : Z) (readings : list Reading)
  : list Reading :=
  let lag := (inject_Z lag_ns / 1000000)%Q in
  let cpu := Qmin 100 (lag / 10) in
  let pushed := readings ++ [ {| timestamp := now; r_memory := memory; r_cpu := cpu |} ] in
  if 100 <? Z.of_nat (length pushed) then tail pushed else pushed.

(** [getCurrentUsage()]: the reading returned at once, and the callback
    left for the next tick. *)
Definition getCurrentUsage (m : HeapSample)
  : Usage * (Z -> Z -> list Reading -> list Reading) :=
  let memory := memoryPercent m in
  ({| memory := memory; cpu := 0 |}, recordSample memory).

(** [a > b] on the rationals. *)
Definition Qgtb (a b : Q) : bool := negb (Qle_bool a b).

(** [isSystemOverloaded()] on the heap sample its call reads. *)
Definition isSystemOverloaded (m : HeapSample) : bool :=
  let current := fst (getCurrentUsage m) in
  (85 <? memory current) || Qgtb (cpu current) 90.

End ResourceMonitor.

(** ** The lanes of PriorityJobQueue (lines 194-207) *)

Module PQueue.
(** The options a [PQueue] is built with. *)
Record t : Type := { concurrency : Z; intervalCap : Z; interval : Z }.
End PQueue.

Module PriorityJobQueue.

(** [new PQueue({ concurrency: Math.max(1, Math.floor(concurrency / priority)),
    intervalCap: 10, interval: 1000 })] *)
Definition lane (concurrency priority : Z) : PQueue.t :=
  {| PQueue.concurrency := Z.max 1 (concurrency / priority);
     PQueue.intervalCap := 10;
     PQueue.interval := 1000 |}.

(** The constructor's loop, entered with [priority] and [todo] rounds left. *)
Fixpoint fill (todo : nat) (priority concurrency : Z) (queues : gmap Z PQueue.t)
  : gmap Z PQueue.t :=
  match todo with
  | O => queues
  | S k => fill k (priority + 1) concurrency
             (<[priority := lane concurrency priority]> queues)
  end.

(** [for (let priority = 1; priority <= 5; priority++)] *)
Definition new (concurrency : Z) : gmap Z PQueue.t := fill 5 1 concurrency ∅.

End PriorityJobQueue.

(** ** Data model (lines 20-72) *)

(** [result?: any]: what a job body hands back.  The placeholders of the
    source return an object with a message and a count. *)
Inductive Value : Type :=
| undefined
| report (message : string) (items : Z).

Module ScheduledJob.

(** [target.type]; [other_target] is a string outside the enumeration, which
    only a job that bypassed [JobSchema] can carry. *)
Inductive TargetType : Type :=
| scraping | data_processing | export | cleanup
| other_target (name : string).

Record RetryConfig : Type := {
  maxRetries : Z;
  backoffMultiplier : Z;
  initialDelay : Z
}.

Record Metadata : Type := {
  createdAt : Z;
  updatedAt : Z;
  lastRun : option Z;
  nextRun : option Z;
  runCount : Z;
  errorCount : Z;
  averageRunTime : Z
}.

(** [Omit<ScheduledJob, 'metadata'>]; [target.config] is opaque to the
    scheduler and kept as text. *)
Record JobData : Type := {
  id : string;
  name : string;
  description : string;
  cronExpression : string;
  target_type : TargetType;
  target_config : string;
  priority : Z;
  retryConfig : RetryConfig;
  dependencies : list string;
  timeout : Z;
  enabled : bool
}.

Record t : Type := { definition : JobData; metadata : Metadata }.

Definition with_metadata (m : Metadata) (job : t) : t :=
  {| definition := definition job; metadata := m |}.

Definition with_nextRun (v : option Z) (m : Metadata) : Metadata :=
  {| createdAt := createdAt m; updatedAt := updatedAt m;
     lastRun := lastRun m; nextRun := v; runCount := runCount m;
     errorCount := errorCount m; averageRunTime := averageRunTime m |}.

End ScheduledJob.

Module JobExecution.

Inductive Status : Type := pending | running | completed | failed | timeout.

#[global] Instance Status_eq_dec : EqDecision Status.
Proof. solve_decision. Defined.

Record Metrics : Type := { memoryUsage : Z; cpuUsage : Z; duration : Z }.

Record t : Type := {
  id : string;
  jobId : string;
  startTime : Z;
  endTime : option Z;
  status : Status;
  result : option Value;
  error : option string;
  retryAttempt : Z;
  metrics : Metrics
}.

Definition with_endTime (v : option Z) (x : t) : t :=
  {| id := id x; jobId := jobId x; startTime := startTime x; endTime := v;
     status := status x; result := result x; error := error x;
     retryAttempt := retryAttempt x; metrics := metrics x |}.

Definition with_status (v : Status) (x : t) : t :=
  {| id := id x; jobId := jobId x; startTime := startTime x;
     endTime := endTime x; status := v; result := result x;
     error := error x; retryAttempt := retryAttempt x;
     metrics := metrics x |}.

Definition with_result (v : option Value) (x : t) : t :=
  {| id := id x; jobId := jobId x; startTime := startTime x;
     endTime := endTime x; status := status x; result := v;
     error := error x; retryAttempt := retryAttempt x;
     metrics := metrics x |}.

Definition with_error (v : option string) (x : t) : t :=
  {| id := id x; jobId := jobId x; startTime := startTime x;
     endTime := endTime x; status := status x; result := result x;
     error := v; retryAttempt := retryAttempt x; metrics := metrics x |}.

Definition with_retryAttempt (v : Z) (x : t) : t :=
  {| id := id x; jobId := jobId x; startTime := startTime x;
     endTime := endTime x; status := status x; result := result x;
     error := error x; retryAttempt := v; metrics := metrics x |}.

Definition with_metrics (v : Metrics) (x : t) : t :=
  {| id := id x; jobId := jobId x; startTime := startTime x;
     endTime := endTime x; status := status x; result := result x;
     error := error x; retryAttempt := retryAttempt x; metrics := v |}.

Definition with_duration (v : Z) (m : Metrics) : Metrics :=
  {| memoryUsage := memoryUsage m; cpuUsage := cpuUsage m; duration := v |}.

Definition with_memoryUsage (v : Z) (m : Metrics) : Metrics :=
  {| memoryUsage := v; cpuUsage := cpuUsage m; duration := duration m |}.

End JobExecution.

Record SchedulerConfig : Type := {
  maxConcurrentJobs : Z;
  jobPersistencePath : string;
  executionHistoryLimit : Z;
  healthCheckInterval : Z;
  circuitBreakerThreshold : Z;
  resourceMonitoring : bool
}.

(** The defaults of the constructor (lines 279-286). *)
Definition defaultConfig : SchedulerConfig :=
  {| maxConcurrentJobs := 5;
     jobPersistencePath := "./data/jobs";
     executionHistoryLimit := 1000;
     healthCheckInterval := 30000;
     circuitBreakerThreshold := 5;
     resourceMonitoring := true |}.

(** ** The program state *)

(** A task of node-cron: its expression, the job id its callback passes to
    [executeJob], and whether it is started.  A handle is the task's position
    in [timers]. *)
Record CronTask : Type := {
  expression : string;
  fires : string;
  started : bool
}.

(** One run of a job body, as the environment decides it: what it settles
    with and the milliseconds it takes. *)
Record Attempt : Type := {
  settles : Value + Thrown;
  takes : Z
}.

(** What the program cannot decide by itself. *)
Record Env : Type := {
  (** [cron.validate] of node-cron *)
  cron_validate : string -> bool;
  (** whether the queue library rejects a task that ran out of time (it
      resolves with [undefined] otherwise); the sources do not pin the
      library's version and pass no [throwOnTimeout] option *)
  throwOnTimeout : bool;
  (** the message of the [TimeoutError] the queue library rejects with when
      it cuts a task given [timeout] milliseconds; the text is the library's *)
  timeoutMessage : Z -> string;
  (** what [cron.schedule] of node-cron throws on an expression its
      validator refuses *)
  scheduleRefusal : string -> Thrown;
  (** how many polls of [waitForResources] the model follows *)
  patience : nat;
  (** the n-th reading of [process.memoryUsage()] *)
  memoryUsage : nat -> ResourceMonitor.HeapSample;
  (** the n-th run of a job body *)
  jobBody : nat -> Attempt
}.

(** What the program does that an observer can see, in order. *)
Inductive Event : Type :=
| StatusWrite (executionId : string) (status : JobExecution.Status)
| BodyRun (n : nat)
| Backoff (delay : Z)
| ResourcePoll
| QueueTimeout
| JobCreated (job : ScheduledJob.t)
| JobCompleted (job : ScheduledJob.t) (execution : JobExecution.t)
| JobFailed (job : ScheduledJob.t) (execution : JobExecution.t) (error : Thrown).

(** The fields of [SchedulerJobManager] (lines 267-274), the tasks node-cron
    holds, the environment and its cursors, and the log of events. *)
Record World : Type := {
  config : SchedulerConfig;
  jobs : gmap string ScheduledJob.t;
  cronTasks : gmap string nat;
  executions : list (string * JobExecution.t);
  jobQueue : gmap Z PQueue.t;
  circuitBreakers : gmap string CircuitBreaker.t;
  timers : list CronTask;
  env : Env;
  now : Z;
  heapReads : nat;
  bodyRuns : nat;
  log : list Event
}.

Section Setters.
Definition set_jobs (v : gmap string ScheduledJob.t) (w : World) : World :=
  {| config := config w; jobs := v; cronTasks := cronTasks w;
     executions := executions w; jobQueue := jobQueue w;
     circuitBreakers := circuitBreakers w; timers := timers w;
     env := env w; now := now w; heapReads := heapReads w;
     bodyRuns := bodyRuns w; log := log w |}.

Definition set_cronTasks (v : gmap string nat) (w : World) : World :=
  {| config := config w; jobs := jobs w; cronTasks := v;
     executions := executions w; jobQueue := jobQueue w;
     circuitBreakers := circuitBreakers w; timers := timers w;
     env := env w; now := now w; heapReads := heapReads w;
     bodyRuns := bodyRuns w; log := log w |}.

Definition set_executions (v : list (string * JobExecution.t)) (w : World) : World :=
  {| config := config w; jobs := jobs w; cronTasks := cronTasks w;
     executions := v; jobQueue := jobQueue w;
     circuitBreakers := circuitBreakers w; timers := timers w;
     env := env w; now := now w; heapReads := heapReads w;
     bodyRuns := bodyRuns w; log := log w |}.

Definition set_circuitBreakers (v : gmap string CircuitBreaker.t) (w : World) : World :=
  {| config := config w; jobs := jobs w; cronTasks := cronTasks w;
     executions := executions w; jobQueue := jobQueue w;
     circuitBreakers := v; timers := timers w; env := env w; now := now w;
     heapReads := heapReads w; bodyRuns := bodyRuns w; log := log w |}.

Definition set_timers (v : list CronTask) (w : World) : World :=
  {| config := config w; jobs := jobs w; cronTasks := cronTasks w;
     executions := executions w; jobQueue := jobQueue w;
     circuitBreakers := circuitBreakers w; timers := v; env := env w;
     now := now w; heapReads := heapReads w; bodyRuns := bodyRuns w;
     log := log w |}.

Definition set_now (v : Z) (w : World) : World :=
  {| config := config w; jobs := jobs w; cronTasks := cronTasks w;
     executions := executions w; jobQueue := jobQueue w;
     circuitBreakers := circuitBreakers w; timers := timers w;
     env := env w; now := v; heapReads := heapReads w;
     bodyRuns := bodyRuns w; log := log w |}.

Definition set_heapReads (v : nat) (w : World) : World :=
  {| config := config w; jobs := jobs w; cronTasks := cronTasks w;
     executions := executions w; jobQueue := jobQueue w;
     circuitBreakers := circuitBreakers w; timers := timers w;
     env := env w; now := now w; heapReads := v; bodyRuns := bodyRuns w;
     log := log w |}.

Definition set_bodyRuns (v : nat) (w : World) : World :=
  {| config := config w; jobs := jobs w; cronTasks := cronTasks w;
     executions := executions w; jobQueue := jobQueue w;
     circuitBreakers := circuitBreakers w; timers := timers w;
     env := env w; now := now w; heapReads := heapReads w; bodyRuns := v;
     log := log w |}.

Definition set_log (v : list Event) (w : World) : World :=
  {| config := config w; jobs := jobs w; cronTasks := cronTasks w;
     executions := executions w; jobQueue := jobQueue w;
     circuitBreakers := circuitBreakers w; timers := timers w;
     env := env w; now := now w; heapReads := heapReads w;
     bodyRuns := bodyRuns w; log := v |}.
End Setters.

(** [new SchedulerJobManager(config)] at time [t] in environment [e], with
    the fields as the constructor itself writes them: registry, ledger,
    breakers and tasks empty, and the queue.  The constructor goes on to call
    [initializeJobPersistence], which loads the registry an earlier run left
    in the store, and [startHealthCheck]; the body of neither is among the
    sources in full.  [newManager] is the manager on an empty store;
    statements about every manager take the state as a parameter. *)
Definition newManager (c : SchedulerConfig) (e : Env) (t : Z) : World :=
  {| config := c; jobs := ∅; cronTasks := ∅; executions := [];
     jobQueue := PriorityJobQueue.new (maxConcurrentJobs c);
     circuitBreakers := ∅; timers := []; env := e; now := t;
     heapReads := 0; bodyRuns := 0; log := [] |}.

(** ** Awaited calls as state transformers *)

(** An awaited call on a state [S]: how it settles, and the state it leaves.
    A [throw] keeps the changes made before it, as in JavaScript. *)
Definition M (S A : Type) : Type := S -> Outcome A * S.

Definition ret {S A : Type} (a : A) : M S A := fun s => (Ret a, s).

Definition throw {S A : Type} (e : Thrown) : M S A := fun s => (Throw e, s).

Definition hang {S A : Type} : M S A := fun s => (Hang, s).

Definition bind {S A B : Type} (c : M S A) (k : A -> M S B) : M S B :=
  fun s =>
    match c s with
    | (Ret a, s') => k a s'
    | (Throw e, s') => (Throw e, s')
    | (Hang, s') => (Hang, s')
    end.

(** [try { c } catch (error) { h error }] *)
Definition try_catch {S A : Type} (c : M S A) (h : Thrown -> M S A) : M S A :=
  fun s =>
    match c s with
    | (Throw e, s') => h e s'
    | r => r
    end.

Definition gets {S A : Type} (f : S -> A) : M S A := fun s => (Ret (f s), s).

Definition modify {S : Type} (f : S -> S) : M S unit := fun s => (Ret tt, f s).

Notation "'let*' x ':=' c 'in' k" := (bind c (fun x => k))
  (at level 10, x name, c at level 100, k at level 200).

(** What the closure [() => this.runJobWithRetry(job, execution)] works on:
    the execution object it captured, and the program state. *)
Definition Frame : Type := JobExecution.t * World.

(** A call that only touches the program state, made from inside the closure. *)
Definition lift {A : Type} (c : M World A) : M Frame A :=
  fun s =>
    match c (snd s) with
    | (r, w') => (r, (fst s, w'))
    end.

(** ** Primitives of the platform *)

(** [Date.now()] *)
Definition Date_now : M World Z := gets now.

(** Time going by while a promise is awaited. *)
Definition elapse (ms : Z) : M World unit :=
  modify (fun w => set_now (now w + Z.max 0 ms) w).

Definition emit (e : Event) : M World unit :=
  modify (fun w => set_log (log w ++ [e]) w).

(** [process.memoryUsage()] *)
Definition process_memoryUsage : M World ResourceMonitor.HeapSample :=
  fun w => (Ret (memoryUsage (env w) (heapReads w)), set_heapReads (S (heapReads w)) w).

(** The time a timer of the platform armed with [delay] milliseconds takes:
    [setTimeout] honours a delay from 1 to 2^31 - 1 and takes any other as 1. *)
Definition timerDelay (delay : Z) : Z :=
  if (1 <=? delay) && (delay <=? 2147483647) then delay else 1.

(** [await new Promise(resolve => setTimeout(resolve, delay))] in the retry
    loop: the timer is armed with [delay], which the log keeps, and the clock
    moves by what the timer makes of it. *)
Definition backoff (delay : Z) : M World unit :=
  let* _ := emit (Backoff delay) in
  elapse (timerDelay delay).

(** One run of a job body: [executeScraping], [executeDataProcessing],
    [executeExport] and [executeCleanup] (lines 562-582) are placeholders that
    log and return a report with a random count.  The embedding takes what a
    run returns or throws, and the time it takes, from the environment; the
    placeholders are the environment whose every run returns at once. *)
Definition runBody : M World Value :=
  fun w =>
    let a := jobBody (env w) (bodyRuns w) in
    let w' := set_now (now w + Z.max 0 (takes a))
                (set_bodyRuns (S (bodyRuns w))
                   (set_log (log w ++ [BodyRun (bodyRuns w)]) w)) in
    match settles a with
    | inl v => (Ret v, w')
    | inr e => (Throw e, w')
    end.

(** ** The registry (lines 585-603) *)

(** [!job.metadata.lastRun] is false only for a number other than 0. *)
Definition truthy (t : option Z) : bool :=
  match t with
  | Some v => negb (v =? 0)
  | None => false
  end.

(** The [for ... of] loop of [checkDependencies]. *)
Fixpoint dependenciesReady (jobs : gmap string ScheduledJob.t) (dependencies : list string)
  : bool :=
  match dependencies with
  | [] => true
  | depJobId :: rest =>
      match jobs !! depJobId with
      | None => false
      | Some job =>
          if negb (truthy (ScheduledJob.lastRun (ScheduledJob.metadata job)))
             || (0 <? ScheduledJob.errorCount (ScheduledJob.metadata job))
          then false
          else dependenciesReady jobs rest
      end
  end.

Definition checkDependencies (jobs : gmap string ScheduledJob.t) (dependencies : list string)
  : bool :=
  if Z.of_nat (length dependencies) =? 0 then true
  else dependenciesReady jobs dependencies.

(** [getNextRunTime]: the placeholder of the source, one minute from now. *)
Definition getNextRunTime (cronExpression : string) (now : Z) : Z := now + 60000.

(** [calculateAverageRunTime], called after [runCount] was incremented. *)
Definition calculateAverageRunTime (job : ScheduledJob.t) (newDuration : Z) : Z :=
  let currentAvg := ScheduledJob.averageRunTime (ScheduledJob.metadata job) in
  let runCount := ScheduledJob.runCount (ScheduledJob.metadata job) in
  round_div (currentAvg * (runCount - 1) + newDuration) runCount.

(** ** The execution ledger (lines 618-629) *)

(** [this.executions] is a [Map]: keys are unique and keep the order in which
    they were first set.  [Map.prototype.set]: *)
Fixpoint ledger_set (id : string) (e : JobExecution.t) (m : list (string * JobExecution.t))
  : list (string * JobExecution.t) :=
  match m with
  | [] => [(id, e)]
  | (k, v) :: rest =>
      if decide (k = id) then (k, e) :: rest else (k, v) :: ledger_set id e rest
  end.

(** [Array.prototype.sort] with the comparator
    [([, a], [, b]) => b.startTime - a.startTime].  The sort of the language
    is stable; so is insertion from the right. *)
Fixpoint insert_recent (x : string * JobExecution.t) (sorted : list (string * JobExecution.t))
  : list (string * JobExecution.t) :=
  match sorted with
  | [] => [x]
  | y :: rest =>
      if JobExecution.startTime (snd x) <? JobExecution.startTime (snd y)
      then y :: insert_recent x rest
      else x :: y :: rest
  end.

Definition sort_recent_first (l : list (string * JobExecution.t))
  : list (string * JobExecution.t) :=
  foldr insert_recent [] l.

(** [Array.prototype.slice(0, stop)]; a negative [stop] counts from the end. *)
Definition slice0 {A : Type} (stop : Z) (l : list A) : list A :=
  let len := Z.of_nat (length l) in
  take (Z.to_nat (if stop <? 0 then Z.max (len + stop) 0 else stop)) l.

(** [cleanupExecutionHistory] on the ledger alone. *)
Definition trimHistory (limit : Z) (ledger : list (string * JobExecution.t))
  : list (string * JobExecution.t) :=
  if Z.of_nat (length ledger) <=? limit then ledger
  else
    let executions := slice0 limit (sort_recent_first ledger) in
    foldl (fun m entry => ledger_set (fst entry) (snd entry) m) [] executions.

Definition cleanupExecutionHistory : M World unit :=
  modify (fun w =>
    set_executions (trimHistory (executionHistoryLimit (config w)) (executions w)) w).

(** Modelled from the spec: [persistJobs] is called by the code under src/,
    its body is not among the sources.  By section 6 of the specification it
    rewrites the JSON document of the registry, which is outside the program
    state: the model leaves the state as it is.  The model follows the calls
    whose write goes through; a write that fails would propagate from the
    caller, after what the caller wrote before it. *)
Definition persistJobs : M World unit := ret tt.

(** ** runJobWithRetry (lines 500-538) *)

(** [error instanceof Error ? error : new Error(String(error))] *)
Definition toError (error : Thrown) : Thrown :=
  match error with
  | NonError shown => JsError shown
  | e => e
  end.

(** [executeJobLogic] (lines 541-560) *)
Definition executeJobLogic (job : ScheduledJob.t) : M World Value :=
  match ScheduledJob.target_type (ScheduledJob.definition job) with
  | ScheduledJob.scraping
  | ScheduledJob.data_processing
  | ScheduledJob.export
  | ScheduledJob.cleanup => runBody
  | ScheduledJob.other_target type => throw (JsError ("Unknown job type: " +:+ type))
  end.

Definition setExecution (f : JobExecution.t -> JobExecution.t) : M Frame unit :=
  modify (fun s => (f (fst s), snd s)).

(** [execution.status = st] *)
Definition writeStatus (st : JobExecution.Status) : M Frame unit :=
  fun s =>
    (Ret tt,
     (JobExecution.with_status st (fst s),
      set_log (log (snd s) ++ [StatusWrite (JobExecution.id (fst s)) st]) (snd s))).

(** The [for] loop, entered with the counter at [attempt] and [rounds] rounds
    to go. *)
Fixpoint retryLoop (rounds : nat) (attempt : Z) (job : ScheduledJob.t)
  (lastError : option Thrown) : M Frame Value :=
  match rounds with
  | O =>
      throw (default (JsError "Job failed after all retry attempts") lastError)
  | S k =>
      let rc := ScheduledJob.retryConfig (ScheduledJob.definition job) in
      let* _ := setExecution (JobExecution.with_retryAttempt attempt) in
      let* _ := writeStatus JobExecution.running in
      try_catch
        (let* resourcesBefore := lift process_memoryUsage in
         let* startTime := lift Date_now in
         let* result := lift (executeJobLogic job) in
         let* endTime := lift Date_now in
         let* resourcesAfter := lift process_memoryUsage in
         let* _ := setExecution (fun x =>
           JobExecution.with_metrics
             (JobExecution.with_duration (endTime - startTime)
                (JobExecution.with_memoryUsage
                   (ResourceMonitor.heapUsed resourcesAfter
                    - ResourceMonitor.heapUsed resourcesBefore)
                   (JobExecution.metrics x))) x) in
         ret result)
        (fun error =>
           let* _ :=
             if attempt <? ScheduledJob.maxRetries rc
             then lift (backoff (ScheduledJob.initialDelay rc
                                 * ScheduledJob.backoffMultiplier rc ^ attempt))
             else ret tt in
           retryLoop k (attempt + 1) job (Some (toError error)))
  end.

(** [for (let attempt = 0; attempt <= maxRetries; attempt++)] makes
    [maxRetries + 1] rounds, none when [maxRetries] is negative. *)
Definition runJobWithRetry (job : ScheduledJob.t) : M Frame Value :=
  let rc := ScheduledJob.retryConfig (ScheduledJob.definition job) in
  retryLoop (Z.to_nat (ScheduledJob.maxRetries rc + 1)) 0 job None.

(** ** PriorityJobQueue.addJob (lines 209-239) *)

(** [this.resourceMonitor.isSystemOverloaded()]: one heap reading.  The
    callback it leaves for the next tick only feeds [readings], which
    [getQueueStats] alone reads. *)
Definition isSystemOverloaded : M World bool :=
  let* m := process_memoryUsage in
  ret (ResourceMonitor.isSystemOverloaded m).

(** [checkResources] inside [waitForResources]: poll every two seconds until
    the system is no longer overloaded.  The model follows [polls] polls. *)
Fixpoint checkResources (polls : nat) : M World unit :=
  match polls with
  | O => hang
  | S k =>
      let* overloaded := isSystemOverloaded in
      if overloaded
      then let* _ := emit ResourcePoll in
           let* _ := elapse 2000 in
           checkResources k
      else ret tt
  end.

Definition waitForResources : M World unit :=
  fun w => checkResources (patience (env w)) w.

(** [queue.add(job, { timeout })].  p-queue is a dependency of the
    repository, not part of it; this is its documented contract for a lane
    that is within its concurrency and its interval cap, which is the case
    when calls run one after the other and no more than [intervalCap] of
    them start in one interval: the task starts at once.  When the task is
    still running [timeout] milliseconds after its start the library settles
    the call at that time, by rejecting with its [TimeoutError] or by
    resolving with [undefined] according to [throwOnTimeout], and the caller
    goes on from there.  The library does not cancel the task.  The model is
    sequential: it books what the task does, to its end, before the caller
    goes on, and marks the cut in the log; the order in which a real run
    interleaves the rest of the abandoned task with its caller is not
    followed. *)
Definition PQueue_add (queue : PQueue.t) (timeout : Z) (job : M Frame Value)
  : M Frame Value :=
  fun s =>
    let started := now (snd s) in
    match job s with
    | (Hang, s') => (Hang, s')
    | (r, s') =>
        if timeout <? now (snd s') - started
        then
          let cut := (fst s',
                      set_now (started + Z.max 0 timeout)
                        (set_log (log (snd s') ++ [QueueTimeout]) (snd s'))) in
          if throwOnTimeout (env (snd s'))
          then (Throw (QueueTimeoutError (timeoutMessage (env (snd s')) timeout)), cut)
          else (Ret undefined, cut)
        else (r, s')
    end.

Definition addJob (priority : Z) (job : M Frame Value) (timeout : Z) : M Frame Value :=
  fun s =>
    match jobQueue (snd s) !! priority with
    | None => (Throw (JsError ("Invalid priority: " +:+ pretty priority)), s)
    | Some queue =>
        (let* overloaded := lift isSystemOverloaded in
         let* _ := if overloaded then lift waitForResources else ret tt in
         PQueue_add queue timeout job) s
    end.

(** ** executeJob (lines 418-497) *)

(** The [try] block (lines 450-464): get or create the breaker of the job,
    then run the queued retry loop through it.  The breaker is an object of
    [this.circuitBreakers]; what [execute] did to it is written back under
    the job's id. *)
Definition tryBlock (jobId : string) (job : ScheduledJob.t) : M Frame Value :=
  fun s =>
    let w := snd s in
    let circuitBreaker :=
      default (CircuitBreaker.new (circuitBreakerThreshold (config w))
                 CircuitBreaker.default_timeout)
              (circuitBreakers w !! jobId) in
    let w1 := set_circuitBreakers (<[jobId := circuitBreaker]> (circuitBreakers w)) w in
    match CircuitBreaker.execute (fun s => now (snd s))
            (addJob (ScheduledJob.priority (ScheduledJob.definition job))
               (runJobWithRetry job)
               (ScheduledJob.timeout (ScheduledJob.definition job)))
            circuitBreaker (fst s, w1) with
    | (r, cb', s') =>
        (r, (fst s',
             set_circuitBreakers (<[jobId := cb']> (circuitBreakers (snd s'))) (snd s')))
    end.

(** Lines 466-478.  [job] is the object the registry holds under [jobId]. *)
Definition onCompleted (jobId : string) (job : ScheduledJob.t) (result : Value)
  : M Frame unit :=
  let* _ := writeStatus JobExecution.completed in
  let* _ := setExecution (JobExecution.with_result (Some result)) in
  let* t := lift Date_now in
  let* _ := setExecution (fun x =>
    JobExecution.with_metrics
      (JobExecution.with_duration (t - JobExecution.startTime x) (JobExecution.metrics x))
      (JobExecution.with_endTime (Some t) x)) in
  fun s =>
    let execution := fst s in
    let m := ScheduledJob.metadata job in
    let counted :=
      ScheduledJob.with_metadata
        {| ScheduledJob.createdAt := ScheduledJob.createdAt m;
           ScheduledJob.updatedAt := ScheduledJob.updatedAt m;
           ScheduledJob.lastRun := Some (JobExecution.startTime execution);
           ScheduledJob.nextRun :=
             Some (getNextRunTime
                     (ScheduledJob.cronExpression (ScheduledJob.definition job))
                     (now (snd s)));
           ScheduledJob.runCount := ScheduledJob.runCount m + 1;
           ScheduledJob.errorCount := ScheduledJob.errorCount m;
           ScheduledJob.averageRunTime := ScheduledJob.averageRunTime m |} job in
    let m' := ScheduledJob.metadata counted in
    let job' :=
      ScheduledJob.with_metadata
        {| ScheduledJob.createdAt := ScheduledJob.createdAt m';
           ScheduledJob.updatedAt := ScheduledJob.updatedAt m';
           ScheduledJob.lastRun := ScheduledJob.lastRun m';
           ScheduledJob.nextRun := ScheduledJob.nextRun m';
           ScheduledJob.runCount := ScheduledJob.runCount m';
           ScheduledJob.errorCount := ScheduledJob.errorCount m';
           ScheduledJob.averageRunTime :=
             calculateAverageRunTime counted
               (JobExecution.duration (JobExecution.metrics execution)) |} job in
    (Ret tt,
     (execution,
      set_log (log (snd s) ++ [JobCompleted job' execution])
        (set_jobs (<[jobId := job']> (jobs (snd s))) (snd s)))).

(** Lines 480-490, the [catch] block. *)
Definition onFailed (jobId : string) (job : ScheduledJob.t) (error : Thrown)
  : M Frame unit :=
  let* _ := writeStatus JobExecution.failed in
  let* _ := setExecution (JobExecution.with_error (Some (errorMessage error))) in
  let* t := lift Date_now in
  let* _ := setExecution (fun x =>
    JobExecution.with_metrics
      (JobExecution.with_duration (t - JobExecution.startTime x) (JobExecution.metrics x))
      (JobExecution.with_endTime (Some t) x)) in
  fun s =>
    let execution := fst s in
    let m := ScheduledJob.metadata job in
    let job' :=
      ScheduledJob.with_metadata
        {| ScheduledJob.createdAt := ScheduledJob.createdAt m;
           ScheduledJob.updatedAt := ScheduledJob.updatedAt m;
           ScheduledJob.lastRun := ScheduledJob.lastRun m;
           ScheduledJob.nextRun := ScheduledJob.nextRun m;
           ScheduledJob.runCount := ScheduledJob.runCount m;
           ScheduledJob.errorCount := ScheduledJob.errorCount m + 1;
           ScheduledJob.averageRunTime := ScheduledJob.averageRunTime m |} job in
    (Ret tt,
     (execution,
      set_log (log (snd s) ++ [JobFailed job' execution error])
        (set_jobs (<[jobId := job']> (jobs (snd s))) (snd s)))).

(** The execution object of lines 433-445. *)
Definition newExecution (jobId : string) (now : Z) : JobExecution.t :=
  {| JobExecution.id := jobId +:+ "_" +:+ pretty now;
     JobExecution.jobId := jobId;
     JobExecution.startTime := now;
     JobExecution.endTime := None;
     JobExecution.status := JobExecution.pending;
     JobExecution.result := None;
     JobExecution.error := None;
     JobExecution.retryAttempt := 0;
     JobExecution.metrics :=
       {| JobExecution.memoryUsage := 0; JobExecution.cpuUsage := 0;
          JobExecution.duration := 0 |} |}.

(** Lines 433-447: the execution object is made with status [pending] and
    set in the ledger. *)
Definition startExecution (jobId : string) (w : World) : Frame :=
  let execution := newExecution jobId (now w) in
  let executionId := JobExecution.id execution in
  (execution,
   set_log (log w ++ [StatusWrite executionId JobExecution.pending])
     (set_executions (ledger_set executionId execution (executions w)) w)).

(** Lines 492-496: the object is set in the ledger again, the registry is
    persisted, the history trimmed, and the object returned. *)
Definition settle (s : Frame) : Outcome JobExecution.t * World :=
  (let* _ := modify (fun w' =>
     set_executions (ledger_set (JobExecution.id (fst s)) (fst s) (executions w')) w') in
   let* _ := persistJobs in
   let* _ := cleanupExecutionHistory in
   ret (fst s)) (snd s).

(** Lines 447-496, once the guards of lines 419-431 let the call through. *)
Definition runExecution (jobId : string) (job : ScheduledJob.t) : M World JobExecution.t :=
  fun w =>
    match tryBlock jobId job (startExecution jobId w) with
    | (Ret result, s1) =>
        match onCompleted jobId job result s1 with
        | (_, s2) => settle s2
        end
    | (Throw error, s1) =>
        match onFailed jobId job error s1 with
        | (_, s2) => settle s2
        end
    | (Hang, s1) => (Hang, snd s1)
    end.

Definition executeJob (jobId : string) (manual : bool) : M World JobExecution.t :=
  fun w =>
    match jobs w !! jobId with
    | None => (Throw (JsError ("Job not found: " +:+ jobId)), w)
    | Some job =>
        if negb (ScheduledJob.enabled (ScheduledJob.definition job)) && negb manual
        then (Throw (JsError ("Job is disabled: " +:+ jobId)), w)
        else if negb manual
                && negb (checkDependencies (jobs w)
                           (ScheduledJob.dependencies (ScheduledJob.definition job)))
        then (Throw (JsError ("Job dependencies not met: " +:+ jobId)), w)
        else runExecution jobId job w
    end.

(** ** createJob and scheduleJob (lines 75-93, 295-336, 398-415) *)

(** The checks of [JobSchema], each with the path of the field it guards. *)
Definition schemaIssues (d : ScheduledJob.JobData) : list string :=
  let rc := ScheduledJob.retryConfig d in
  (if 1 <=? Z.of_nat (String.length (ScheduledJob.name d)) then [] else ["name"])
  ++ (match ScheduledJob.target_type d with
      | ScheduledJob.other_target _ => ["target.type"]
      | _ => []
      end)
  ++ (if (1 <=? ScheduledJob.priority d) && (ScheduledJob.priority d <=? 5)
      then [] else ["priority"])
  ++ (if 0 <=? ScheduledJob.maxRetries rc then [] else ["retryConfig.maxRetries"])
  ++ (if 1 <=? ScheduledJob.backoffMultiplier rc
      then [] else ["retryConfig.backoffMultiplier"])
  ++ (if 100 <=? ScheduledJob.initialDelay rc then [] else ["retryConfig.initialDelay"])
  ++ (if 1000 <=? ScheduledJob.timeout d then [] else ["timeout"]).

(** [JobSchema.parse]: the fields of the schema come back as they are, the
    [metadata] key passed along is dropped as an unknown key. *)
Definition JobSchema_parse {S : Type} (d : ScheduledJob.JobData) : M S ScheduledJob.JobData :=
  match schemaIssues d with
  | [] => ret d
  | issues => throw (ZodError issues)
  end.

(** [cronTask.start()] on the task with handle [h]. *)
Definition startTask (h : nat) (timers : list CronTask) : list CronTask :=
  alter (fun t => {| expression := expression t; fires := fires t; started := true |})
    h timers.

(** [scheduleJob(job)]: [cron.schedule] checks the expression with the
    validator behind [cron.validate] and throws the library's error on one it
    refuses, before anything is written.  Otherwise: a new task, created
    stopped, stored under the job's id and started; then
    [job.metadata.nextRun] is set.  [job] is the object the registry holds
    under its id; the call hands it back as it left it. *)
Definition scheduleJob (job : ScheduledJob.t) : M World ScheduledJob.t :=
  fun w =>
    let d := ScheduledJob.definition job in
    if cron_validate (env w) (ScheduledJob.cronExpression d)
    then
      let cronTask := length (timers w) in
      let created :=
        timers w ++ [ {| expression := ScheduledJob.cronExpression d;
                         fires := ScheduledJob.id d;
                         started := false |} ] in
      let job' :=
        ScheduledJob.with_metadata
          (ScheduledJob.with_nextRun
             (Some (getNextRunTime (ScheduledJob.cronExpression d) (now w)))
             (ScheduledJob.metadata job)) job in
      (Ret job',
       set_jobs (<[ScheduledJob.id d := job']> (jobs w))
         (set_timers (startTask cronTask created)
            (set_cronTasks (<[ScheduledJob.id d := cronTask]> (cronTasks w)) w)))
    else (Throw (scheduleRefusal (env w) (ScheduledJob.cronExpression d)), w).

(** The [metadata] of a job made at time [t]. *)
Definition freshMetadata (t : Z) : ScheduledJob.Metadata :=
  {| ScheduledJob.createdAt := t;
     ScheduledJob.updatedAt := t;
     ScheduledJob.lastRun := None;
     ScheduledJob.nextRun := None;
     ScheduledJob.runCount := 0;
     ScheduledJob.errorCount := 0;
     ScheduledJob.averageRunTime := 0 |}.

Definition createJob (jobData : ScheduledJob.JobData) : M World string :=
  let* validatedJob := JobSchema_parse jobData in
  let* t := Date_now in
  let job := {| ScheduledJob.definition := validatedJob;
                ScheduledJob.metadata := freshMetadata t |} in
  let* valid := gets (fun w => cron_validate (env w) (ScheduledJob.cronExpression validatedJob)) in
  if negb valid
  then throw (JsError ("Invalid cron expression: "
                       +:+ ScheduledJob.cronExpression validatedJob))
  else
    let* _ := modify (fun w => set_jobs (<[ScheduledJob.id validatedJob := job]> (jobs w)) w) in
    let* job := if ScheduledJob.enabled validatedJob then scheduleJob job else ret job in
    let* _ := persistJobs in
    let* _ := emit (JobCreated job) in
    ret (ScheduledJob.id validatedJob).

(** Whether node-cron is running the task with handle [h]. *)
Definition taskRunning (h : nat) (w : World) : bool :=
  match timers w !! h with
  | Some t => started t
  | None => false
  end.

(** ** ResourceMonitor.getAverageUsage (lines 173-185) *)

(** [Math.round] of a rational: the nearest integer, halves going up. *)
Definition round_Q (q : Q) : Z := Qfloor (q + (1 # 2)).

(** The object [getAverageUsage] returns. *)
Record AverageUsage : Type := { avgMemory : Z; avgCpu : Z }.

(** [getAverageUsage(minutes)] called at time [now] on [this.readings]. *)
Definition getAverageUsage (now minutes : Z) (readings : list ResourceMonitor.Reading)
  : AverageUsage :=
  let cutoff := now - minutes * 60 * 1000 in
  let recentReadings :=
    filter (fun r => cutoff < ResourceMonitor.timestamp r) readings in
  if Z.of_nat (length recentReadings) =? 0
  then {| avgMemory := 0; avgCpu := 0 |}
  else
    let sumMemory := foldl (fun sum r => sum + ResourceMonitor.r_memory r) 0 recentReadings in
    let sumCpu := foldl (fun sum r => (sum + ResourceMonitor.r_cpu r)%Q) 0%Q recentReadings in
    {| avgMemory := round_div sumMemory (Z.of_nat (length recentReadings));
       avgCpu := round_Q (sumCpu / inject_Z (Z.of_nat (length recentReadings))) |}.

(** ** updateJob, deleteJob and the cron callback (lines 338-395, 399-403) *)

(** The payloads of [job:updated] and [job:deleted]. *)
Inductive Notice : Type :=
| JobUpdated (job : ScheduledJob.t)
| JobDeleted (jobId : string) (job : ScheduledJob.t).

(** The program state with the flag [isShuttingDown] and the notices of the
    management calls. *)
Record Manager : Type := {
  world : World;
  isShuttingDown : bool;
  notices : list Notice
}.

(** A call on the program state, made on the manager. *)
Definition inWorld {A : Type} (c : M World A) : M Manager A :=
  fun m =>
    match c (world m) with
    | (r, w') =>
        (r, {| world := w'; isShuttingDown := isShuttingDown m; notices := notices m |})
    end.

Definition notify (n : Notice) : M Manager unit :=
  modify (fun m => {| world := world m; isShuttingDown := isShuttingDown m;
                      notices := notices m ++ [n] |}).

(** [cronTask.stop()] on the task with handle [h]. *)
Definition stopTask (h : nat) (timers : list CronTask) : list CronTask :=
  alter (fun t => {| expression := expression t; fires := fires t; started := false |})
    h timers.

(** Lines 344-349 and 380-385: the task stored under the id, if any, is
    stopped and forgotten. *)
Definition stopCronTask (jobId : string) : M World unit :=
  modify (fun w =>
    match cronTasks w !! jobId with
    | Some cronTask =>
        set_cronTasks (delete jobId (cronTasks w))
          (set_timers (stopTask cronTask (timers w)) w)
    | None => w
    end).

(** [Partial<ScheduledJob>]: each key may be absent.  [target] and
    [retryConfig] are replaced as a whole, as the spread does; a [metadata]
    key is overwritten by line 355 and is left out. *)
Record JobUpdates : Type := {
  u_id : option string;
  u_name : option string;
  u_description : option string;
  u_cronExpression : option string;
  u_target : option (ScheduledJob.TargetType * string);
  u_priority : option Z;
  u_retryConfig : option ScheduledJob.RetryConfig;
  u_dependencies : option (list string);
  u_timeout : option Z;
  u_enabled : option bool
}.

(** [{ ...job, ...updates }] on the keys of the definition. *)
Definition applyUpdates (d : ScheduledJob.JobData) (u : JobUpdates) : ScheduledJob.JobData :=
  {| ScheduledJob.id := default (ScheduledJob.id d) (u_id u);
     ScheduledJob.name := default (ScheduledJob.name d) (u_name u);
     ScheduledJob.description := default (ScheduledJob.description d) (u_description u);
     ScheduledJob.cronExpression :=
       default (ScheduledJob.cronExpression d) (u_cronExpression u);
     ScheduledJob.target_type :=
       default (ScheduledJob.target_type d) (fst <$> u_target u);
     ScheduledJob.target_config :=
       default (ScheduledJob.target_config d) (snd <$> u_target u);
     ScheduledJob.priority := default (ScheduledJob.priority d) (u_priority u);
     ScheduledJob.retryConfig := default (ScheduledJob.retryConfig d) (u_retryConfig u);
     ScheduledJob.dependencies := default (ScheduledJob.dependencies d) (u_dependencies u);
     ScheduledJob.timeout := default (ScheduledJob.timeout d) (u_timeout u);
     ScheduledJob.enabled := default (ScheduledJob.enabled d) (u_enabled u) |}.

(** [{ ...job.metadata, updatedAt: Date.now() }] *)
Definition with_updatedAt (t : Z) (m : ScheduledJob.Metadata) : ScheduledJob.Metadata :=
  {| ScheduledJob.createdAt := ScheduledJob.createdAt m;
     ScheduledJob.updatedAt := t;
     ScheduledJob.lastRun := ScheduledJob.lastRun m;
     ScheduledJob.nextRun := ScheduledJob.nextRun m;
     ScheduledJob.runCount := ScheduledJob.runCount m;
     ScheduledJob.errorCount := ScheduledJob.errorCount m;
     ScheduledJob.averageRunTime := ScheduledJob.averageRunTime m |}.

(** [scheduleJob(job)] for a [job] that the registry holds under [key]: the
    task is stored under [job.id], and the write to [job.metadata.nextRun]
    shows in the registry under [key].  [createJob] calls it with
    [key = job.id]; after [updateJob] with an [id] among the updates the two
    differ, and the expression is one that [cron.validate] was not asked
    about: [cron.schedule] throws on it when its validator refuses it. *)
Definition scheduleJobUnder (key : string) (job : ScheduledJob.t) : M World ScheduledJob.t :=
  fun w =>
    let d := ScheduledJob.definition job in
    if cron_validate (env w) (ScheduledJob.cronExpression d)
    then
      let cronTask := length (timers w) in
      let created :=
        timers w ++ [ {| expression := ScheduledJob.cronExpression d;
                         fires := ScheduledJob.id d;
                         started := false |} ] in
      let job' :=
        ScheduledJob.with_metadata
          (ScheduledJob.with_nextRun
             (Some (getNextRunTime (ScheduledJob.cronExpression d) (now w)))
             (ScheduledJob.metadata job)) job in
      (Ret job',
       set_jobs (<[key := job']> (jobs w))
         (set_timers (startTask cronTask created)
            (set_cronTasks (<[ScheduledJob.id d := cronTask]> (cronTasks w)) w)))
    else (Throw (scheduleRefusal (env w) (ScheduledJob.cronExpression d)), w).

(** [updateJob(jobId, updates)] *)
Definition updateJob (jobId : string) (updates : JobUpdates) : M Manager unit :=
  fun m =>
    match jobs (world m) !! jobId with
    | None => (Throw (JsError ("Job not found: " +:+ jobId)), m)
    | Some job =>
        (let* _ := inWorld (stopCronTask jobId) in
         let* t := inWorld Date_now in
         let updatedJob :=
           {| ScheduledJob.definition := applyUpdates (ScheduledJob.definition job) updates;
              ScheduledJob.metadata := with_updatedAt t (ScheduledJob.metadata job) |} in
         let* _ := inWorld (modify (fun w => set_jobs (<[jobId := updatedJob]> (jobs w)) w)) in
         let* updatedJob :=
           if ScheduledJob.enabled (ScheduledJob.definition updatedJob)
           then inWorld (scheduleJobUnder jobId updatedJob)
           else ret updatedJob in
         let* _ := inWorld persistJobs in
         notify (JobUpdated updatedJob)) m
    end.

(** [deleteJob(jobId)] *)
Definition deleteJob (jobId : string) : M Manager unit :=
  fun m =>
    match jobs (world m) !! jobId with
    | None => (Throw (JsError ("Job not found: " +:+ jobId)), m)
    | Some job =>
        (let* _ := inWorld (stopCronTask jobId) in
         let* _ := inWorld (modify (fun w =>
           set_circuitBreakers (delete jobId (circuitBreakers w))
             (set_jobs (delete jobId (jobs w)) w))) in
         let* _ := inWorld persistJobs in
         notify (JobDeleted jobId job)) m
    end.

(** The callback [scheduleJob] hands to [cron.schedule] for the job with id
    [jobId] (lines 399-403). *)
Definition cronCallback (jobId : string) : M Manager unit :=
  fun m =>
    if isShuttingDown m then (Ret tt, m)
    else inWorld (let* _ := executeJob jobId false in ret tt) m.

(** node-cron reaching the time of the task with handle [h]: a started task
    runs its callback, a stopped one does nothing. *)
Definition fireTask (h : nat) : M Manager unit :=
  fun m =>
    match timers (world m) !! h with
    | Some t => if started t then cronCallback (fires t) m else (Ret tt, m)
    | None => (Ret tt, m)
    end.

(** The manager right after its constructor. *)
Definition startManager (w : World) : Manager :=
  {| world := w; isShuttingDown := false; notices := [] |}.


(** ** Vocabulary of the statements *)

(** The registry invariant the execution path keeps: [errorCount] counts up
    from zero, and [lastRun] holds a start time, which is not the epoch. *)
Definition registry_wf (jobs : gmap string ScheduledJob.t) : Prop :=
  forall id job,
    jobs !! id = Some job ->
    0 <= ScheduledJob.errorCount (ScheduledJob.metadata job)
    /\ ScheduledJob.lastRun (ScheduledJob.metadata job) <> Some 0.

(** A dependency that is ready: registered, run at least once, never
    failed. *)
Definition dependency_ready (jobs : gmap string ScheduledJob.t) (depJobId : string) : Prop :=
  exists job,
    jobs !! depJobId = Some job
    /\ is_Some (ScheduledJob.lastRun (ScheduledJob.metadata job))
    /\ ScheduledJob.errorCount (ScheduledJob.metadata job) = 0.

(** [a] started no earlier than [b]: the order the trim sorts by. *)
Definition no_older (a b : string * JobExecution.t) : Prop :=
  JobExecution.startTime (snd b) <= JobExecution.startTime (snd a).

(** The job's [target.type] is one of the four of the schema. *)
Definition knownTarget (job : ScheduledJob.t) : bool :=
  match ScheduledJob.target_type (ScheduledJob.definition job) with
  | ScheduledJob.other_target _ => false
  | _ => true
  end.

(** The delay of line 529 after the failure of attempt [k]. *)
Definition retryDelay (rc : ScheduledJob.RetryConfig) (k : nat) : Z :=
  ScheduledJob.initialDelay rc * ScheduledJob.backoffMultiplier rc ^ Z.of_nat k.

(** What the retry loop logs for attempt [k] when it fails and another
    attempt follows: the status write, the run of the body (the [first + k]-th
    of the program) and the sleep. *)
Definition failedRound (executionId : string) (rc : ScheduledJob.RetryConfig)
  (first k : nat) : list Event :=
  [StatusWrite executionId JobExecution.running; BodyRun (first + k); Backoff (retryDelay rc k)].

(** What it logs for the attempt [k] it ends with. *)
Definition lastRound (executionId : string) (first k : nat) : list Event :=
  [StatusWrite executionId JobExecution.running; BodyRun (first + k)].

(** The log of a loop whose attempts 0 to [k - 1] failed and which ended
    with attempt [k]. *)
Definition retryTrace (executionId : string) (rc : ScheduledJob.RetryConfig)
  (first k : nat) : list Event :=
  flat_map (failedRound executionId rc first) (seq 0 k) ++ lastRound executionId first k.

(** Run [n] of the job bodies fails with [e], succeeds with [v]. *)
Definition bodyFails (w : World) (n : nat) (e : Thrown) : Prop :=
  settles (jobBody (env w) n) = inr e.

Definition bodyReturns (w : World) (n : nat) (v : Value) : Prop :=
  settles (jobBody (env w) n) = inl v.

(** The statuses written by a stretch of the log, in order. *)
Definition statusesOf (events : list Event) : list JobExecution.Status :=
  flat_map (fun ev => match ev with StatusWrite _ st => [st] | _ => [] end) events.

(** What was logged between two states of one run. *)
Definition since (w w' : World) : list Event := drop (length (log w)) (log w').

(** The events the [try] block can log while it works for the execution
    [executionId]: the status [running], runs of the body, sleeps and polls,
    and, where [cut] allows it, the cut of the queue. *)
Definition quietEvent (cut : bool) (executionId : string) (ev : Event) : Prop :=
  match ev with
  | StatusWrite i st => i = executionId /\ st = JobExecution.running
  | BodyRun _ | Backoff _ | ResourcePoll => True
  | QueueTimeout => cut = true
  | _ => False
  end.

(** The program state moved on without touching anything but the clock, the
    cursors, the breakers and the log. *)
Definition wadvances (cut : bool) (executionId : string) (w w' : World) : Prop :=
  exists events,
    log w' = log w ++ events
    /\ Forall (quietEvent cut executionId) events
    /\ now w <= now w'
    /\ jobs w' = jobs w
    /\ executions w' = executions w
    /\ config w' = config w
    /\ env w' = env w.

(** The same for the closure's state: the execution keeps its id and its
    start time. *)
Definition advances (cut : bool) (s s' : Frame) : Prop :=
  wadvances cut (JobExecution.id (fst s)) (snd s) (snd s')
  /\ JobExecution.id (fst s') = JobExecution.id (fst s)
  /\ JobExecution.startTime (fst s') = JobExecution.startTime (fst s).

Definition wsteady (cut : bool) {A : Type} (c : M World A) : Prop :=
  forall executionId w r w', c w = (r, w') -> wadvances cut executionId w w'.

Definition steady (cut : bool) {A : Type} (c : M Frame A) : Prop :=
  forall s r s', c s = (r, s') -> advances cut s s'.

(** A call that returns has written [running], unless the queue cut it. *)
Definition ranIfReturned {A : Type} (c : M Frame A) : Prop :=
  forall s v s',
    c s = (Ret v, s') ->
    In (StatusWrite (JobExecution.id (fst s)) JobExecution.running) (since (snd s) (snd s'))
    \/ In QueueTimeout (since (snd s) (snd s')).

(** When the queue cut the task, the call settles as the queue library
    decides: with its timeout error, or with [undefined]. *)
Definition cutDecides (timeout : Z) (c : M Frame Value) : Prop :=
  forall s r s',
    c s = (r, s') ->
    In QueueTimeout (since (snd s) (snd s')) ->
    r = if throwOnTimeout (env (snd s))
        then Throw (QueueTimeoutError (timeoutMessage (env (snd s)) timeout))
        else Ret undefined.

(** A call that settles whatever the state it starts in. *)
Definition settlesAlways {S A : Type} (c : M S A) : Prop :=
  forall s r s', c s = (r, s') -> r <> Hang.

(** Within the polls the model follows, a heap reading is not overloaded. *)
Definition calmWithin (w : World) : Prop :=
  exists k,
    (k <= patience (env w))%nat
    /\ ResourceMonitor.isSystemOverloaded (memoryUsage (env w) (heapReads w + k)) = false.

(** Unfolding of the state transformers in a goal. *)
Ltac unfold_monad :=
  cbv beta delta [bind ret throw hang try_catch gets modify lift setExecution
                  writeStatus Date_now elapse emit process_memoryUsage backoff]
    iota zeta.

(** [scheduleJob] past a check of the expression that [H] records. *)
Ltac cron_checked H :=
  cbn [env set_jobs set_cronTasks set_timers
       ScheduledJob.definition ScheduledJob.cronExpression];
  rewrite ?H.

(** The two outcomes of the check of [cron.schedule] in a goal. *)
Ltac cron_split :=
  cbn [env world set_jobs set_cronTasks set_timers
       ScheduledJob.definition ScheduledJob.cronExpression];
  try match goal with
      | |- context [cron_validate ?e ?x] => destruct (cron_validate e x) eqn:?
      end.

(** The parts of the program state that the retry loop, the queue and the
    resource monitor have no write to. *)
Definition fixtures (w : World) :=
  (config w, jobs w, cronTasks w, executions w, jobQueue w, circuitBreakers w,
   timers w, env w).

Definition wkeeps {A : Type} (c : M World A) : Prop :=
  forall w r w', c w = (r, w') -> fixtures w' = fixtures w.

Definition keeps {A : Type} (c : M Frame A) : Prop :=
  forall s r s', c s = (r, s') -> fixtures (snd s') = fixtures (snd s).

(** ** Concrete inputs *)

(** Messages for the libraries of the concrete inputs: the text of a
    timeout of the queue on a lane that holds the one task it cut, and the
    refusal of an expression by the cron library. *)
Definition libraryTimeoutMessage (timeout : Z) : string :=
  "Task timed out after " +:+ pretty timeout +:+ "ms (queue has 1 running, 0 waiting)".

Definition libraryScheduleRefusal (expression : string) : Thrown :=
  JsError ("invalid cron expression: " +:+ expression).

(** An operation on a bare clock that takes a millisecond and rejects. *)
Definition failingOperation (s : Z) : Outcome unit * Z :=
  (Throw (JsError "upstream down"), s + 1).

(** A heap reading at 85.2 percent. *)
Definition heapAt852 : ResourceMonitor.HeapSample :=
  {| ResourceMonitor.heapUsed := 852; ResourceMonitor.heapTotal := 1000 |}.

(** A job definition that passes [JobSchema]; it depends on a job ["feed"]. *)
Definition reportData : ScheduledJob.JobData :=
  {| ScheduledJob.id := "report";
     ScheduledJob.name := "Nightly report";
     ScheduledJob.description := "";
     ScheduledJob.cronExpression := "0 3 * * *";
     ScheduledJob.target_type := ScheduledJob.export;
     ScheduledJob.target_config := "{}";
     ScheduledJob.priority := 1;
     ScheduledJob.retryConfig :=
       {| ScheduledJob.maxRetries := 2;
          ScheduledJob.backoffMultiplier := 2;
          ScheduledJob.initialDelay := 100 |};
     ScheduledJob.dependencies := ["feed"];
     ScheduledJob.timeout := 1000;
     ScheduledJob.enabled := true |}.

(** The job it depends on, without dependencies of its own. *)
Definition feedData : ScheduledJob.JobData :=
  {| ScheduledJob.id := "feed";
     ScheduledJob.name := "Feed scraper";
     ScheduledJob.description := "";
     ScheduledJob.cronExpression := "*/5 * * * *";
     ScheduledJob.target_type := ScheduledJob.scraping;
     ScheduledJob.target_config := "{}";
     ScheduledJob.priority := 2;
     ScheduledJob.retryConfig :=
       {| ScheduledJob.maxRetries := 0;
          ScheduledJob.backoffMultiplier := 1;
          ScheduledJob.initialDelay := 100 |};
     ScheduledJob.dependencies := [];
     ScheduledJob.timeout := 1000;
     ScheduledJob.enabled := true |}.

(** A registry in which ["feed"] ran once at time 500 without error. *)
Definition registryFeedRan : gmap string ScheduledJob.t :=
  {[ "feed" :=
       {| ScheduledJob.definition := feedData;
          ScheduledJob.metadata :=
            {| ScheduledJob.createdAt := 100;
               ScheduledJob.updatedAt := 100;
               ScheduledJob.lastRun := Some 500;
               ScheduledJob.nextRun := Some 60500;
               ScheduledJob.runCount := 1;
               ScheduledJob.errorCount := 0;
               ScheduledJob.averageRunTime := 7 |} |} ]}.

(** An execution record of job ["feed"] started at [t] and completed. *)
Definition pastExecution (t : Z) : string * JobExecution.t :=
  ("feed_" +:+ pretty t,
   JobExecution.with_endTime (Some (t + 7))
     (JobExecution.with_status JobExecution.completed (newExecution "feed" t))).

(** A ledger of three executions, not in the order of their start times. *)
Definition ledgerOfThree : list (string * JobExecution.t) :=
  [pastExecution 200; pastExecution 100; pastExecution 300].

(** A configuration that keeps two executions, and below a manager made
    with it that holds the ledger of three. *)
Definition keepTwoConfig : SchedulerConfig :=
  {| maxConcurrentJobs := 5;
     jobPersistencePath := "./data/jobs";
     executionHistoryLimit := 2;
     healthCheckInterval := 30000;
     circuitBreakerThreshold := 5;
     resourceMonitoring := true |}.

(** A heap at ten percent. *)
Definition calmHeap : ResourceMonitor.HeapSample :=
  {| ResourceMonitor.heapUsed := 10; ResourceMonitor.heapTotal := 100 |}.

(** An environment with a calm heap, a cron validator that accepts, a queue
    that rejects a task cut by its timeout, and job bodies that behave as
    [body] says. *)
Definition envWith (body : nat -> Attempt) : Env :=
  {| cron_validate := fun _ => true;
     throwOnTimeout := true;
     timeoutMessage := libraryTimeoutMessage;
     scheduleRefusal := libraryScheduleRefusal;
     patience := 3;
     memoryUsage := fun _ => calmHeap;
     jobBody := body |}.

(** Bodies that fail after 7 ms, return after 7 ms, return after 5 s. *)
Definition alwaysDown (n : nat) : Attempt :=
  {| settles := inr (JsError "upstream down"); takes := 7 |}.

Definition alwaysDone (n : nat) : Attempt :=
  {| settles := inl (report "Export completed" 3); takes := 7 |}.

Definition alwaysSlow (n : nat) : Attempt :=
  {| settles := inl (report "Scraping completed" 3); takes := 5000 |}.

(** The same with a queue that resolves a task cut by its timeout with
    [undefined]. *)
Definition envResolving (body : nat -> Attempt) : Env :=
  {| cron_validate := fun _ => true;
     throwOnTimeout := false;
     timeoutMessage := libraryTimeoutMessage;
     scheduleRefusal := libraryScheduleRefusal;
     patience := 3;
     memoryUsage := fun _ => calmHeap;
     jobBody := body |}.

(** A manager made at time 1000 in which [createJob] registered one job. *)
Definition managerIn (c : SchedulerConfig) (e : Env) (d : ScheduledJob.JobData) : World :=
  snd (createJob d (newManager c e 1000)).

Definition managerWith (c : SchedulerConfig) (body : nat -> Attempt)
  (d : ScheduledJob.JobData) : World :=
  managerIn c (envWith body) d.

(** The defaults, with a breaker that opens on the first failure. *)
Definition strictConfig : SchedulerConfig :=
  {| maxConcurrentJobs := 5;
     jobPersistencePath := "./data/jobs";
     executionHistoryLimit := 1000;
     healthCheckInterval := 30000;
     circuitBreakerThreshold := 1;
     resourceMonitoring := true |}.

Definition worldLedgerOfThree : World :=
  set_executions ledgerOfThree (newManager keepTwoConfig (envWith alwaysDone) 1000).

(** ["report"] is registered, the ["feed"] it depends on is not. *)
Definition worldReportAlone : World := managerWith defaultConfig alwaysDone reportData.

(** ["feed"] is registered with a time budget of one second and a body that
    takes five. *)
Definition worldFeedSlow : World := managerWith defaultConfig alwaysSlow feedData.

(** The same with the queue that resolves with [undefined]. *)
Definition worldFeedSlowResolving : World :=
  managerIn defaultConfig (envResolving alwaysSlow) feedData.

(** ["feed"] failed once under [strictConfig]: its breaker is open. *)
Definition worldBreakerOpen : World :=
  snd (executeJob "feed" false (managerWith strictConfig alwaysDown feedData)).

(** ["report"] as [createJob] stores it at time 1000, and a state in which
    its bodies fail. *)
Definition reportJob : ScheduledJob.t :=
  {| ScheduledJob.definition := reportData;
     ScheduledJob.metadata := freshMetadata 1000 |}.

Definition worldReportDown : World := managerWith defaultConfig alwaysDown reportData.

(** A job whose first retry is to wait three million seconds, and a state
    in which [createJob] registered it and its bodies fail. *)
Definition backupData : ScheduledJob.JobData :=
  {| ScheduledJob.id := "backup";
     ScheduledJob.name := "Monthly backup";
     ScheduledJob.description := "";
     ScheduledJob.cronExpression := "0 4 1 * *";
     ScheduledJob.target_type := ScheduledJob.export;
     ScheduledJob.target_config := "{}";
     ScheduledJob.priority := 3;
     ScheduledJob.retryConfig :=
       {| ScheduledJob.maxRetries := 1;
          ScheduledJob.backoffMultiplier := 2;
          ScheduledJob.initialDelay := 3000000000 |};
     ScheduledJob.dependencies := [];
     ScheduledJob.timeout := 300000;
     ScheduledJob.enabled := true |}.

Definition worldBackupDown : World := managerWith defaultConfig alwaysDown backupData.

(** ["feed"] is registered and scheduled; a second definition under the same
    id, with another schedule. *)
Definition worldFeedScheduled : World := managerWith defaultConfig alwaysDone feedData.

Definition feedDataHourly : ScheduledJob.JobData :=
  {| ScheduledJob.id := "feed";
     ScheduledJob.name := "Feed scraper, hourly";
     ScheduledJob.description := "";
     ScheduledJob.cronExpression := "0 * * * *";
     ScheduledJob.target_type := ScheduledJob.scraping;
     ScheduledJob.target_config := "{}";
     ScheduledJob.priority := 3;
     ScheduledJob.retryConfig :=
       {| ScheduledJob.maxRetries := 1;
          ScheduledJob.backoffMultiplier := 2;
          ScheduledJob.initialDelay := 100 |};
     ScheduledJob.dependencies := [];
     ScheduledJob.timeout := 2000;
     ScheduledJob.enabled := true |}.


(** ** Vocabulary and inputs of the further properties *)


(** ["feed"] after three completed runs with an average of 40 ms. *)
Definition feedAfterThreeRuns : ScheduledJob.t :=
  {| ScheduledJob.definition := feedData;
     ScheduledJob.metadata :=
       {| ScheduledJob.createdAt := 100;
          ScheduledJob.updatedAt := 100;
          ScheduledJob.lastRun := Some 900;
          ScheduledJob.nextRun := Some 60900;
          ScheduledJob.runCount := 3;
          ScheduledJob.errorCount := 0;
          ScheduledJob.averageRunTime := 40 |} |}.


(** Every entry of [cronTasks] is the handle of a task that is started and
    fires the id it stands under. *)
Definition cron_wf (w : World) : Prop :=
  forall id h,
    cronTasks w !! id = Some h ->
    exists t, timers w !! h = Some t /\ started t = true /\ fires t = id.


(** A call on the manager from outside, the cron timer reaching a task, or
    time going by. *)
Inductive Call : Type :=
| CallCreateJob (jobData : ScheduledJob.JobData)
| CallUpdateJob (jobId : string) (updates : JobUpdates)
| CallDeleteJob (jobId : string)
| CallExecuteJob (jobId : string) (manual : bool)
| CronFires (h : nat)
| TimePasses (ms : Z).

(** The state a call leaves, however it settles; a call the model stops
    following is left where it stands. *)
Definition perform (call : Call) (m : Manager) : Manager :=
  match call with
  | CallCreateJob jobData => snd (inWorld (createJob jobData) m)
  | CallUpdateJob jobId updates => snd (updateJob jobId updates m)
  | CallDeleteJob jobId => snd (deleteJob jobId m)
  | CallExecuteJob jobId manual => snd (inWorld (executeJob jobId manual) m)
  | CronFires h => snd (fireTask h m)
  | TimePasses ms => snd (inWorld (elapse ms) m)
  end.

(** Calls made one after the other, each awaited before the next. *)
Definition performAll (calls : list Call) (m : Manager) : Manager :=
  foldl (fun m call => perform call m) m calls.


(** Updates that leave every key as it is, and updates that set the priority
    to 9, which no lane serves. *)
Definition noUpdates : JobUpdates :=
  {| u_id := None; u_name := None; u_description := None; u_cronExpression := None;
     u_target := None; u_priority := None; u_retryConfig := None;
     u_dependencies := None; u_timeout := None; u_enabled := None |}.

Definition priorityNine : JobUpdates :=
  {| u_id := None; u_name := None; u_description := None; u_cronExpression := None;
     u_target := None; u_priority := Some 9; u_retryConfig := None;
     u_dependencies := None; u_timeout := None; u_enabled := None |}.

(** The manager in which ["feed"] is registered and scheduled. *)
Definition managerFeedScheduled : Manager := startManager worldFeedScheduled.


(** A cron library that refuses the expression ["at dawn"], the manager in
    which ["feed"] is registered and scheduled under it, and updates that
    set that expression. *)
Definition envStrictCron : Env :=
  {| cron_validate := fun expression => negb (String.eqb expression "at dawn");
     throwOnTimeout := true;
     timeoutMessage := libraryTimeoutMessage;
     scheduleRefusal := libraryScheduleRefusal;
     patience := 3;
     memoryUsage := fun _ => calmHeap;
     jobBody := alwaysDone |}.

Definition managerFeedStrict : Manager :=
  startManager (managerIn defaultConfig envStrictCron feedData).

Definition cronAtDawn : JobUpdates :=
  {| u_id := None; u_name := None; u_description := None;
     u_cronExpression := Some "at dawn";
     u_target := None; u_priority := None; u_retryConfig := None;
     u_dependencies := None; u_timeout := None; u_enabled := None |}.

(** Updates that give the job the id ["feed2"]. *)
Definition renameToFeed2 : JobUpdates :=
  {| u_id := Some "feed2"; u_name := None; u_description := None; u_cronExpression := None;
     u_target := None; u_priority := None; u_retryConfig := None;
     u_dependencies := None; u_timeout := None; u_enabled := None |}.

(** The manager after a second [createJob] for ["feed"]: the task with
    handle 0, installed by the first, runs beside the task with handle 1. *)
Definition managerFeedTwice : Manager :=
  startManager (snd (createJob feedDataHourly worldFeedScheduled)).


(** The sum of [f i] for [i] from [first] to [first + n - 1]. *)
Definition total (f : nat -> Z) (first n : nat) : Z :=
  foldr (fun i acc => f i + acc) 0 (seq first n).

(** The time run [n] of the job bodies takes on the clock. *)
Definition attemptTime (w : World) (n : nat) : Z := Z.max 0 (takes (jobBody (env w) n)).

(** The time the sleep after the failure of attempt [k] takes on the clock:
    what the timer makes of the delay of line 529. *)
Definition sleepTime (rc : ScheduledJob.RetryConfig) (k : nat) : Z :=
  timerDelay (retryDelay rc k).


(** The state after [j] polls that found the system overloaded and one that
    did not: [j + 1] heap readings, [j] waits of two seconds. *)
Definition afterPolls (j : nat) (w : World) : World :=
  set_log (log w ++ repeat ResourcePoll j)
    (set_now (now w + 2000 * Z.of_nat j)
       (set_heapReads (heapReads w + j + 1) w)).

(** A heap at 95 percent, and an environment whose first two readings are
    that heap and whose later readings are calm. *)
Definition fullHeap : ResourceMonitor.HeapSample :=
  {| ResourceMonitor.heapUsed := 95; ResourceMonitor.heapTotal := 100 |}.

Definition envBusyTwice : Env :=
  {| cron_validate := fun _ => true;
     throwOnTimeout := true;
     timeoutMessage := libraryTimeoutMessage;
     scheduleRefusal := libraryScheduleRefusal;
     patience := 3;
     memoryUsage := fun n => if (n <? 2)%nat then fullHeap else calmHeap;
     jobBody := alwaysDone |}.


(** ["feed"] as registered, with a target of a kind the switch of
    [executeJobLogic] does not know and two retries. *)
Definition feedUnknownKind : ScheduledJob.t :=
  {| ScheduledJob.definition :=
       {| ScheduledJob.id := "feed";
          ScheduledJob.name := "Feed scraper";
          ScheduledJob.description := "";
          ScheduledJob.cronExpression := "*/5 * * * *";
          ScheduledJob.target_type := ScheduledJob.other_target "archive";
          ScheduledJob.target_config := "{}";
          ScheduledJob.priority := 2;
          ScheduledJob.retryConfig :=
            {| ScheduledJob.maxRetries := 2;
               ScheduledJob.backoffMultiplier := 2;
               ScheduledJob.initialDelay := 100 |};
          ScheduledJob.dependencies := [];
          ScheduledJob.timeout := 1000;
          ScheduledJob.enabled := true |};
     ScheduledJob.metadata := freshMetadata 1000 |}.


(** The job under [id], if there is one, has failed at least once. *)
Definition spoiled (id : string) (jobs : gmap string ScheduledJob.t) : Prop :=
  match jobs !! id with
  | Some job => 0 < ScheduledJob.errorCount (ScheduledJob.metadata job)
  | None => True
  end.

(** A call that is not a [createJob] for the id [id]. *)
Definition notRecreating (id : string) (call : Call) : Prop :=
  match call with
  | CallCreateJob jobData => ScheduledJob.id jobData <> id
  | _ => True
  end.

(** * Properties *)

(** ** The circuit breaker *)

Section CircuitBreakerFacts.
Context {S A : Type} (clock : S -> Z).

#[local] Abbreviation reachable := (@CircuitBreaker.reachable S A clock).

Lemma enter_closed now cb :
  CircuitBreaker.state cb = CircuitBreaker.closed ->
  CircuitBreaker.enter now cb = Some cb.
Proof. unfold CircuitBreaker.enter. intros ->. reflexivity. Qed.

Lemma enter_open_cooling now cb :
  CircuitBreaker.state cb = CircuitBreaker.open ->
  now - CircuitBreaker.lastFailureTime cb <= CircuitBreaker.timeout cb ->
  CircuitBreaker.enter now cb = None.
Proof.
  unfold CircuitBreaker.enter. intros -> Hle.
  destruct (Z.ltb_spec (CircuitBreaker.timeout cb) (now - CircuitBreaker.lastFailureTime cb));
    [lia | reflexivity].
Qed.

Lemma enter_open_elapsed now cb :
  CircuitBreaker.state cb = CircuitBreaker.open ->
  CircuitBreaker.timeout cb < now - CircuitBreaker.lastFailureTime cb ->
  CircuitBreaker.enter now cb = Some (CircuitBreaker.set_state CircuitBreaker.half_open cb).
Proof.
  unfold CircuitBreaker.enter. intros -> Hlt.
  destruct (Z.ltb_spec (CircuitBreaker.timeout cb) (now - CircuitBreaker.lastFailureTime cb));
    [reflexivity | lia].
Qed.

(** [enter] never touches the counters. *)
Lemma enter_fields now cb cb1 :
  CircuitBreaker.enter now cb = Some cb1 ->
  CircuitBreaker.threshold cb1 = CircuitBreaker.threshold cb
  /\ CircuitBreaker.timeout cb1 = CircuitBreaker.timeout cb
  /\ CircuitBreaker.failureCount cb1 = CircuitBreaker.failureCount cb
  /\ (CircuitBreaker.state cb1 = CircuitBreaker.closed <->
      CircuitBreaker.state cb = CircuitBreaker.closed).
Proof.
  unfold CircuitBreaker.enter.
  destruct (CircuitBreaker.state cb) eqn:Hst.
  - intros [= <-]. rewrite Hst. tauto.
  - destruct (_ <? _); intros [= <-]; simpl. repeat split; congruence.
  - intros [= <-]. rewrite Hst. tauto.
Qed.

(** What holds of every breaker a program holds: its parameters are the ones
    it was made with, and it is away from [closed] only with the threshold
    reached. *)
Lemma reachable_invariant N T cb :
  reachable N T cb ->
  CircuitBreaker.threshold cb = N
  /\ CircuitBreaker.timeout cb = T
  /\ (CircuitBreaker.state cb <> CircuitBreaker.closed -> N <= CircuitBreaker.failureCount cb).
Proof.
  induction 1 as [|cb op s Hr (Hthr & Hto & Hopen)].
  - simpl. repeat split; congruence.
  - unfold CircuitBreaker.execute, CircuitBreaker.breaker_after.
    destruct (CircuitBreaker.enter (clock s) cb) as [cb1|] eqn:Hen; simpl; [|tauto].
    destruct (enter_fields _ _ _ Hen) as (E1 & E2 & E3 & E4).
    destruct (op s) as [[v|e|] s']; simpl.
    + rewrite E1, E2. repeat split; congruence.
    + rewrite E1, E2, E3, Hthr. repeat split; try congruence.
      destruct (Z.leb_spec N (CircuitBreaker.failureCount cb + 1)); [lia|].
      intros Hne. assert (CircuitBreaker.state cb <> CircuitBreaker.closed) by tauto.
      specialize (Hopen ltac:(assumption)). lia.
    + rewrite E1, E2, E3. repeat split; try congruence.
      intros Hne. apply Hopen. tauto.
Qed.

(** Failures in a row on a closed breaker that has room for them. *)
Lemma failures_in_a_row (ops : list (S -> Outcome A * S)) :
  forall cb s,
    Forall CircuitBreaker.always_fails ops ->
    CircuitBreaker.state cb = CircuitBreaker.closed ->
    CircuitBreaker.failureCount cb + Z.of_nat (length ops) <= CircuitBreaker.threshold cb ->
    let r := CircuitBreaker.execute_all clock ops cb s in
    CircuitBreaker.threshold (fst r) = CircuitBreaker.threshold cb
    /\ CircuitBreaker.failureCount (fst r)
       = CircuitBreaker.failureCount cb + Z.of_nat (length ops)
    /\ snd r = foldl (fun s op => snd (op s)) s ops
    /\ CircuitBreaker.state (fst r)
       = (if CircuitBreaker.failureCount cb + Z.of_nat (length ops)
             <? CircuitBreaker.threshold cb
          then CircuitBreaker.closed
          else if 0 <? Z.of_nat (length ops)
               then CircuitBreaker.open else CircuitBreaker.closed).
Proof.
  induction ops as [|op ops IH]; intros cb s Hall Hst Hroom.
  - simpl in *. rewrite Z.add_0_r. repeat split; try reflexivity.
    destruct (_ <? _); [|simpl]; congruence.
  - apply Forall_cons in Hall as [Hop Hall].
    destruct (Hop s) as (e & s' & Hrun).
    assert (Hex : CircuitBreaker.execute clock op cb s
                  = (Throw e, CircuitBreaker.onFailure (clock s') cb, s')).
    { unfold CircuitBreaker.execute. rewrite (enter_closed _ _ Hst), Hrun. reflexivity. }
    cbn [CircuitBreaker.execute_all length foldl]. rewrite Hex, Hrun.
    unfold CircuitBreaker.breaker_after, CircuitBreaker.state_after.
    cbn [fst snd].
    set (cb' := CircuitBreaker.onFailure (clock s') cb).
    assert (Hthr : CircuitBreaker.threshold cb' = CircuitBreaker.threshold cb) by reflexivity.
    assert (Hcnt : CircuitBreaker.failureCount cb' = CircuitBreaker.failureCount cb + 1)
      by reflexivity.
    cbn [length] in Hroom. rewrite Nat2Z.inj_succ in Hroom |- *.
    destruct ops as [|op2 ops].
    + cbn [CircuitBreaker.execute_all fst snd length foldl] in *.
      rewrite Hcnt. split; [exact Hthr|]. split; [lia|]. split; [reflexivity|].
      subst cb'. cbn [CircuitBreaker.onFailure CircuitBreaker.state].
      rewrite Hst.
      destruct (Z.leb_spec (CircuitBreaker.threshold cb) (CircuitBreaker.failureCount cb + 1));
        destruct (Z.ltb_spec (CircuitBreaker.failureCount cb + Z.succ (Z.of_nat 0))
                    (CircuitBreaker.threshold cb)); try lia; reflexivity.
    + assert (Hst' : CircuitBreaker.state cb' = CircuitBreaker.closed).
      { subst cb'. cbn [CircuitBreaker.onFailure CircuitBreaker.state].
        cbn [length] in Hroom. rewrite Nat2Z.inj_succ in Hroom.
        destruct (Z.leb_spec (CircuitBreaker.threshold cb) (CircuitBreaker.failureCount cb + 1));
          [lia | exact Hst]. }
      specialize (IH cb' s' Hall Hst' ltac:(rewrite Hthr, Hcnt; lia)).
      cbv zeta in IH. destruct IH as (I1 & I2 & I3 & I4).
      rewrite I1, I2, I3, I4, Hthr, Hcnt.
      repeat split; try lia.
      cbn [length]. rewrite !Nat2Z.inj_succ.
      repeat match goal with |- context [?a <? ?b] => destruct (Z.ltb_spec a b) end;
        try lia; reflexivity.
Qed.

(** C1. The breaker of a job is a three-state machine.  Made by [new N T] it
    is closed with no failure counted; every call that reaches the operation
    and fails adds one to [failureCount] and records the time of the failure,
    and every call whose operation succeeds closes the breaker with the count
    at zero; [N] failures in a row, all reaching the operation, leave open a
    fresh breaker, and any breaker of the program that is closed with no
    failure counted, and fewer leave it closed; an open breaker rejects a
    call made no more than [T] milliseconds after the last failure without
    running the operation or changing anything; a call made later puts the
    breaker in the state [half-open], with its counters as they were, and
    runs the operation as the trial: its success closes the breaker with the
    count at zero, its failure opens it again with the time of that failure,
    and as long as it is pending the breaker stays half-open. *)
Theorem circuit_breaker_machine (N T : Z) (HN : 1 <= N) :
  (CircuitBreaker.state (CircuitBreaker.new N T) = CircuitBreaker.closed
   /\ CircuitBreaker.failureCount (CircuitBreaker.new N T) = 0
   /\ CircuitBreaker.getState (CircuitBreaker.new N T) = "closed")
  /\ (forall cb cb1 (op : S -> Outcome A * S) s e s',
        CircuitBreaker.enter (clock s) cb = Some cb1 ->
        op s = (Throw e, s') ->
        exists cb',
          CircuitBreaker.execute clock op cb s = (Throw e, cb', s')
          /\ CircuitBreaker.failureCount cb' = CircuitBreaker.failureCount cb + 1
          /\ CircuitBreaker.lastFailureTime cb' = clock s')
  /\ (forall (ops : list (S -> Outcome A * S)) s,
        Forall CircuitBreaker.always_fails ops ->
        Z.of_nat (length ops) <= N ->
        let r := CircuitBreaker.execute_all clock ops (CircuitBreaker.new N T) s in
        snd r = foldl (fun s op => snd (op s)) s ops
        /\ CircuitBreaker.failureCount (fst r) = Z.of_nat (length ops)
        /\ (Z.of_nat (length ops) < N -> CircuitBreaker.state (fst r) = CircuitBreaker.closed)
        /\ (Z.of_nat (length ops) = N -> CircuitBreaker.state (fst r) = CircuitBreaker.open))
  /\ (forall cb (op : S -> Outcome A * S) s,
        reachable N T cb ->
        CircuitBreaker.state cb = CircuitBreaker.open ->
        clock s - CircuitBreaker.lastFailureTime cb <= T ->
        CircuitBreaker.execute clock op cb s = (Throw CircuitBreaker.rejection, cb, s))
  /\ (forall cb (op : S -> Outcome A * S) s,
        reachable N T cb ->
        CircuitBreaker.state cb = CircuitBreaker.open ->
        T < clock s - CircuitBreaker.lastFailureTime cb ->
        CircuitBreaker.enter (clock s) cb
        = Some (CircuitBreaker.set_state CircuitBreaker.half_open cb)
        /\ (forall v s', op s = (Ret v, s') ->
              exists cb',
                CircuitBreaker.execute clock op cb s = (Ret v, cb', s')
                /\ CircuitBreaker.state cb' = CircuitBreaker.closed
                /\ CircuitBreaker.failureCount cb' = 0)
        /\ (forall e s', op s = (Throw e, s') ->
              exists cb',
                CircuitBreaker.execute clock op cb s = (Throw e, cb', s')
                /\ CircuitBreaker.state cb' = CircuitBreaker.open
                /\ CircuitBreaker.lastFailureTime cb' = clock s'))
  /\ (forall cb (op : S -> Outcome A * S) s,
        reachable N T cb ->
        CircuitBreaker.state cb = CircuitBreaker.open ->
        T < clock s - CircuitBreaker.lastFailureTime cb ->
        exists cb1,
          CircuitBreaker.enter (clock s) cb = Some cb1
          /\ CircuitBreaker.state cb1 = CircuitBreaker.half_open
          /\ CircuitBreaker.getState cb1 = "half-open"
          /\ CircuitBreaker.failureCount cb1 = CircuitBreaker.failureCount cb
          /\ CircuitBreaker.lastFailureTime cb1 = CircuitBreaker.lastFailureTime cb
          /\ (forall s', op s = (Hang, s') ->
                CircuitBreaker.execute clock op cb s = (Hang, cb1, s'))
          /\ (forall e s', op s = (Throw e, s') ->
                CircuitBreaker.getState
                  (CircuitBreaker.breaker_after (CircuitBreaker.execute clock op cb s))
                = "open")
          /\ (forall v s', op s = (Ret v, s') ->
                CircuitBreaker.getState
                  (CircuitBreaker.breaker_after (CircuitBreaker.execute clock op cb s))
                = "closed"))
  /\ (forall cb cb1 (op : S -> Outcome A * S) s v s',
        CircuitBreaker.enter (clock s) cb = Some cb1 ->
        op s = (Ret v, s') ->
        exists cb',
          CircuitBreaker.execute clock op cb s = (Ret v, cb', s')
          /\ CircuitBreaker.state cb' = CircuitBreaker.closed
          /\ CircuitBreaker.failureCount cb' = 0)
  /\ (forall cb (ops : list (S -> Outcome A * S)) s,
        reachable N T cb ->
        CircuitBreaker.state cb = CircuitBreaker.closed ->
        CircuitBreaker.failureCount cb = 0 ->
        Forall CircuitBreaker.always_fails ops ->
        Z.of_nat (length ops) <= N ->
        let r := CircuitBreaker.execute_all clock ops cb s in
        CircuitBreaker.failureCount (fst r) = Z.of_nat (length ops)
        /\ (Z.of_nat (length ops) < N -> CircuitBreaker.state (fst r) = CircuitBreaker.closed)
        /\ (Z.of_nat (length ops) = N -> CircuitBreaker.state (fst r) = CircuitBreaker.open)).
Proof.
  split; [repeat split; reflexivity|].
  split.
  { intros cb cb1 op s e s' Hen Hrun.
    destruct (enter_fields _ _ _ Hen) as (_ & _ & E3 & _).
    exists (CircuitBreaker.onFailure (clock s') cb1).
    unfold CircuitBreaker.execute. rewrite Hen, Hrun.
    repeat split. simpl. congruence. }
  split.
  { intros ops s Hall Hlen.
    pose proof (failures_in_a_row ops (CircuitBreaker.new N T) s Hall eq_refl) as H.
    cbn [CircuitBreaker.new CircuitBreaker.failureCount CircuitBreaker.threshold] in H.
    specialize (H ltac:(lia)). cbv zeta in *.
    destruct H as (_ & H2 & H3 & H4).
    rewrite H2, H3, H4. repeat split; try lia.
    - intros Hlt. destruct (Z.ltb_spec (0 + Z.of_nat (length ops)) N); [reflexivity | lia].
    - intros Heq. destruct (Z.ltb_spec (0 + Z.of_nat (length ops)) N); [lia|].
      destruct (Z.ltb_spec 0 (Z.of_nat (length ops))); [reflexivity | lia]. }
  split.
  { intros cb op s Hr Hst Hcool.
    destruct (reachable_invariant _ _ _ Hr) as (_ & Hto & _).
    unfold CircuitBreaker.execute.
    rewrite (enter_open_cooling _ _ Hst); [reflexivity | lia]. }
  assert (Htrial : forall cb (op : S -> Outcome A * S) s,
            reachable N T cb ->
            CircuitBreaker.state cb = CircuitBreaker.open ->
            T < clock s - CircuitBreaker.lastFailureTime cb ->
            CircuitBreaker.enter (clock s) cb
            = Some (CircuitBreaker.set_state CircuitBreaker.half_open cb)
            /\ CircuitBreaker.threshold cb <= CircuitBreaker.failureCount cb + 1).
  { intros cb op s Hr Hst Hlate.
    destruct (reachable_invariant _ _ _ Hr) as (Hthr & Hto & Hcnt).
    split; [apply enter_open_elapsed; [assumption | lia]|].
    specialize (Hcnt ltac:(congruence)). lia. }
  split.
  { intros cb op s Hr Hst Hlate.
    destruct (Htrial cb op s Hr Hst Hlate) as [Hen Hfull].
    split; [exact Hen|]. split.
    - intros v s' Hrun. eexists. unfold CircuitBreaker.execute.
      rewrite Hen, Hrun. repeat split.
    - intros e s' Hrun. eexists. unfold CircuitBreaker.execute.
      rewrite Hen, Hrun. repeat split. cbn.
      destruct (Z.leb_spec (CircuitBreaker.threshold cb) (CircuitBreaker.failureCount cb + 1));
        [reflexivity | lia]. }
  split.
  { intros cb op s Hr Hst Hlate.
    destruct (Htrial cb op s Hr Hst Hlate) as [Hen Hfull].
    exists (CircuitBreaker.set_state CircuitBreaker.half_open cb).
    split; [exact Hen|]. split; [reflexivity|]. split; [reflexivity|].
    split; [reflexivity|]. split; [reflexivity|].
    unfold CircuitBreaker.execute, CircuitBreaker.breaker_after. rewrite Hen.
    split; [intros s' ->; reflexivity|]. split.
    - intros e s' ->. unfold CircuitBreaker.getState. cbn.
      destruct (Z.leb_spec (CircuitBreaker.threshold cb) (CircuitBreaker.failureCount cb + 1));
        [reflexivity | lia].
    - intros v s' ->. reflexivity. }
  split.
  { intros cb cb1 op s v s' Hen Hrun. eexists. unfold CircuitBreaker.execute.
    rewrite Hen, Hrun. repeat split. }
  intros cb ops s Hr Hst Hzero Hall Hlen.
  destruct (reachable_invariant _ _ _ Hr) as (Hthr & _).
  pose proof (failures_in_a_row ops cb s Hall Hst) as H.
  rewrite Hthr, Hzero in H. specialize (H ltac:(lia)). cbv zeta in *.
  destruct H as (_ & H2 & _ & H4).
  rewrite H2, H4. repeat split; try lia.
  - intros Hlt. destruct (Z.ltb_spec (0 + Z.of_nat (length ops)) N); [reflexivity | lia].
  - intros Heq. destruct (Z.ltb_spec (0 + Z.of_nat (length ops)) N); [lia|].
    destruct (Z.ltb_spec 0 (Z.of_nat (length ops))); [reflexivity | lia].
Qed.

End CircuitBreakerFacts.

(** The theorem at the default threshold: five failures in a row open a
    fresh breaker. *)
Lemma circuit_breaker_machine_witness :
  1 <= 5
  /\ CircuitBreaker.state
       (fst (CircuitBreaker.execute_all (fun s : Z => s) (repeat failingOperation 5)
               (CircuitBreaker.new 5 CircuitBreaker.default_timeout) 0))
     = CircuitBreaker.open.
Proof.
  split; [lia|].
  destruct (circuit_breaker_machine (A := unit) (fun s : Z => s) 5
              CircuitBreaker.default_timeout ltac:(lia))
    as (_ & _ & Hrow & _).
  apply (Hrow (repeat failingOperation 5) 0).
  - repeat constructor; intros s; eexists _, _; reflexivity.
  - simpl. lia.
  - reflexivity.
Defined.

(** ** The priority lanes *)

Lemma lanes_lookup (C p : Z) :
  PriorityJobQueue.new C !! p
  = if decide (1 <= p <= 5) then Some (PriorityJobQueue.lane C p) else None.
Proof.
  change (PriorityJobQueue.new C)
    with (<[5 := PriorityJobQueue.lane C 5]>
            (<[4 := PriorityJobQueue.lane C 4]>
               (<[3 := PriorityJobQueue.lane C 3]>
                  (<[2 := PriorityJobQueue.lane C 2]>
                     (<[1 := PriorityJobQueue.lane C 1]> (∅ : gmap Z PQueue.t)))))).
  destruct (decide (p = 5)) as [->|]; [rewrite lookup_insert_eq; reflexivity|].
  rewrite lookup_insert_ne by congruence.
  destruct (decide (p = 4)) as [->|]; [rewrite lookup_insert_eq; reflexivity|].
  rewrite lookup_insert_ne by congruence.
  destruct (decide (p = 3)) as [->|]; [rewrite lookup_insert_eq; reflexivity|].
  rewrite lookup_insert_ne by congruence.
  destruct (decide (p = 2)) as [->|]; [rewrite lookup_insert_eq; reflexivity|].
  rewrite lookup_insert_ne by congruence.
  destruct (decide (p = 1)) as [->|]; [rewrite lookup_insert_eq; reflexivity|].
  rewrite lookup_insert_ne by congruence.
  rewrite lookup_empty. destruct (decide (1 <= p <= 5)); [lia | reflexivity].
Qed.

Lemma lane_budget_antitone (C p1 p2 : Z) :
  1 <= p1 -> p1 <= p2 ->
  PQueue.concurrency (PriorityJobQueue.lane C p2)
  <= PQueue.concurrency (PriorityJobQueue.lane C p1).
Proof.
  intros H1 H12. cbn.
  destruct (Z.le_gt_cases 0 C) as [Hpos|Hneg].
  - pose proof (Z.div_le_compat_l C p1 p2 Hpos ltac:(lia)). lia.
  - assert (C / p2 < 0) by (apply Z.div_lt_upper_bound; lia).
    assert (C / p1 < 0) by (apply Z.div_lt_upper_bound; lia).
    lia.
Qed.

(** C7. Whatever the total budget [C] (in particular for [C >= 1]), the
    constructor makes exactly the lanes 1 to 5, lane [i] with the concurrency
    [max(1, floor(C / i))], at most 10 admissions per interval of 1000
    milliseconds; of two lanes the one with the smaller priority number has
    at least the budget of the other, and no budget is below 1. *)
Theorem lane_budgets (C : Z) :
  (forall i, 1 <= i <= 5 ->
     PriorityJobQueue.new C !! i
     = Some {| PQueue.concurrency := Z.max 1 (C / i);
               PQueue.intervalCap := 10;
               PQueue.interval := 1000 |})
  /\ (forall p1 p2 q1 q2,
        p1 < p2 ->
        PriorityJobQueue.new C !! p1 = Some q1 ->
        PriorityJobQueue.new C !! p2 = Some q2 ->
        PQueue.concurrency q2 <= PQueue.concurrency q1)
  /\ (forall p q,
        PriorityJobQueue.new C !! p = Some q ->
        1 <= p <= 5
        /\ 1 <= PQueue.concurrency q
        /\ PQueue.intervalCap q = 10
        /\ PQueue.interval q = 1000).
Proof.
  split; [|split].
  - intros i Hi. rewrite lanes_lookup. destruct (decide (1 <= i <= 5)); [reflexivity | lia].
  - intros p1 p2 q1 q2 Hlt. rewrite !lanes_lookup.
    destruct (decide (1 <= p1 <= 5)); [|discriminate].
    destruct (decide (1 <= p2 <= 5)); [|discriminate].
    intros [= <-] [= <-]. apply lane_budget_antitone; lia.
  - intros p q. rewrite lanes_lookup.
    destruct (decide (1 <= p <= 5)); [|discriminate].
    intros [= <-]. cbn. repeat split; lia.
Qed.

(** ** The resource monitor *)

Lemma memoryPercent_above_85 (m : ResourceMonitor.HeapSample) :
  0 < ResourceMonitor.heapTotal m ->
  (85 < ResourceMonitor.memoryPercent m
   <-> 171 * ResourceMonitor.heapTotal m <= 200 * ResourceMonitor.heapUsed m).
Proof.
  intros Ht. unfold ResourceMonitor.memoryPercent, round_div.
  set (u := ResourceMonitor.heapUsed m) in *.
  set (t := ResourceMonitor.heapTotal m) in *.
  split; intros H.
  - assert (86 <= (2 * (100 * u) + t) / (2 * t)) by lia.
    destruct (Z.le_gt_cases (171 * t) (200 * u)); [assumption|].
    assert ((2 * (100 * u) + t) / (2 * t) < 86)
      by (apply Z.div_lt_upper_bound; lia).
    lia.
  - assert (86 <= (2 * (100 * u) + t) / (2 * t))
      by (apply Z.div_le_lower_bound; lia).
    lia.
Qed.

(** C9, as the code has it.  The reading returned at once carries a CPU figure
    of exactly 0, so the test on it never fires, and [isSystemOverloaded] is
    the test on the memory figure alone.  That figure is the heap ratio in
    percent rounded to the nearest integer: the answer is [true] exactly when
    the rounded percentage exceeds 85, that is when the ratio is at least
    85.5 percent. *)
Theorem overload_is_rounded_memory_test (m : ResourceMonitor.HeapSample) :
  ResourceMonitor.cpu (fst (ResourceMonitor.getCurrentUsage m)) = 0%Q
  /\ ResourceMonitor.Qgtb (ResourceMonitor.cpu (fst (ResourceMonitor.getCurrentUsage m))) 90
     = false
  /\ ResourceMonitor.isSystemOverloaded m
     = (85 <? ResourceMonitor.memoryPercent m)
  /\ (0 < ResourceMonitor.heapTotal m ->
      (ResourceMonitor.isSystemOverloaded m = true
       <-> 171 * ResourceMonitor.heapTotal m <= 200 * ResourceMonitor.heapUsed m)).
Proof.
  assert (Hq : ResourceMonitor.isSystemOverloaded m = (85 <? ResourceMonitor.memoryPercent m)).
  { unfold ResourceMonitor.isSystemOverloaded. cbn. apply orb_false_r. }
  split; [reflexivity|]. split; [reflexivity|]. split; [exact Hq|].
  intros Htotal. rewrite Hq, Z.ltb_lt. apply memoryPercent_above_85; assumption.
Qed.

(** C9 as stated fails.  With 852 of 1000 bytes in use the heap ratio, 85.2
    percent, exceeds 85 percent, and the monitor does not report overload. *)
Lemma overload_misses_ratio_above_85 :
  85 * ResourceMonitor.heapTotal heapAt852 < 100 * ResourceMonitor.heapUsed heapAt852
  /\ ResourceMonitor.memoryPercent heapAt852 = 85
  /\ ResourceMonitor.isSystemOverloaded heapAt852 = false.
Proof. repeat split. Qed.

(** ** The dependency gate *)

Lemma truthy_is_Some (t : option Z) : t <> Some 0 -> (truthy t = true <-> is_Some t).
Proof.
  intros Hnz. destruct t as [v|]; simpl.
  - split; [eauto|]. intros _. apply negb_true_iff, Z.eqb_neq. congruence.
  - split; [discriminate|]. intros [v Hv]. discriminate.
Qed.

Lemma dependenciesReady_Forall (jobs : gmap string ScheduledJob.t) (deps : list string) :
  registry_wf jobs ->
  (dependenciesReady jobs deps = true <-> Forall (dependency_ready jobs) deps).
Proof.
  intros Hwf. induction deps as [|d deps IH]; simpl.
  - split; [constructor | reflexivity].
  - rewrite Forall_cons, <- IH. unfold dependency_ready.
    destruct (jobs !! d) as [job|] eqn:Hd.
    + destruct (Hwf d job Hd) as [Hcount Hrun].
      pose proof (truthy_is_Some _ Hrun) as Htr.
      destruct (truthy (ScheduledJob.lastRun (ScheduledJob.metadata job))) eqn:Ht;
        destruct (Z.ltb_spec 0 (ScheduledJob.errorCount (ScheduledJob.metadata job)));
        simpl; split; try discriminate.
      * intros [(job' & [= <-] & _ & Hzero) _]. lia.
      * intros Hrest. split; [|assumption].
        exists job. repeat split; [tauto | lia].
      * intros [_ Hrest]. assumption.
      * intros [(job' & [= <-] & Hsome & _) _].
        apply Htr in Hsome. discriminate.
      * intros [(job' & [= <-] & Hsome & _) _].
        apply Htr in Hsome. discriminate.
    + split; [discriminate|]. intros [(job & Hjob & _) _]. discriminate.
Qed.

(** C5. On a registry that satisfies its invariant the gate answers ready for
    a dependency list exactly when every listed id is registered, has its
    [lastRun] set and has an [errorCount] of zero; for the empty list it
    answers ready whatever the registry. *)
Theorem dependency_gate (jobs : gmap string ScheduledJob.t) (deps : list string)
  (Hwf : registry_wf jobs) :
  (checkDependencies jobs deps = true <-> Forall (dependency_ready jobs) deps)
  /\ (forall anyJobs, checkDependencies anyJobs [] = true).
Proof.
  split; [|reflexivity].
  unfold checkDependencies. destruct deps as [|d deps].
  - simpl. split; [constructor | reflexivity].
  - cbn [length]. rewrite Nat2Z.inj_succ.
    destruct (Z.eqb_spec (Z.succ (Z.of_nat (length deps))) 0); [lia|].
    apply dependenciesReady_Forall; assumption.
Qed.

(** The gate on a registry where the one dependency ran cleanly. *)
Lemma dependency_gate_witness :
  registry_wf registryFeedRan
  /\ checkDependencies registryFeedRan ["feed"] = true.
Proof.
  assert (Hwf : registry_wf registryFeedRan).
  { intros id job Hjob. unfold registryFeedRan in Hjob.
    apply lookup_singleton_Some in Hjob as [_ <-]. simpl. split; [lia | discriminate]. }
  split; [exact Hwf|].
  apply (proj1 (dependency_gate registryFeedRan ["feed"] Hwf)).
  constructor; [|constructor].
  eexists. split; [apply lookup_singleton_eq|].
  simpl. split; [eexists; reflexivity | reflexivity].
Defined.

(** ** The execution ledger *)

Lemma insert_recent_perm x l : insert_recent x l ≡ₚ x :: l.
Proof.
  induction l as [|y l IH]; simpl; [reflexivity|].
  destruct (_ <? _); [|reflexivity].
  rewrite IH. apply Permutation_swap.
Qed.

Lemma sort_recent_first_perm l : sort_recent_first l ≡ₚ l.
Proof.
  induction l as [|x l IH]; simpl; [reflexivity|].
  rewrite insert_recent_perm. constructor. exact IH.
Qed.

Lemma insert_recent_sorted x l :
  StronglySorted no_older l -> StronglySorted no_older (insert_recent x l).
Proof.
  induction l as [|y l IH]; simpl; intros Hs.
  - repeat constructor.
  - apply StronglySorted_inv in Hs as [Hl Hy].
    destruct (Z.ltb_spec (JobExecution.startTime (snd x)) (JobExecution.startTime (snd y))).
    + constructor; [auto|].
      rewrite insert_recent_perm. constructor; [unfold no_older; lia | assumption].
    + constructor; [constructor; assumption|].
      constructor; [unfold no_older; lia|].
      eapply Forall_impl; [exact Hy|]. unfold no_older. intros z Hz. simpl in *. lia.
Qed.

Lemma sort_recent_first_sorted l : StronglySorted no_older (sort_recent_first l).
Proof.
  induction l as [|x l IH]; simpl; [constructor | apply insert_recent_sorted, IH].
Qed.

Lemma ledger_set_fresh id e (m : list (string * JobExecution.t)) :
  id ∉ m.*1 -> ledger_set id e m = m ++ [(id, e)].
Proof.
  induction m as [|[k v] m IH]; simpl; intros Hfresh; [reflexivity|].
  rewrite not_elem_of_cons in Hfresh. destruct Hfresh as [Hne Hfresh].
  destruct (decide (k = id)); [congruence|]. rewrite IH by assumption. reflexivity.
Qed.

(** Setting the entries of a list with distinct keys one after the other
    rebuilds that list. *)
Lemma foldl_ledger_set (l : list (string * JobExecution.t)) :
  forall acc,
    NoDup ((acc ++ l).*1) ->
    foldl (fun m entry => ledger_set (fst entry) (snd entry) m) acc l = acc ++ l.
Proof.
  induction l as [|[k v] l IH]; intros acc Hnd; simpl.
  - rewrite app_nil_r. reflexivity.
  - rewrite ledger_set_fresh.
    + rewrite IH; rewrite <- app_assoc; [reflexivity | exact Hnd].
    + rewrite fmap_app, NoDup_app in Hnd. destruct Hnd as (_ & Hdisj & _).
      intros Hin. apply (Hdisj k Hin). simpl. left.
Qed.

Lemma trimHistory_over (limit : Z) (ledger : list (string * JobExecution.t)) :
  0 <= limit -> limit < Z.of_nat (length ledger) ->
  NoDup (ledger.*1) ->
  trimHistory limit ledger = take (Z.to_nat limit) (sort_recent_first ledger).
Proof.
  intros Hlim Hover Hnd. unfold trimHistory, slice0.
  destruct (Z.leb_spec (Z.of_nat (length ledger)) limit); [lia|].
  destruct (Z.ltb_spec limit 0); [lia|].
  apply (foldl_ledger_set _ []). simpl.
  rewrite fmap_take.
  eapply sublist_NoDup; [|apply sublist_take].
  rewrite sort_recent_first_perm. exact Hnd.
Qed.

(** C8. The trim step, [cleanupExecutionHistory], on a manager whose history
    limit is not negative and whose ledger has distinct keys (it is a [Map]).
    The step returns and writes nothing but the ledger.  After it the ledger
    holds at most [executionHistoryLimit] entries; a ledger within the limit
    is left as it is; a ledger over the limit keeps exactly
    [executionHistoryLimit] of its entries, and every entry it keeps started
    no earlier than every entry it drops. *)
Theorem history_trim (w : World)
  (Hlimit : 0 <= executionHistoryLimit (config w))
  (Hkeys : NoDup ((executions w).*1)) :
  exists w',
    cleanupExecutionHistory w = (Ret tt, w')
    /\ w' = set_executions (executions w') w
    /\ executions w' = trimHistory (executionHistoryLimit (config w)) (executions w)
    /\ Z.of_nat (length (executions w')) <= executionHistoryLimit (config w)
    /\ (Z.of_nat (length (executions w)) <= executionHistoryLimit (config w) ->
        executions w' = executions w)
    /\ (executionHistoryLimit (config w) < Z.of_nat (length (executions w)) ->
        Z.of_nat (length (executions w')) = executionHistoryLimit (config w)
        /\ exists evicted,
             executions w ≡ₚ executions w' ++ evicted
             /\ forall kept gone,
                  kept ∈ executions w' -> gone ∈ evicted ->
                  JobExecution.startTime (snd gone) <= JobExecution.startTime (snd kept)).
Proof.
  set (limit := executionHistoryLimit (config w)) in *.
  set (ledger := executions w) in *.
  eexists. split; [reflexivity|].
  cbn [executions set_executions]. fold limit ledger.
  split; [reflexivity|]. split; [reflexivity|].
  assert (Hunder : Z.of_nat (length ledger) <= limit -> trimHistory limit ledger = ledger).
  { intros Hle. unfold trimHistory.
    destruct (Z.leb_spec (Z.of_nat (length ledger)) limit); [reflexivity | lia]. }
  assert (Hover : limit < Z.of_nat (length ledger) ->
                  Z.of_nat (length (trimHistory limit ledger)) = limit).
  { intros Hlt. rewrite trimHistory_over by assumption.
    rewrite length_take_le; [lia|].
    rewrite (Permutation_length (sort_recent_first_perm ledger)). lia. }
  split; [|split; [exact Hunder|]].
  - destruct (Z.le_gt_cases (Z.of_nat (length ledger)) limit) as [Hle|Hgt].
    + rewrite Hunder by assumption. assumption.
    + rewrite Hover by assumption. lia.
  - intros Hlt. split; [auto|].
    exists (drop (Z.to_nat limit) (sort_recent_first ledger)).
    rewrite trimHistory_over by assumption.
    rewrite take_drop. split; [symmetry; apply sort_recent_first_perm|].
    intros kept gone Hkept Hgone.
    pose proof (sort_recent_first_sorted ledger) as Hsorted.
    rewrite <- (take_drop (Z.to_nat limit)) in Hsorted.
    exact (StronglySorted_app_1_elem_of _ _ _ _ _ Hsorted Hkept Hgone).
Qed.

(** The trim step on a manager with a limit of two and a ledger of three:
    the ledger is left with the two executions that started last. *)
Lemma history_trim_witness :
  (0 <= executionHistoryLimit (config worldLedgerOfThree)
   /\ NoDup ((executions worldLedgerOfThree).*1))
  /\ exists w',
       cleanupExecutionHistory worldLedgerOfThree = (Ret tt, w')
       /\ executions w' = [pastExecution 300; pastExecution 200]
       /\ Z.of_nat (length (executions w')) <= 2.
Proof.
  assert (Hlimit : 0 <= executionHistoryLimit (config worldLedgerOfThree)) by (cbn; lia).
  assert (Hnd : NoDup ((executions worldLedgerOfThree).*1)).
  { apply NoDup_ListNoDup. repeat constructor; simpl; intros H; intuition discriminate. }
  split; [split; assumption|].
  destruct (history_trim worldLedgerOfThree Hlimit Hnd)
    as (w' & Hrun & _ & Htrim & Hlen & _).
  exists w'. split; [exact Hrun|]. split; [rewrite Htrim; reflexivity | exact Hlen].
Defined.

(** ** The retry loop *)

(** One round whose body fails, with rounds left. *)
Lemma retryLoop_failed_round rounds (k : nat) job lastError x w e :
  knownTarget job = true ->
  bodyFails w (bodyRuns w) e ->
  exists x1 w1,
    retryLoop (S rounds) (Z.of_nat k) job lastError (x, w)
    = retryLoop rounds (Z.of_nat (S k)) job (Some (toError e)) (x1, w1)
    /\ env w1 = env w
    /\ bodyRuns w1 = S (bodyRuns w)
    /\ JobExecution.id x1 = JobExecution.id x
    /\ log w1
       = log w
         ++ [StatusWrite (JobExecution.id x) JobExecution.running; BodyRun (bodyRuns w)]
         ++ (if Z.of_nat k
                <? ScheduledJob.maxRetries (ScheduledJob.retryConfig (ScheduledJob.definition job))
             then [Backoff (retryDelay (ScheduledJob.retryConfig (ScheduledJob.definition job)) k)]
             else []).
Proof.
  intros Hknown Hfail. unfold bodyFails in Hfail.
  cbn [retryLoop]. rewrite Nat2Z.inj_succ, <- Z.add_1_r.
  unfold executeJobLogic, knownTarget in *.
  destruct (ScheduledJob.target_type (ScheduledJob.definition job)); try discriminate;
    unfold_monad; cbn [fst snd]; unfold runBody; cbn; rewrite Hfail; cbn;
    destruct (_ <? _); cbn; eexists _, _; (split; [reflexivity|]);
    cbn; rewrite <- ?app_assoc; repeat split; reflexivity.
Qed.

(** The round the loop ends with when its body fails: the error of that
    round is thrown, made an [Error] if it is not one. *)
Lemma retryLoop_last_failure (k : nat) job lastError x w e :
  knownTarget job = true ->
  bodyFails w (bodyRuns w) e ->
  exists x1 w1,
    retryLoop 1 (Z.of_nat k) job lastError (x, w) = (Throw (toError e), (x1, w1))
    /\ bodyRuns w1 = S (bodyRuns w)
    /\ log w1 = log w ++ lastRound (JobExecution.id x) (bodyRuns w) 0
                ++ (if Z.of_nat k
                       <? ScheduledJob.maxRetries
                            (ScheduledJob.retryConfig (ScheduledJob.definition job))
                    then [Backoff (retryDelay
                                     (ScheduledJob.retryConfig (ScheduledJob.definition job)) k)]
                    else []).
Proof.
  intros Hknown Hfail.
  destruct (retryLoop_failed_round 0 k job lastError x w e Hknown Hfail)
    as (x1 & w1 & Heq & _ & Hruns & _ & Hlog).
  exists x1, w1. rewrite Heq. unfold lastRound. rewrite Nat.add_0_r.
  repeat split; assumption.
Qed.

(** A round whose body returns ends the loop with what the body returned. *)
Lemma retryLoop_success_round rounds (attempt : Z) job lastError x w v :
  knownTarget job = true ->
  bodyReturns w (bodyRuns w) v ->
  exists x1 w1,
    retryLoop (S rounds) attempt job lastError (x, w) = (Ret v, (x1, w1))
    /\ bodyRuns w1 = S (bodyRuns w)
    /\ log w1 = log w ++ lastRound (JobExecution.id x) (bodyRuns w) 0.
Proof.
  intros Hknown Hret. unfold bodyReturns in Hret.
  cbn [retryLoop]. unfold lastRound. rewrite Nat.add_0_r.
  unfold executeJobLogic, knownTarget in *.
  destruct (ScheduledJob.target_type (ScheduledJob.definition job)); try discriminate;
    unfold_monad; cbn [fst snd]; unfold runBody; cbn; rewrite Hret; cbn;
    eexists _, _; (split; [reflexivity|]);
    cbn; rewrite <- ?app_assoc, ?Nat.add_0_r; repeat split; reflexivity.
Qed.

(** [j] failing rounds in a row, each followed by its sleep. *)
Lemma retryLoop_failed_rounds job (errors : nat -> Thrown) (first : nat) (j : nat) :
  forall rounds (k : nat) lastError x w,
    knownTarget job = true ->
    bodyRuns w = (first + k)%nat ->
    (forall i, (k <= i < k + j)%nat -> bodyFails w (first + i) (errors i)) ->
    Z.of_nat (k + j)
    <= ScheduledJob.maxRetries (ScheduledJob.retryConfig (ScheduledJob.definition job)) ->
    exists lastError' x1 w1,
      retryLoop (j + rounds) (Z.of_nat k) job lastError (x, w)
      = retryLoop rounds (Z.of_nat (k + j)) job lastError' (x1, w1)
      /\ env w1 = env w
      /\ bodyRuns w1 = (first + (k + j))%nat
      /\ JobExecution.id x1 = JobExecution.id x
      /\ log w1
         = log w
           ++ flat_map (failedRound (JobExecution.id x)
                          (ScheduledJob.retryConfig (ScheduledJob.definition job)) first)
                (seq k j).
Proof.
  induction j as [|j IH]; intros rounds k lastError x w Hknown Hruns Hfail Hroom.
  - exists lastError, x, w. rewrite Nat.add_0_r, app_nil_r. repeat split; assumption.
  - assert (Hfirst : bodyFails w (bodyRuns w) (errors k)) by (rewrite Hruns; apply Hfail; lia).
    destruct (retryLoop_failed_round (j + rounds) k job lastError x w (errors k) Hknown Hfirst)
      as (x1 & w1 & Heq & Henv & Hruns1 & Hid & Hlog).
    destruct (IH rounds (S k) (Some (toError (errors k))) x1 w1 Hknown) as
      (lastError' & x2 & w2 & Heq2 & Henv2 & Hruns2 & Hid2 & Hlog2).
    + rewrite Hruns1, Hruns. lia.
    + intros i Hi. unfold bodyFails in *. rewrite Henv. apply Hfail. lia.
    + lia.
    + exists lastError', x2, w2.
      replace (k + S j)%nat with (S k + j)%nat by lia.
      cbn [Nat.add]. rewrite Heq, Heq2. cbn [Nat.add].
      split; [reflexivity|]. split; [congruence|].
      split; [exact Hruns2|]. split; [congruence|].
      rewrite Hlog2, Hlog, Hid. cbn [seq flat_map].
      destruct (Z.ltb_spec (Z.of_nat k)
                  (ScheduledJob.maxRetries
                     (ScheduledJob.retryConfig (ScheduledJob.definition job)))); [|lia].
      unfold failedRound at 2. rewrite Hruns, <- !app_assoc. reflexivity.
Qed.

(** The trace of the loop, for a retry policy with [maxRetries = R >= 0] and
    a job of a known kind.  When the body fails on each of its next [R + 1]
    runs, the loop runs it exactly [R + 1] times, arms a timer with
    [initialDelay * backoffMultiplier ^ k] between attempt [k] and attempt
    [k + 1] for [k < R] and none after attempt [R], and throws the error of
    attempt [R] (itself when it is an [Error]); when the body fails on
    [k <= R] runs and returns on the next, the loop runs it [k + 1] times,
    with the same timers in between, and returns what that run returned. *)
Lemma runJobWithRetry_trace (job : ScheduledJob.t) (x : JobExecution.t) (w : World)
  (Hretries : 0 <= ScheduledJob.maxRetries (ScheduledJob.retryConfig (ScheduledJob.definition job)))
  (Hknown : knownTarget job = true) :
  let rc := ScheduledJob.retryConfig (ScheduledJob.definition job) in
  let R := Z.to_nat (ScheduledJob.maxRetries rc) in
  (forall errors : nat -> Thrown,
     (forall i, (i <= R)%nat -> bodyFails w (bodyRuns w + i) (errors i)) ->
     exists x' w',
       runJobWithRetry job (x, w) = (Throw (toError (errors R)), (x', w'))
       /\ (instanceofError (errors R) = true -> toError (errors R) = errors R)
       /\ bodyRuns w' = (bodyRuns w + (R + 1))%nat
       /\ log w' = log w ++ retryTrace (JobExecution.id x) rc (bodyRuns w) R)
  /\ (forall (errors : nat -> Thrown) (k : nat) (v : Value),
        (k <= R)%nat ->
        (forall i, (i < k)%nat -> bodyFails w (bodyRuns w + i) (errors i)) ->
        bodyReturns w (bodyRuns w + k) v ->
        exists x' w',
          runJobWithRetry job (x, w) = (Ret v, (x', w'))
          /\ bodyRuns w' = (bodyRuns w + (k + 1))%nat
          /\ log w' = log w ++ retryTrace (JobExecution.id x) rc (bodyRuns w) k).
Proof.
  intros rc R. unfold runJobWithRetry. cbv zeta.
  assert (HR : ScheduledJob.maxRetries rc = Z.of_nat R) by (subst R rc; lia).
  clearbody R. fold rc. rewrite HR.
  replace (Z.to_nat (Z.of_nat R + 1)) with (R + 1)%nat by lia.
  split.
  - intros errors Hfail.
    destruct (retryLoop_failed_rounds job errors (bodyRuns w) R 1 0 None x w Hknown)
      as (lastError & x1 & w1 & Heq & Henv & Hruns & Hid & Hlog).
    + lia.
    + intros i Hi. apply Hfail. lia.
    + fold rc. lia.
    + assert (Hlast : bodyFails w1 (bodyRuns w1) (errors R)).
      { unfold bodyFails in *. rewrite Henv, Hruns. apply Hfail. lia. }
      destruct (retryLoop_last_failure R job lastError x1 w1 (errors R) Hknown Hlast)
        as (x2 & w2 & Heq2 & Hruns2 & Hlog2).
      exists x2, w2. change (Z.of_nat 0) with 0 in Heq. rewrite Heq. cbn [Nat.add].
      rewrite Heq2. split; [reflexivity|].
      split; [destruct (errors R); simpl; congruence|].
      split; [rewrite Hruns2, Hruns; lia|].
      rewrite Hlog2, Hlog, Hid, Hruns. fold rc.
      destruct (Z.ltb_spec (Z.of_nat R) (ScheduledJob.maxRetries rc)); [lia|].
      unfold retryTrace, lastRound. cbn [Nat.add].
      rewrite app_nil_r, Nat.add_0_r, <- app_assoc. reflexivity.
  - intros errors k v Hk Hfail Hret.
    destruct (retryLoop_failed_rounds job errors (bodyRuns w) k (R - k + 1) 0 None x w Hknown)
      as (lastError & x1 & w1 & Heq & Henv & Hruns & Hid & Hlog).
    + lia.
    + intros i Hi. apply Hfail. lia.
    + fold rc. lia.
    + assert (Hlast : bodyReturns w1 (bodyRuns w1) v).
      { unfold bodyReturns in *. rewrite Henv, Hruns. exact Hret. }
      replace (R + 1)%nat with (k + (R - k + 1))%nat by lia.
      change (Z.of_nat 0) with 0 in Heq. rewrite Heq.
      replace (R - k + 1)%nat with (S (R - k)) by lia.
      destruct (retryLoop_success_round (R - k) (Z.of_nat (0 + k)) job lastError x1 w1 v
                  Hknown Hlast) as (x2 & w2 & Heq2 & Hruns2 & Hlog2).
      exists x2, w2. rewrite Heq2. split; [reflexivity|].
      split; [rewrite Hruns2, Hruns; lia|].
      rewrite Hlog2, Hlog, Hid, Hruns.
      unfold retryTrace, lastRound. cbn [Nat.add].
      rewrite Nat.add_0_r, <- app_assoc. reflexivity.
Qed.

(** C2 fails on the code where a delay is more than a timer can hold.  The
    policy of ["backup"] passes [JobSchema], and [createJob] registers the
    job.  Its body fails twice.  The loop makes its two attempts and throws
    the error of the second, as C2 says; between them it arms the timer with
    [initialDelay * backoffMultiplier ^ 0], three million seconds, as line
    530 announces; the timer fires after one millisecond, and the second
    attempt starts eight milliseconds after the first. *)
Lemma long_backoff_is_not_slept :
  schemaIssues backupData = []
  /\ fst (createJob backupData (newManager defaultConfig (envWith alwaysDown) 1000))
     = Ret "backup"
  /\ exists job x' w',
       jobs worldBackupDown !! "backup" = Some job
       /\ ScheduledJob.definition job = backupData
       /\ retryDelay (ScheduledJob.retryConfig backupData) 0 = 3000000000
       /\ runJobWithRetry job (newExecution "backup" 1000, worldBackupDown)
          = (Throw (JsError "upstream down"), (x', w'))
       /\ log w'
          = log worldBackupDown
            ++ [StatusWrite "backup_1000" JobExecution.running; BodyRun 0;
                Backoff 3000000000;
                StatusWrite "backup_1000" JobExecution.running; BodyRun 1]
       /\ now w' = now worldBackupDown + 7 + 1 + 7
       /\ now w' < now worldBackupDown + 3000000000.
Proof.
  split; [reflexivity|]. split; [vm_compute; reflexivity|].
  eexists _, _, _. split; [vm_compute; reflexivity|].
  split; [reflexivity|]. split; [reflexivity|].
  split; [vm_compute; reflexivity|].
  split; [vm_compute; reflexivity|].
  split; [vm_compute; reflexivity | vm_compute; reflexivity].
Qed.

(** ** What the try block leaves alone *)

Section Steady.
Variable cut : bool.

Lemma since_app w w' events : log w' = log w ++ events -> since w w' = events.
Proof. unfold since. intros ->. apply drop_app_length. Qed.

Lemma wadvances_refl id w : wadvances cut id w w.
Proof. exists []. rewrite app_nil_r. repeat split; [constructor | lia]. Qed.

Lemma wadvances_trans id w1 w2 w3 :
  wadvances cut id w1 w2 -> wadvances cut id w2 w3 -> wadvances cut id w1 w3.
Proof.
  intros (ev1 & L1 & Q1 & N1 & J1 & X1 & C1 & E1) (ev2 & L2 & Q2 & N2 & J2 & X2 & C2 & E2).
  exists (ev1 ++ ev2). rewrite L2, L1, <- app_assoc.
  repeat split; try congruence; [apply Forall_app; split; assumption | lia].
Qed.

Lemma advances_refl s : advances cut s s.
Proof. split; [apply wadvances_refl | split; reflexivity]. Qed.

Lemma advances_trans s1 s2 s3 : advances cut s1 s2 -> advances cut s2 s3 -> advances cut s1 s3.
Proof.
  intros (W1 & I1 & T1) (W2 & I2 & T2). rewrite I1 in W2.
  split; [eapply wadvances_trans; eassumption | split; congruence].
Qed.

Lemma steady_ret {A} (a : A) : steady cut (ret a).
Proof. intros s r s' [= <- <-]. apply advances_refl. Qed.

Lemma steady_throw {A} e : steady cut (@throw Frame A e).
Proof. intros s r s' [= <- <-]. apply advances_refl. Qed.

Lemma steady_bind {A B} (c : M Frame A) (k : A -> M Frame B) :
  steady cut c -> (forall a, steady cut (k a)) -> steady cut (bind c k).
Proof.
  intros Hc Hk s r s'. unfold bind.
  destruct (c s) as [[a|e|] s1] eqn:Hcs; intros Hrun.
  - eapply advances_trans; [eapply Hc; eassumption | eapply Hk; eassumption].
  - injection Hrun as <- <-. eapply Hc; eassumption.
  - injection Hrun as <- <-. eapply Hc; eassumption.
Qed.

Lemma steady_try_catch {A} (c : M Frame A) (h : Thrown -> M Frame A) :
  steady cut c -> (forall e, steady cut (h e)) -> steady cut (try_catch c h).
Proof.
  intros Hc Hh s r s'. unfold try_catch.
  destruct (c s) as [[a|e|] s1] eqn:Hcs; intros Hrun.
  - injection Hrun as <- <-. eapply Hc; eassumption.
  - eapply advances_trans; [eapply Hc; eassumption | eapply Hh; eassumption].
  - injection Hrun as <- <-. eapply Hc; eassumption.
Qed.

Lemma wsteady_ret {A} (a : A) : wsteady cut (ret a).
Proof. intros id w r w' [= <- <-]. apply wadvances_refl. Qed.

Lemma wsteady_bind {A B} (c : M World A) (k : A -> M World B) :
  wsteady cut c -> (forall a, wsteady cut (k a)) -> wsteady cut (bind c k).
Proof.
  intros Hc Hk id w r w'. unfold bind.
  destruct (c w) as [[a|e|] w1] eqn:Hcw; intros Hrun.
  - eapply wadvances_trans; [eapply Hc; eassumption | eapply Hk; eassumption].
  - injection Hrun as <- <-. eapply Hc; eassumption.
  - injection Hrun as <- <-. eapply Hc; eassumption.
Qed.

Lemma steady_lift {A} (c : M World A) : wsteady cut c -> steady cut (lift c).
Proof.
  intros Hc [x w] r s'. unfold lift. cbn [fst snd].
  destruct (c w) as [r1 w1] eqn:Hcw. intros [= <- <-].
  split; [eapply Hc; eassumption | split; reflexivity].
Qed.

Lemma wsteady_logged (ev : Event) :
  (forall id, quietEvent cut id ev) -> wsteady cut (emit ev).
Proof.
  intros Hq id w r w' [= <- <-]. exists [ev]. cbn.
  repeat split; [repeat constructor; apply Hq | lia].
Qed.

Lemma wsteady_elapse ms : wsteady cut (elapse ms).
Proof.
  intros id w r w' [= <- <-]. exists []. cbn. rewrite app_nil_r.
  repeat split; [constructor | lia].
Qed.

Lemma wsteady_Date_now : wsteady cut Date_now.
Proof. intros id w r w' [= <- <-]. apply wadvances_refl. Qed.

Lemma wsteady_memoryUsage : wsteady cut process_memoryUsage.
Proof.
  intros id w r w' [= <- <-]. exists []. cbn. rewrite app_nil_r.
  repeat split; [constructor | lia].
Qed.

Lemma wsteady_runBody : wsteady cut runBody.
Proof.
  intros id w r w'. unfold runBody.
  destruct (settles (jobBody (env w) (bodyRuns w))); intros [= <- <-];
    exists [BodyRun (bodyRuns w)]; cbn; repeat split;
    try (repeat constructor); lia.
Qed.

Lemma wsteady_executeJobLogic job : wsteady cut (executeJobLogic job).
Proof.
  unfold executeJobLogic.
  destruct (ScheduledJob.target_type (ScheduledJob.definition job));
    try apply wsteady_runBody.
  intros id w r w' [= <- <-]. apply wadvances_refl.
Qed.

Lemma wsteady_backoff delay : wsteady cut (backoff delay).
Proof.
  unfold backoff. apply wsteady_bind.
  - apply wsteady_logged. intros id. exact I.
  - intros _. apply wsteady_elapse.
Qed.

Lemma wsteady_isSystemOverloaded : wsteady cut isSystemOverloaded.
Proof.
  unfold isSystemOverloaded. apply wsteady_bind; [apply wsteady_memoryUsage|].
  intros m. apply wsteady_ret.
Qed.

Lemma wsteady_checkResources polls : wsteady cut (checkResources polls).
Proof.
  induction polls as [|polls IH]; cbn [checkResources].
  - intros id w r w' [= <- <-]. apply wadvances_refl.
  - apply wsteady_bind; [apply wsteady_isSystemOverloaded|].
    intros [|]; [|apply wsteady_ret].
    apply wsteady_bind; [apply wsteady_logged; intros id; exact I|].
    intros _. apply wsteady_bind; [apply wsteady_elapse|]. intros _. exact IH.
Qed.

Lemma wsteady_waitForResources : wsteady cut waitForResources.
Proof. intros id w r w'. unfold waitForResources. apply wsteady_checkResources. Qed.

Lemma steady_setExecution (f : JobExecution.t -> JobExecution.t) :
  (forall x, JobExecution.id (f x) = JobExecution.id x
             /\ JobExecution.startTime (f x) = JobExecution.startTime x) ->
  steady cut (setExecution f).
Proof.
  intros Hf [x w] r s' [= <- <-]. cbn [fst snd].
  split; [apply wadvances_refl | apply Hf].
Qed.

Lemma steady_writeRunning : steady cut (writeStatus JobExecution.running).
Proof.
  intros [x w] r s' [= <- <-]. cbn [fst snd]. split; [|split; reflexivity].
  exists [StatusWrite (JobExecution.id x) JobExecution.running]. cbn.
  repeat split; [repeat constructor | lia].
Qed.

Lemma steady_retryLoop rounds : forall attempt job lastError,
  steady cut (retryLoop rounds attempt job lastError).
Proof.
  induction rounds as [|rounds IH]; intros attempt job lastError; cbn [retryLoop].
  - apply steady_throw.
  - apply steady_bind; [apply steady_setExecution; intros x; split; reflexivity|].
    intros _. apply steady_bind; [apply steady_writeRunning|].
    intros _. apply steady_try_catch.
    + apply steady_bind; [apply steady_lift, wsteady_memoryUsage|]. intros before.
      apply steady_bind; [apply steady_lift, wsteady_Date_now|]. intros t0.
      apply steady_bind; [apply steady_lift, wsteady_executeJobLogic|]. intros result.
      apply steady_bind; [apply steady_lift, wsteady_Date_now|]. intros t1.
      apply steady_bind; [apply steady_lift, wsteady_memoryUsage|]. intros after.
      apply steady_bind; [apply steady_setExecution; intros x; split; reflexivity|].
      intros _. apply steady_ret.
    + intros e. apply steady_bind; [|intros _; apply IH].
      destruct (_ <? _); [apply steady_lift, wsteady_backoff | apply steady_ret].
Qed.

Lemma steady_runJobWithRetry job : steady cut (runJobWithRetry job).
Proof. apply steady_retryLoop. Qed.

End Steady.

Lemma steady_PQueue_add queue timeout (job : M Frame Value) :
  steady true job -> steady true (PQueue_add queue timeout job).
Proof.
  intros Hjob s r s'. unfold PQueue_add.
  destruct (job s) as [r1 s1] eqn:Hrun. specialize (Hjob _ _ _ Hrun).
  assert (Hcut : advances true s
            (fst s1, set_now (now (snd s) + Z.max 0 timeout)
                       (set_log (log (snd s1) ++ [QueueTimeout]) (snd s1)))).
  { destruct Hjob as [(events & Hlog & Hquiet & _ & Hrest) Hframe].
    split; [|exact Hframe]. exists (events ++ [QueueTimeout]). cbn.
    rewrite Hlog, <- app_assoc. split; [reflexivity|].
    split; [apply Forall_app; split; [exact Hquiet | repeat constructor]|].
    split; [lia | exact Hrest]. }
  destruct r1 as [v|e|]; [| |intros [= <- <-]; exact Hjob];
    destruct (_ <? _); try (intros [= <- <-]; exact Hjob);
    destruct (throwOnTimeout _); intros [= <- <-]; exact Hcut.
Qed.

Lemma steady_addJob priority (job : M Frame Value) timeout :
  steady true job -> steady true (addJob priority job timeout).
Proof.
  intros Hjob s r s'. unfold addJob.
  destruct (jobQueue (snd s) !! priority) as [queue|].
  - apply steady_bind; [apply steady_lift, wsteady_isSystemOverloaded|].
    intros overloaded. apply steady_bind.
    + destruct overloaded; [apply steady_lift, wsteady_waitForResources | apply steady_ret].
    + intros _. apply steady_PQueue_add, Hjob.
  - intros [= <- <-]. apply advances_refl.
Qed.

(** Writing the breakers back is invisible to the rest. *)
Lemma advances_breakers s cbs :
  advances true s (fst s, set_circuitBreakers cbs (snd s)).
Proof.
  split; [|split; reflexivity].
  exists []. cbn. rewrite app_nil_r. repeat split; [constructor | lia].
Qed.

Lemma steady_tryBlock jobId job : steady true (tryBlock jobId job).
Proof.
  intros s r s'. unfold tryBlock, CircuitBreaker.execute.
  set (cb := default _ _).
  set (s0 := (fst s, set_circuitBreakers _ (snd s))).
  assert (H0 : advances true s s0) by apply advances_breakers.
  destruct (CircuitBreaker.enter _ cb) as [cb1|].
  - destruct (addJob _ _ _ s0) as [r1 s1] eqn:Hrun.
    pose proof (steady_addJob _ _ _ (steady_runJobWithRetry true job) _ _ _ Hrun) as H1.
    destruct r1 as [v|e|]; intros [= <- <-];
      (eapply advances_trans; [exact H0|]);
      (eapply advances_trans; [exact H1|]); apply advances_breakers.
  - intros [= <- <-]. eapply advances_trans; [exact H0|]. apply (advances_breakers s0).
Qed.

(** ** A run that returns went through [running] *)

Lemma since_trans w1 w2 w3 ev1 :
  log w2 = log w1 ++ ev1 ->
  (exists ev2, log w3 = log w2 ++ ev2) ->
  since w1 w3 = ev1 ++ since w2 w3.
Proof.
  intros L1 (ev2 & L2).
  rewrite (since_app w2 w3 ev2 L2). apply since_app. rewrite L2, L1, app_assoc. reflexivity.
Qed.

Lemma advances_log s s' : advances true s s' -> exists events, log (snd s') = log (snd s) ++ events.
Proof. intros ((events & L & _) & _). eauto. Qed.

Lemma ranIfReturned_after {A B} (c : M Frame A) (k : A -> M Frame B) :
  steady true c -> (forall a, steady true (k a)) -> (forall a, ranIfReturned (k a)) ->
  ranIfReturned (bind c k).
Proof.
  intros Hc Hk Hran s v s'. unfold bind.
  destruct (c s) as [[a|e|] s1] eqn:Hcs; [|discriminate..].
  intros Hrun.
  destruct (Hc _ _ _ Hcs) as ((ev1 & L1 & _) & Hid & _).
  pose proof (advances_log _ _ (Hk _ _ _ _ Hrun)) as L2.
  rewrite (since_trans _ _ _ _ L1 L2).
  destruct (Hran _ _ _ _ Hrun) as [Hin|Hin]; [left | right];
    apply in_or_app; right; [rewrite <- Hid|]; exact Hin.
Qed.

Lemma bind_setExecution {B} f (k : unit -> M Frame B) s :
  bind (setExecution f) k s = k tt (f (fst s), snd s).
Proof. reflexivity. Qed.

Lemma bind_writeStatus {B} st (k : unit -> M Frame B) s :
  bind (writeStatus st) k s
  = k tt (JobExecution.with_status st (fst s),
          set_log (log (snd s) ++ [StatusWrite (JobExecution.id (fst s)) st]) (snd s)).
Proof. reflexivity. Qed.

Lemma ranIfReturned_retryLoop rounds attempt job lastError :
  ranIfReturned (retryLoop rounds attempt job lastError).
Proof.
  intros [x w] v s' Hrun. left. cbn [fst snd].
  destruct rounds as [|rounds]; [discriminate|].
  pose proof (steady_retryLoop true (S rounds) attempt job lastError _ _ _ Hrun) as Hadv.
  cbn [retryLoop] in Hrun.
  rewrite bind_setExecution, bind_writeStatus in Hrun. cbn [fst snd] in Hrun.
  match type of Hrun with
  | try_catch ?c ?h ?s1 = _ =>
      assert (Hrest : steady true (try_catch c h)); [|pose proof (Hrest _ _ _ Hrun) as Hlater]
  end.
  { apply steady_try_catch.
    - apply steady_bind; [apply steady_lift, wsteady_memoryUsage|]. intros before.
      apply steady_bind; [apply steady_lift, wsteady_Date_now|]. intros t0.
      apply steady_bind; [apply steady_lift, wsteady_executeJobLogic|]. intros result.
      apply steady_bind; [apply steady_lift, wsteady_Date_now|]. intros t1.
      apply steady_bind; [apply steady_lift, wsteady_memoryUsage|]. intros after.
      apply steady_bind; [apply steady_setExecution; intros y; split; reflexivity|].
      intros _. apply steady_ret.
    - intros e. apply steady_bind; [|intros _; apply steady_retryLoop].
      destruct (_ <? _); [apply steady_lift, wsteady_backoff | apply steady_ret]. }
  destruct Hlater as ((events & L & _) & _). cbn [fst snd log set_log] in L.
  rewrite <- app_assoc in L. rewrite (since_app _ _ _ L). left. reflexivity.
Qed.

Lemma ranIfReturned_PQueue_add queue timeout (job : M Frame Value) :
  steady true job -> ranIfReturned job -> ranIfReturned (PQueue_add queue timeout job).
Proof.
  intros Hsteady Hjob s v s'. unfold PQueue_add.
  destruct (job s) as [r1 s1] eqn:Hrun.
  destruct (Hsteady _ _ _ Hrun) as ((events & L & _) & _).
  assert (Hcut : In QueueTimeout
                   (since (snd s)
                      (set_now (now (snd s) + Z.max 0 timeout)
                         (set_log (log (snd s1) ++ [QueueTimeout]) (snd s1))))).
  { erewrite since_app; [|cbn; rewrite L, <- app_assoc; reflexivity].
    apply in_or_app. right. left. reflexivity. }
  destruct r1 as [v1|e|]; [| |discriminate];
    destruct (_ <? _); try discriminate.
  - destruct (throwOnTimeout _); [discriminate|]. intros [= <- <-]. right. exact Hcut.
  - intros [= <- <-]. eapply Hjob; eassumption.
  - destruct (throwOnTimeout _); [discriminate|]. intros [= <- <-]. right. exact Hcut.
Qed.

Lemma ranIfReturned_addJob priority timeout job :
  ranIfReturned (addJob priority (runJobWithRetry job) timeout).
Proof.
  intros s v s'. unfold addJob.
  destruct (jobQueue (snd s) !! priority) as [queue|]; [|discriminate].
  apply ranIfReturned_after.
  - apply steady_lift, wsteady_isSystemOverloaded.
  - intros overloaded. apply steady_bind.
    + destruct overloaded; [apply steady_lift, wsteady_waitForResources | apply steady_ret].
    + intros _. apply steady_PQueue_add, steady_runJobWithRetry.
  - intros overloaded. apply ranIfReturned_after.
    + destruct overloaded; [apply steady_lift, wsteady_waitForResources | apply steady_ret].
    + intros _. apply steady_PQueue_add, steady_runJobWithRetry.
    + intros _. apply ranIfReturned_PQueue_add;
        [apply steady_runJobWithRetry | apply ranIfReturned_retryLoop].
Qed.

Lemma ranIfReturned_tryBlock jobId job : ranIfReturned (tryBlock jobId job).
Proof.
  intros s v s'. unfold tryBlock, CircuitBreaker.execute.
  set (cb := default _ _).
  set (s0 := (fst s, set_circuitBreakers _ (snd s))).
  destruct (CircuitBreaker.enter _ cb) as [cb1|]; [|discriminate].
  destruct (addJob _ _ _ s0) as [r1 s1] eqn:Hrun.
  destruct r1 as [v1|e|]; [|discriminate..].
  intros [= <- <-]. exact (ranIfReturned_addJob _ _ _ _ _ _ Hrun).
Qed.

(** ** A task the queue cut *)

Lemma quiet_uncut id (events : list Event) :
  Forall (quietEvent false id) events -> ~ In QueueTimeout events.
Proof.
  intros Hq Hin. rewrite Forall_forall in Hq.
  apply list_elem_of_In in Hin. specialize (Hq _ Hin). discriminate.
Qed.

Lemma steady_uncut {A} (c : M Frame A) s r s' :
  steady false c -> c s = (r, s') ->
  ~ In QueueTimeout (since (snd s) (snd s')) /\ env (snd s') = env (snd s).
Proof.
  intros Hc Hrun.
  destruct (Hc _ _ _ Hrun) as ((events & L & Q & _ & _ & _ & _ & E) & _).
  rewrite (since_app _ _ _ L). split; [eapply quiet_uncut; exact Q | exact E].
Qed.

Lemma cutDecides_uncut timeout (c : M Frame Value) :
  steady false c -> cutDecides timeout c.
Proof.
  intros Hc s r s' Hrun Hin.
  destruct (steady_uncut c s r s' Hc Hrun) as [Hno _]. contradiction.
Qed.

Lemma cutDecides_after {A} timeout (c : M Frame A) (k : A -> M Frame Value) :
  steady false c -> (forall a, steady true (k a)) ->
  (forall a, cutDecides timeout (k a)) ->
  cutDecides timeout (bind c k).
Proof.
  intros Hc Hk Hcut s r s'. unfold bind.
  destruct (c s) as [[a|e|] s1] eqn:Hcs; intros Hrun Hin.
  - destruct (steady_uncut c s _ s1 Hc Hcs) as [Hno Henv].
    destruct (Hc _ _ _ Hcs) as ((ev1 & L1 & _) & _).
    pose proof (advances_log _ _ (Hk _ _ _ _ Hrun)) as L2.
    rewrite (since_trans _ _ _ _ L1 L2) in Hin.
    rewrite (since_app _ _ _ L1) in Hno.
    apply in_app_or in Hin as [Hin|Hin]; [contradiction|].
    rewrite <- Henv. exact (Hcut _ _ _ _ Hrun Hin).
  - injection Hrun as <- <-.
    destruct (steady_uncut c s _ s1 Hc Hcs) as [Hno _]. contradiction.
  - injection Hrun as <- <-.
    destruct (steady_uncut c s _ s1 Hc Hcs) as [Hno _]. contradiction.
Qed.

Lemma cutDecides_PQueue_add queue timeout (job : M Frame Value) :
  steady false job -> cutDecides timeout (PQueue_add queue timeout job).
Proof.
  intros Hjob s r s'. unfold PQueue_add.
  destruct (job s) as [r1 s1] eqn:Hrun.
  destruct (steady_uncut job s r1 s1 Hjob Hrun) as [Hno Henv]. rewrite Henv.
  destruct r1 as [v|e|]; [| |intros [= <- <-] Hin; contradiction];
    (destruct (_ <? _); [|intros [= <- <-] Hin; contradiction]);
    destruct (throwOnTimeout _); intros [= <- <-] _; reflexivity.
Qed.

Lemma cutDecides_addJob priority timeout job :
  cutDecides timeout (addJob priority (runJobWithRetry job) timeout).
Proof.
  intros s r s'. unfold addJob.
  destruct (jobQueue (snd s) !! priority) as [queue|].
  - apply cutDecides_after.
    + apply steady_lift, wsteady_isSystemOverloaded.
    + intros overloaded. apply steady_bind.
      * destruct overloaded; [apply steady_lift, wsteady_waitForResources | apply steady_ret].
      * intros _. apply steady_PQueue_add, steady_runJobWithRetry.
    + intros overloaded. apply cutDecides_after.
      * destruct overloaded; [apply steady_lift, wsteady_waitForResources | apply steady_ret].
      * intros _. apply steady_PQueue_add, steady_runJobWithRetry.
      * intros _. apply cutDecides_PQueue_add, steady_runJobWithRetry.
  - intros [= <- <-] Hin. unfold since in Hin. rewrite drop_all in Hin. destruct Hin.
Qed.

Lemma cutDecides_tryBlock jobId job :
  cutDecides (ScheduledJob.timeout (ScheduledJob.definition job)) (tryBlock jobId job).
Proof.
  intros s r s'. unfold tryBlock, CircuitBreaker.execute.
  set (cb := default _ _).
  set (s0 := (fst s, set_circuitBreakers _ (snd s))).
  destruct (CircuitBreaker.enter _ cb) as [cb1|].
  - destruct (addJob _ _ _ s0) as [r1 s1] eqn:Hrun.
    pose proof (cutDecides_addJob _ _ _ _ _ _ Hrun) as Hcut.
    destruct r1 as [v|e|]; intros [= <- <-] Hin; apply Hcut; exact Hin.
  - intros [= <- <-] Hin. unfold since in Hin. cbn in Hin.
    rewrite drop_all in Hin. destruct Hin.
Qed.

(** ** executeJob *)

(** What the [catch] block and the lines after it make of an error of the
    [try] block. *)
Lemma runExecution_failed jobId job w error s1 :
  tryBlock jobId job (startExecution jobId w) = (Throw error, s1) ->
  exists e w' job',
    runExecution jobId job w = (Ret e, w')
    /\ JobExecution.status e = JobExecution.failed
    /\ JobExecution.error e = Some (errorMessage error)
    /\ JobExecution.endTime e = Some (now (snd s1))
    /\ JobExecution.id e = JobExecution.id (fst s1)
    /\ JobExecution.startTime e = JobExecution.startTime (fst s1)
    /\ log w' = log (snd s1)
                ++ [StatusWrite (JobExecution.id (fst s1)) JobExecution.failed;
                    JobFailed job' e error]
    /\ jobs w' !! jobId = Some job'
    /\ ScheduledJob.errorCount (ScheduledJob.metadata job')
       = ScheduledJob.errorCount (ScheduledJob.metadata job) + 1
    /\ ScheduledJob.runCount (ScheduledJob.metadata job')
       = ScheduledJob.runCount (ScheduledJob.metadata job)
    /\ ScheduledJob.definition job' = ScheduledJob.definition job
    /\ ScheduledJob.lastRun (ScheduledJob.metadata job')
       = ScheduledJob.lastRun (ScheduledJob.metadata job)
    /\ jobs w' = <[jobId := job']> (jobs (snd s1)).
Proof.
  intros Htry. unfold runExecution. rewrite Htry.
  unfold onFailed, settle, cleanupExecutionHistory, persistJobs.
  unfold_monad. cbn [fst snd].
  eexists _, _, _. split; [reflexivity|]. cbn.
  rewrite <- app_assoc, lookup_insert_eq. repeat split; reflexivity.
Qed.

(** What lines 466-478 and the lines after the [try] make of a result. *)
Lemma runExecution_completed jobId job w result s1 :
  tryBlock jobId job (startExecution jobId w) = (Ret result, s1) ->
  exists e w' job',
    runExecution jobId job w = (Ret e, w')
    /\ JobExecution.status e = JobExecution.completed
    /\ JobExecution.result e = Some result
    /\ JobExecution.endTime e = Some (now (snd s1))
    /\ JobExecution.id e = JobExecution.id (fst s1)
    /\ JobExecution.startTime e = JobExecution.startTime (fst s1)
    /\ log w' = log (snd s1)
                ++ [StatusWrite (JobExecution.id (fst s1)) JobExecution.completed;
                    JobCompleted job' e]
    /\ jobs w' !! jobId = Some job'
    /\ ScheduledJob.errorCount (ScheduledJob.metadata job')
       = ScheduledJob.errorCount (ScheduledJob.metadata job)
    /\ ScheduledJob.runCount (ScheduledJob.metadata job')
       = ScheduledJob.runCount (ScheduledJob.metadata job) + 1
    /\ ScheduledJob.lastRun (ScheduledJob.metadata job')
       = Some (JobExecution.startTime (fst s1))
    /\ jobs w' = <[jobId := job']> (jobs (snd s1)).
Proof.
  intros Htry. unfold runExecution. rewrite Htry.
  unfold onCompleted, settle, cleanupExecutionHistory, persistJobs.
  unfold_monad. cbn [fst snd].
  eexists _, _, _. split; [reflexivity|]. cbn.
  rewrite <- app_assoc, lookup_insert_eq. repeat split; reflexivity.
Qed.

Lemma runExecution_hang jobId job w s1 :
  tryBlock jobId job (startExecution jobId w) = (Hang, s1) ->
  runExecution jobId job w = (Hang, snd s1).
Proof. intros Htry. unfold runExecution. rewrite Htry. reflexivity. Qed.

Lemma startExecution_log jobId w :
  log (snd (startExecution jobId w))
  = log w ++ [StatusWrite (jobId +:+ "_" +:+ pretty (now w)) JobExecution.pending]
  /\ JobExecution.id (fst (startExecution jobId w)) = jobId +:+ "_" +:+ pretty (now w)
  /\ JobExecution.startTime (fst (startExecution jobId w)) = now w
  /\ now (snd (startExecution jobId w)) = now w.
Proof. repeat split. Qed.

(** Every way through [runExecution]: the log grows by the write of
    [pending], then by what the [try] block logs, then, unless the call hangs,
    by the write of the final status and the event. *)
Lemma runExecution_log jobId job w r w' :
  runExecution jobId job w = (r, w') ->
  let executionId := jobId +:+ "_" +:+ pretty (now w) in
  exists middle closing,
    log w' = log w ++ [StatusWrite executionId JobExecution.pending] ++ middle ++ closing
    /\ Forall (quietEvent true executionId) middle
    /\ match r with
       | Ret e =>
           JobExecution.id e = executionId
           /\ JobExecution.startTime e = now w
           /\ (exists t, JobExecution.endTime e = Some t /\ now w <= t)
           /\ exists last,
                closing = [StatusWrite executionId (JobExecution.status e); last]
                /\ ((JobExecution.status e = JobExecution.failed
                     /\ exists job' error, last = JobFailed job' e error)
                    \/ (JobExecution.status e = JobExecution.completed
                        /\ (exists job', last = JobCompleted job' e)
                        /\ (In (StatusWrite executionId JobExecution.running) middle
                            \/ In QueueTimeout middle)))
       | Throw _ => False
       | Hang => closing = []
       end.
Proof.
  intros Hrun executionId.
  destruct (startExecution_log jobId w) as (L0 & I0 & T0 & N0). fold executionId in L0, I0.
  destruct (tryBlock jobId job (startExecution jobId w)) as [rt s1] eqn:Htry.
  destruct (steady_tryBlock _ _ _ _ _ Htry) as ((middle & L1 & Q1 & N1 & _) & I1 & T1).
  pose proof L1 as L1'.
  rewrite I0 in Q1, I1. rewrite T0 in T1. rewrite N0 in N1. rewrite L0 in L1.
  exists middle. destruct rt as [result|error|].
  - destruct (runExecution_completed _ _ _ _ _ Htry)
      as (e & w1 & job' & Heq & Hst & _ & Hend & Hid & Hstart & Hlog & _).
    rewrite Heq in Hrun. injection Hrun as <- <-.
    rewrite I1 in Hid, Hlog. rewrite T1 in Hstart.
    eexists. split; [rewrite Hlog, L1, <- !app_assoc; reflexivity|].
    split; [exact Q1|]. split; [exact Hid|]. split; [exact Hstart|].
    split; [eauto|]. eexists. rewrite Hst. split; [reflexivity|].
    right. split; [reflexivity|]. split; [eauto|].
    pose proof (ranIfReturned_tryBlock _ _ _ _ _ Htry) as Hran.
    rewrite I0, (since_app _ _ _ L1') in Hran. exact Hran.
  - destruct (runExecution_failed _ _ _ _ _ Htry)
      as (e & w1 & job' & Heq & Hst & _ & Hend & Hid & Hstart & Hlog & _).
    rewrite Heq in Hrun. injection Hrun as <- <-.
    rewrite I1 in Hid, Hlog. rewrite T1 in Hstart.
    eexists. split; [rewrite Hlog, L1, <- !app_assoc; reflexivity|].
    split; [exact Q1|]. split; [exact Hid|]. split; [exact Hstart|].
    split; [eauto|]. eexists. rewrite Hst. split; [reflexivity|].
    left. split; [reflexivity|]. eauto.
  - rewrite (runExecution_hang _ _ _ _ Htry) in Hrun. injection Hrun as <- <-.
    exists []. rewrite app_nil_r.
    split; [rewrite L1, <- app_assoc; reflexivity|]. split; [exact Q1 | reflexivity].
Qed.

(** An execution whose task the queue cut is booked as the queue library
    settles the cut: as a failure with the timeout message, or as completed
    with [undefined]. *)
Lemma runExecution_cut jobId job w e w' :
  runExecution jobId job w = (Ret e, w') ->
  In QueueTimeout (since w w') ->
  (throwOnTimeout (env w) = true ->
   JobExecution.status e = JobExecution.failed
   /\ JobExecution.error e
      = Some (timeoutMessage (env w)
                (ScheduledJob.timeout (ScheduledJob.definition job))))
  /\ (throwOnTimeout (env w) = false ->
      JobExecution.status e = JobExecution.completed
      /\ JobExecution.result e = Some undefined).
Proof.
  intros Hrun Hin.
  destruct (startExecution_log jobId w) as (L0 & _).
  destruct (tryBlock jobId job (startExecution jobId w)) as [rt s1] eqn:Htry.
  destruct (steady_tryBlock _ _ _ _ _ Htry) as ((middle & L1 & _) & _).
  pose proof (cutDecides_tryBlock _ _ _ _ _ Htry) as Hcut.
  rewrite (since_app _ _ _ L1) in Hcut. change (env (snd (startExecution jobId w)))
    with (env w) in Hcut.
  destruct rt as [result|error|].
  - destruct (runExecution_completed _ _ _ _ _ Htry)
      as (e0 & w0 & job' & Heq & Hst & Hres & _ & _ & _ & Hlog & _).
    rewrite Heq in Hrun. injection Hrun as <- <-.
    rewrite L1, L0, <- !app_assoc in Hlog. rewrite (since_app _ _ _ Hlog) in Hin.
    assert (Hmid : In QueueTimeout middle).
    { apply in_app_or in Hin as [[Hin|[]]|Hin]; [discriminate|].
      apply in_app_or in Hin as [Hin|[Hin|[Hin|[]]]]; [exact Hin | discriminate..]. }
    specialize (Hcut Hmid). split; intros Hlib; rewrite Hlib in Hcut; [discriminate|].
    injection Hcut as ->. split; assumption.
  - destruct (runExecution_failed _ _ _ _ _ Htry)
      as (e0 & w0 & job' & Heq & Hst & Herr & _ & _ & _ & Hlog & _).
    rewrite Heq in Hrun. injection Hrun as <- <-.
    rewrite L1, L0, <- !app_assoc in Hlog. rewrite (since_app _ _ _ Hlog) in Hin.
    assert (Hmid : In QueueTimeout middle).
    { apply in_app_or in Hin as [[Hin|[]]|Hin]; [discriminate|].
      apply in_app_or in Hin as [Hin|[Hin|[Hin|[]]]]; [exact Hin | discriminate..]. }
    specialize (Hcut Hmid). split; intros Hlib; rewrite Hlib in Hcut; [|discriminate].
    injection Hcut as ->. split; assumption.
  - rewrite (runExecution_hang _ _ _ _ Htry) in Hrun. discriminate.
Qed.

(** ** Calls that settle *)

Lemma settles_ret {S A} (a : A) : settlesAlways (@ret S A a).
Proof. intros s r s' [= <- <-]. discriminate. Qed.

Lemma settles_throw {S A} e : settlesAlways (@throw S A e).
Proof. intros s r s' [= <- <-]. discriminate. Qed.

Lemma settles_bind {S A B} (c : M S A) (k : A -> M S B) :
  settlesAlways c -> (forall a, settlesAlways (k a)) -> settlesAlways (bind c k).
Proof.
  intros Hc Hk s r s'. unfold bind.
  destruct (c s) as [[a|e|] s1] eqn:Hcs.
  - apply Hk.
  - intros [= <- <-]. discriminate.
  - exfalso. exact (Hc _ _ _ Hcs eq_refl).
Qed.

Lemma settles_try_catch {S A} (c : M S A) (h : Thrown -> M S A) :
  settlesAlways c -> (forall e, settlesAlways (h e)) -> settlesAlways (try_catch c h).
Proof.
  intros Hc Hh s r s'. unfold try_catch.
  destruct (c s) as [[a|e|] s1] eqn:Hcs.
  - intros [= <- <-]. discriminate.
  - apply Hh.
  - exfalso. exact (Hc _ _ _ Hcs eq_refl).
Qed.

Lemma settles_lift {A} (c : M World A) : settlesAlways c -> settlesAlways (lift c).
Proof.
  intros Hc s r s'. unfold lift.
  destruct (c (snd s)) as [r1 w1] eqn:Hcw. intros [= <- <-]. exact (Hc _ _ _ Hcw).
Qed.

Lemma settles_total {S A} (f : S -> A * S) :
  settlesAlways (fun s => (Ret (fst (f s)), snd (f s))).
Proof. intros s r s' [= <- <-]. discriminate. Qed.

Lemma settles_executeJobLogic job : settlesAlways (executeJobLogic job).
Proof.
  unfold executeJobLogic, runBody.
  destruct (ScheduledJob.target_type (ScheduledJob.definition job));
    try (intros w r w'; destruct (settles _); intros [= <- <-]; discriminate).
  apply settles_throw.
Qed.

Lemma settles_retryLoop rounds : forall attempt job lastError,
  settlesAlways (retryLoop rounds attempt job lastError).
Proof.
  induction rounds as [|rounds IH]; intros attempt job lastError; cbn [retryLoop].
  - apply settles_throw.
  - apply settles_bind; [intros s r s' [= <- <-]; discriminate|].
    intros _. apply settles_bind; [intros s r s' [= <- <-]; discriminate|].
    intros _. apply settles_try_catch.
    + apply settles_bind; [apply settles_lift; intros s r s' [= <- <-]; discriminate|].
      intros before.
      apply settles_bind; [apply settles_lift; intros s r s' [= <- <-]; discriminate|].
      intros t0.
      apply settles_bind; [apply settles_lift, settles_executeJobLogic|]. intros result.
      apply settles_bind; [apply settles_lift; intros s r s' [= <- <-]; discriminate|].
      intros t1.
      apply settles_bind; [apply settles_lift; intros s r s' [= <- <-]; discriminate|].
      intros after.
      apply settles_bind; [intros s r s' [= <- <-]; discriminate|].
      intros _. apply settles_ret.
    + intros e. apply settles_bind; [|intros _; apply IH].
      destruct (_ <? _); [|apply settles_ret].
      apply settles_lift. unfold backoff.
      apply settles_bind; [intros s r s' [= <- <-]; discriminate|].
      intros _ s r s' [= <- <-]. discriminate.
Qed.

Lemma settles_PQueue_add queue timeout (job : M Frame Value) :
  settlesAlways job -> settlesAlways (PQueue_add queue timeout job).
Proof.
  intros Hjob s r s'. unfold PQueue_add.
  destruct (job s) as [r1 s1] eqn:Hrun. specialize (Hjob _ _ _ Hrun).
  destruct r1 as [v|e|]; [| |contradiction];
    destruct (_ <? _); try destruct (throwOnTimeout _); intros [= <- <-]; discriminate.
Qed.

(** With a calm reading among the next [polls], the wait ends. *)
Lemma checkResources_settles polls : forall w,
  (exists k, (k < polls)%nat
             /\ ResourceMonitor.isSystemOverloaded (memoryUsage (env w) (heapReads w + k))
                = false) ->
  exists w', checkResources polls w = (Ret tt, w').
Proof.
  induction polls as [|polls IH]; intros w (k & Hk & Hcalm); [lia|].
  cbn [checkResources]. unfold isSystemOverloaded. unfold_monad.
  destruct (ResourceMonitor.isSystemOverloaded (memoryUsage (env w) (heapReads w))) eqn:Hnow;
    [|eauto].
  destruct k as [|k]; [rewrite Nat.add_0_r in Hcalm; congruence|].
  replace (heapReads w + S k)%nat with (S (heapReads w) + k)%nat in Hcalm by lia.
  apply IH. exists k. split; [lia | exact Hcalm].
Qed.

Lemma addJob_settles priority timeout job s r s' :
  calmWithin (snd s) ->
  addJob priority (runJobWithRetry job) timeout s = (r, s') -> r <> Hang.
Proof.
  intros (k & Hk & Hcalm). unfold addJob.
  destruct (jobQueue (snd s) !! priority) as [queue|]; [|intros [= <- <-]; discriminate].
  unfold bind at 1. unfold lift at 1, isSystemOverloaded. unfold_monad. cbn [fst snd].
  destruct (ResourceMonitor.isSystemOverloaded (memoryUsage (env (snd s)) (heapReads (snd s))))
    eqn:Hnow.
  - destruct k as [|k]; [rewrite Nat.add_0_r in Hcalm; congruence|].
    unfold waitForResources. cbn [env set_heapReads].
    destruct (checkResources_settles (patience (env (snd s)))
                (set_heapReads (S (heapReads (snd s))) (snd s))) as (w1 & Hwait).
    { replace (heapReads (snd s) + S k)%nat with (S (heapReads (snd s)) + k)%nat
        in Hcalm by lia.
      exists k. split; [lia | exact Hcalm]. }
    cbn [fst snd env set_heapReads]. rewrite Hwait. apply settles_PQueue_add, settles_retryLoop.
  - apply settles_PQueue_add, settles_retryLoop.
Qed.

(** Enough patience gives a result: when the overload, if any, clears within
    the polls the model follows, [executeJob] settles. *)
Lemma executeJob_settles jobId manual w r w' :
  calmWithin w -> executeJob jobId manual w = (r, w') -> r <> Hang.
Proof.
  intros Hcalm. unfold executeJob.
  destruct (jobs w !! jobId) as [job|]; [|intros [= <- <-]; discriminate].
  destruct (_ && _); [intros [= <- <-]; discriminate|].
  destruct (_ && _); [intros [= <- <-]; discriminate|].
  destruct (tryBlock jobId job (startExecution jobId w)) as [rt s1] eqn:Htry.
  destruct rt as [result|error|].
  - destruct (runExecution_completed _ _ _ _ _ Htry) as (e & w1 & job' & Heq & _).
    rewrite Heq. intros [= <- <-]. discriminate.
  - destruct (runExecution_failed _ _ _ _ _ Htry) as (e & w1 & job' & Heq & _).
    rewrite Heq. intros [= <- <-]. discriminate.
  - exfalso. revert Htry. unfold tryBlock, CircuitBreaker.execute.
    set (cb := default _ _).
    set (s0 := (fst (startExecution jobId w), set_circuitBreakers _ _)).
    destruct (CircuitBreaker.enter _ cb) as [cb1|]; [|discriminate].
    destruct (addJob _ _ _ s0) as [r1 s2] eqn:Hrun.
    pose proof (addJob_settles _ _ _ s0 _ _ Hcalm Hrun) as Hno.
    destruct r1; [discriminate | discriminate | contradiction].
Qed.

(** ** The dependency gate in executeJob *)

(** C3 as stated fails.  ["report"] depends on ["feed"], which is not in the
    registry, so the gate is not ready; the manual execution is not refused:
    it runs and completes. *)
Lemma manual_run_passes_unready_gate :
  checkDependencies (jobs worldReportAlone)
    (ScheduledJob.dependencies reportData) = false
  /\ exists e w',
       executeJob "report" true worldReportAlone = (Ret e, w')
       /\ JobExecution.status e = JobExecution.completed
       /\ In (BodyRun 0) (log w').
Proof.
  split; [reflexivity|].
  eexists _, _. split; [vm_compute; reflexivity|].
  split; [reflexivity|]. vm_compute. tauto.
Qed.

(** C3, as the code has it.  For a registered job whose dependencies are not
    ready, the automatic firing of the enabled job is refused with the
    dependency error and changes nothing; the manual execution does not
    consult the gate: it is [runExecution], it never settles with an error,
    it returns an execution as soon as the overload of the system, if any,
    clears within the polls the model follows, and it creates the execution,
    writing [pending] first. *)
Theorem gate_guards_automatic_runs_only (w : World) (jobId : string) (job : ScheduledJob.t)
  (Hjob : jobs w !! jobId = Some job)
  (Hunready : checkDependencies (jobs w)
                (ScheduledJob.dependencies (ScheduledJob.definition job)) = false) :
  (ScheduledJob.enabled (ScheduledJob.definition job) = true ->
   executeJob jobId false w
   = (Throw (JsError ("Job dependencies not met: " +:+ jobId)), w))
  /\ executeJob jobId true w = runExecution jobId job w
  /\ (forall r w',
        executeJob jobId true w = (r, w') ->
        (forall error, r <> Throw error)
        /\ (calmWithin w -> exists e, r = Ret e)
        /\ exists later,
             log w' = log w
                      ++ StatusWrite (jobId +:+ "_" +:+ pretty (now w)) JobExecution.pending
                         :: later).
Proof.
  assert (Hmanual : executeJob jobId true w = runExecution jobId job w).
  { unfold executeJob. rewrite Hjob, !andb_false_r. reflexivity. }
  split; [|split; [exact Hmanual|]].
  - intros Hen. unfold executeJob. rewrite Hjob, Hen, Hunready. reflexivity.
  - intros r w' Hrun.
    pose proof (fun Hcalm => executeJob_settles _ _ _ _ _ Hcalm Hrun) as Hsettles.
    rewrite Hmanual in Hrun.
    destruct (runExecution_log _ _ _ _ _ Hrun) as (middle & closing & Hlog & _ & Hr).
    split; [|split].
    + intros error ->. exact Hr.
    + intros Hcalm. specialize (Hsettles Hcalm).
      destruct r as [e|error|]; [eauto | contradiction | congruence].
    + exists (middle ++ closing). exact Hlog.
Qed.

(** The theorem on the registry where ["report"] stands alone. *)
Lemma gate_guards_automatic_runs_only_witness :
  (jobs worldReportAlone !! "report" = Some (ScheduledJob.with_metadata
       (ScheduledJob.with_nextRun (Some 61000) (freshMetadata 1000)) reportJob)
   /\ checkDependencies (jobs worldReportAlone) ["feed"] = false)
  /\ executeJob "report" false worldReportAlone
     = (Throw (JsError "Job dependencies not met: report"), worldReportAlone).
Proof.
  assert (H1 : jobs worldReportAlone !! "report" = Some (ScheduledJob.with_metadata
       (ScheduledJob.with_nextRun (Some 61000) (freshMetadata 1000)) reportJob))
    by (vm_compute; reflexivity).
  assert (H2 : checkDependencies (jobs worldReportAlone) ["feed"] = false)
    by (vm_compute; reflexivity).
  split; [split; assumption|].
  exact (proj1 (gate_guards_automatic_runs_only worldReportAlone "report" _ H1 H2) eq_refl).
Defined.

(** ** Failed executions *)

(** C4 as stated fails.  The body of ["feed"] takes five seconds against a
    time budget of one, and the queue cuts the task.  Where the queue rejects
    with its timeout error the execution is marked [failed], not [timeout];
    where it resolves with [undefined] the execution is marked [completed]
    and no failure is booked at all. *)
Lemma timed_out_run_is_never_marked_timeout :
  (exists e w',
     executeJob "feed" false worldFeedSlow = (Ret e, w')
     /\ In QueueTimeout (log w')
     /\ JobExecution.status e = JobExecution.failed
     /\ JobExecution.status e <> JobExecution.timeout)
  /\ (exists e w' job',
        executeJob "feed" false worldFeedSlowResolving = (Ret e, w')
        /\ In QueueTimeout (log w')
        /\ JobExecution.result e = Some undefined
        /\ JobExecution.status e = JobExecution.completed
        /\ JobExecution.status e <> JobExecution.timeout
        /\ jobs w' !! "feed" = Some job'
        /\ ScheduledJob.errorCount (ScheduledJob.metadata job') = 0).
Proof.
  split.
  - eexists _, _. split; [vm_compute; reflexivity|].
    split; [vm_compute; tauto|].
    split; [reflexivity | discriminate].
  - eexists _, _, _. split; [vm_compute; reflexivity|].
    split; [vm_compute; tauto|].
    split; [reflexivity|]. split; [reflexivity|]. split; [discriminate|].
    split; [vm_compute; reflexivity | reflexivity].
Qed.

Lemma tryBlock_rejects_when_open jobId job s cb :
  circuitBreakers (snd s) !! jobId = Some cb ->
  CircuitBreaker.state cb = CircuitBreaker.open ->
  now (snd s) - CircuitBreaker.lastFailureTime cb <= CircuitBreaker.timeout cb ->
  tryBlock jobId job s
  = (Throw CircuitBreaker.rejection,
     (fst s,
      set_circuitBreakers
        (<[jobId := cb]> (<[jobId := cb]> (circuitBreakers (snd s)))) (snd s))).
Proof.
  intros Hcb Hopen Hcool.
  pose proof (enter_open_cooling (now (snd s)) cb Hopen Hcool) as Hen.
  unfold tryBlock. rewrite Hcb. cbn [from_option id].
  unfold CircuitBreaker.execute. cbn beta iota. cbn [fst snd].
  change (now (set_circuitBreakers (<[jobId:=cb]> (circuitBreakers (snd s))) (snd s)))
    with (now (snd s)).
  rewrite Hen. reflexivity.
Qed.

(** C4, as the code has it.  Whenever the [try] block of an accepted
    execution throws, whatever the error: the execution returned has status
    [failed], its [error] is the message of what was thrown, the job's
    [errorCount] is one more than before, and the last event is [job:failed]
    with the job, the execution and the error.  A call on an open breaker
    within its cooldown is such a throw, with the rejection of the breaker,
    before anything but [pending] is written.  When the queue cuts the task
    that ran out of its time and rejects, the execution is [failed] and its
    [error] is the message of the library's timeout error, whatever its
    text.  No execution is ever returned with status [timeout]: it is
    [completed] or [failed]. *)
Theorem failed_execution_bookkeeping (w : World) (jobId : string) (manual : bool)
  (job : ScheduledJob.t)
  (Hjob : jobs w !! jobId = Some job)
  (Hguards : manual = true
             \/ (ScheduledJob.enabled (ScheduledJob.definition job) = true
                 /\ checkDependencies (jobs w)
                      (ScheduledJob.dependencies (ScheduledJob.definition job)) = true)) :
  (forall error s1,
     tryBlock jobId job (startExecution jobId w) = (Throw error, s1) ->
     exists e w' job',
       executeJob jobId manual w = (Ret e, w')
       /\ JobExecution.status e = JobExecution.failed
       /\ JobExecution.error e = Some (errorMessage error)
       /\ jobs w' !! jobId = Some job'
       /\ ScheduledJob.errorCount (ScheduledJob.metadata job')
          = ScheduledJob.errorCount (ScheduledJob.metadata job) + 1
       /\ last (log w') = Some (JobFailed job' e error))
  /\ (forall cb,
        circuitBreakers w !! jobId = Some cb ->
        CircuitBreaker.state cb = CircuitBreaker.open ->
        now w - CircuitBreaker.lastFailureTime cb <= CircuitBreaker.timeout cb ->
        exists s1,
          tryBlock jobId job (startExecution jobId w) = (Throw CircuitBreaker.rejection, s1)
          /\ since w (snd s1)
             = [StatusWrite (jobId +:+ "_" +:+ pretty (now w)) JobExecution.pending])
  /\ (forall e w',
        executeJob jobId manual w = (Ret e, w') ->
        In QueueTimeout (since w w') ->
        throwOnTimeout (env w) = true ->
        JobExecution.status e = JobExecution.failed
        /\ JobExecution.error e
           = Some (timeoutMessage (env w)
                     (ScheduledJob.timeout (ScheduledJob.definition job))))
  /\ (forall e w',
        executeJob jobId manual w = (Ret e, w') ->
        JobExecution.status e = JobExecution.completed
        \/ JobExecution.status e = JobExecution.failed).
Proof.
  assert (Hrun : executeJob jobId manual w = runExecution jobId job w).
  { unfold executeJob. rewrite Hjob.
    destruct Hguards as [-> | [-> ->]]; [rewrite !andb_false_r | rewrite andb_false_r];
      reflexivity. }
  split; [|split; [|split]].
  - intros error s1 Htry.
    destruct (runExecution_failed _ _ _ _ _ Htry)
      as (e & w' & job' & Heq & Hst & Herr & _ & _ & _ & Hlog & Hreg & Hcount & _).
    exists e, w', job'. rewrite Hrun.
    repeat split; try assumption.
    rewrite Hlog, last_app. reflexivity.
  - intros cb Hcb Hopen Hcool. eexists. split.
    + apply (tryBlock_rejects_when_open jobId job (startExecution jobId w) cb);
        assumption.
    + apply since_app. reflexivity.
  - intros e w' Hret Hin Hlib. rewrite Hrun in Hret.
    exact (proj1 (runExecution_cut _ _ _ _ _ Hret Hin) Hlib).
  - intros e w' Hret. rewrite Hrun in Hret.
    destruct (runExecution_log _ _ _ _ _ Hret)
      as (_ & _ & _ & _ & _ & _ & _ & _ & _ & [[Hst _]|[Hst _]]); tauto.
Qed.

(** The theorem on the job whose breaker is open: the manual call is
    rejected by the breaker and booked as a failure. *)
Lemma failed_execution_bookkeeping_witness :
  exists job,
    (jobs worldBreakerOpen !! "feed" = Some job
     /\ (true = true
         \/ (ScheduledJob.enabled (ScheduledJob.definition job) = true
             /\ checkDependencies (jobs worldBreakerOpen)
                  (ScheduledJob.dependencies (ScheduledJob.definition job)) = true)))
    /\ exists e w' job',
         executeJob "feed" true worldBreakerOpen = (Ret e, w')
         /\ JobExecution.status e = JobExecution.failed
         /\ JobExecution.error e = Some "Circuit breaker is OPEN - operation rejected"
         /\ ScheduledJob.errorCount (ScheduledJob.metadata job')
            = ScheduledJob.errorCount (ScheduledJob.metadata job) + 1.
Proof.
  eexists. split; [split; [vm_compute; reflexivity | left; reflexivity]|].
  match goal with
  | |- context [ScheduledJob.metadata ?j] =>
      destruct (failed_execution_bookkeeping worldBreakerOpen "feed" true j
                  ltac:(vm_compute; reflexivity) (or_introl eq_refl))
        as (Hbook & Hopen & _ & _)
  end.
  destruct (Hopen (CircuitBreaker.onFailure 1007 (CircuitBreaker.new 1 60000)))
    as (s1 & Htry & _); [vm_compute; reflexivity | reflexivity | vm_compute; discriminate |].
  destruct (Hbook _ _ Htry) as (e & w' & job' & Hrun & Hst & Herr & _ & Hcount & _).
  exists e, w', job'. repeat split; assumption.
Defined.

(** ** The path of an execution's status *)

Lemma statusesOf_app l1 l2 : statusesOf (l1 ++ l2) = statusesOf l1 ++ statusesOf l2.
Proof. unfold statusesOf. apply flat_map_app. Qed.

(** What the [try] block logs writes no status but [running]. *)
Lemma statusesOf_quiet cut id (events : list Event) :
  Forall (quietEvent cut id) events ->
  exists k,
    statusesOf events = repeat JobExecution.running k
    /\ (In (StatusWrite id JobExecution.running) events -> (1 <= k)%nat).
Proof.
  induction 1 as [|ev events Hev _ (k & IH & Hk)].
  - exists 0%nat. split; [reflexivity | intros []].
  - destruct ev as [i st| | | | | | |]; simpl in Hev; try contradiction.
    + destruct Hev as [-> ->]. exists (S k).
      split; [cbn [repeat]; rewrite <- IH; reflexivity | intros _; lia].
    + exists k. split; [rewrite <- IH; reflexivity|].
      intros [Hin|Hin]; [discriminate | auto].
    + exists k. split; [rewrite <- IH; reflexivity|].
      intros [Hin|Hin]; [discriminate | auto].
    + exists k. split; [rewrite <- IH; reflexivity|].
      intros [Hin|Hin]; [discriminate | auto].
    + exists k. split; [rewrite <- IH; reflexivity|].
      intros [Hin|Hin]; [discriminate | auto].
Qed.

(** C6 as stated fails.  ["feed"] failed once and its breaker is open; the
    next execution is rejected by the breaker, and the only statuses written
    for it are [pending] and then [failed]: it never was [running]. *)
Lemma rejected_run_skips_running :
  exists e w',
    executeJob "feed" false worldBreakerOpen = (Ret e, w')
    /\ JobExecution.error e = Some "Circuit breaker is OPEN - operation rejected"
    /\ statusesOf (since worldBreakerOpen w')
       = [JobExecution.pending; JobExecution.failed].
Proof.
  eexists _, _. split; [vm_compute; reflexivity|].
  split; reflexivity.
Qed.

(** C6, as the code has it, for an execution that the queue does not cut by
    its timeout.  Once [endTime] is set it is no earlier than [startTime].
    The statuses written for the execution are [pending], then [running] some
    number of times (once per attempt), then the status it is returned with,
    which is [completed] or [failed]: the order is never reversed, and
    [timeout] is never written.  An execution that completes has been
    [running]; one that fails before the retry loop starts, as on an open
    breaker, goes from [pending] to [failed]. *)
Theorem execution_status_path (w : World) (jobId : string) (manual : bool)
  (e : JobExecution.t) (w' : World)
  (Hrun : executeJob jobId manual w = (Ret e, w'))
  (Huncut : ~ In QueueTimeout (since w w')) :
  (exists t, JobExecution.endTime e = Some t /\ JobExecution.startTime e <= t)
  /\ exists k,
       statusesOf (since w w')
       = JobExecution.pending :: repeat JobExecution.running k ++ [JobExecution.status e]
       /\ ((JobExecution.status e = JobExecution.completed /\ (1 <= k)%nat)
           \/ JobExecution.status e = JobExecution.failed).
Proof.
  assert (Hex : exists job, runExecution jobId job w = (Ret e, w')).
  { unfold executeJob in Hrun.
    destruct (jobs w !! jobId) as [job|]; [|discriminate].
    destruct (_ && _); [discriminate|]. destruct (_ && _); [discriminate|]. eauto. }
  destruct Hex as (job & Hexec).
  destruct (runExecution_log _ _ _ _ _ Hexec)
    as (middle & closing & Hlog & Hquiet & _ & Hstart & (t & Hend & Ht) & last & -> & Hlast).
  rewrite (since_app _ _ _ Hlog) in Huncut |- *.
  split; [exists t; split; [exact Hend | lia]|].
  destruct (statusesOf_quiet _ _ _ Hquiet) as (k & Hmid & Hk).
  exists k. split.
  - cbn [app]. cbn [statusesOf flat_map app]. fold (statusesOf (middle ++ [StatusWrite
      (jobId +:+ "_" +:+ pretty (now w)) (JobExecution.status e); last])).
    rewrite statusesOf_app, Hmid. f_equal. f_equal.
    destruct Hlast as [(_ & job' & error & ->)|(_ & (job' & ->) & _)]; reflexivity.
  - destruct Hlast as [(Hst & _)|(Hst & _ & [Hin|Hin])].
    + right. exact Hst.
    + left. split; [exact Hst | exact (Hk Hin)].
    + exfalso. apply Huncut.
      apply in_or_app. right. apply in_or_app. left. exact Hin.
Qed.

(** The theorem on the manual run of ["report"]: pending, running, completed. *)
Lemma execution_status_path_witness :
  exists e w',
    (executeJob "report" true worldReportAlone = (Ret e, w')
     /\ ~ In QueueTimeout (since worldReportAlone w'))
    /\ (exists t, JobExecution.endTime e = Some t /\ JobExecution.startTime e <= t)
    /\ statusesOf (since worldReportAlone w')
       = [JobExecution.pending; JobExecution.running; JobExecution.completed].
Proof.
  assert (Hrun : executeJob "report" true worldReportAlone
                 = (fst (executeJob "report" true worldReportAlone),
                    snd (executeJob "report" true worldReportAlone)))
    by (destruct (executeJob "report" true worldReportAlone); reflexivity).
  match type of Hrun with
  | _ = (?r, ?w1) =>
      assert (Hret : exists e, r = Ret e) by (vm_compute; eauto);
      assert (Huncut : ~ In QueueTimeout (since worldReportAlone w1))
        by (vm_compute; intuition discriminate)
  end.
  destruct Hret as (e & He). rewrite He in Hrun.
  exists e, (snd (executeJob "report" true worldReportAlone)).
  split; [split; [exact Hrun | exact Huncut]|].
  split; [exact (proj1 (execution_status_path _ _ _ _ _ Hrun Huncut))|].
  vm_compute. reflexivity.
Defined.

(** ** createJob on an id that is taken *)

Lemma taskRunning_kept h (w : World) (task : CronTask) cts js :
  taskRunning h w = true ->
  taskRunning h
    (set_jobs js
       (set_timers (startTask (length (timers w)) (timers w ++ [task]))
          (set_cronTasks cts w))) = true.
Proof.
  unfold taskRunning. cbn [timers set_jobs set_timers set_cronTasks].
  destruct (timers w !! h) as [t|] eqn:Hh; [|discriminate].
  intros Hstarted. pose proof (lookup_lt_Some _ _ _ Hh) as Hlt.
  unfold startTask. rewrite list_lookup_alter_ne by lia.
  rewrite lookup_app_l by assumption. rewrite Hh. exact Hstarted.
Qed.

(** C10. [createJob] has no check of the id.  For every definition whose id
    is taken: the outcome of the call is its outcome on the same registry
    without the id, and it throws nothing but the error of the schema or of
    the cron validation.  When the definition passes both, the call returns
    the id and the registry holds the new definition with the counters at
    zero; if the definition is enabled, one more task exists, it is started
    and stands under the id, and every task that existed is as it was:
    whatever was running keeps running, the task that stood under the id
    before included; if it is not enabled, the tasks are as they were. *)
Theorem createJob_replaces_silently (d : ScheduledJob.JobData) (w : World)
  (old : ScheduledJob.t)
  (Htaken : jobs w !! ScheduledJob.id d = Some old) :
  fst (createJob d w)
  = fst (createJob d (set_jobs (delete (ScheduledJob.id d) (jobs w)) w))
  /\ (forall error,
        fst (createJob d w) = Throw error ->
        error = ZodError (schemaIssues d)
        \/ error = JsError ("Invalid cron expression: " +:+ ScheduledJob.cronExpression d))
  /\ (schemaIssues d = [] ->
      cron_validate (env w) (ScheduledJob.cronExpression d) = true ->
      exists w' job',
        createJob d w = (Ret (ScheduledJob.id d), w')
        /\ jobs w' !! ScheduledJob.id d = Some job'
        /\ ScheduledJob.definition job' = d
        /\ ScheduledJob.runCount (ScheduledJob.metadata job') = 0
        /\ ScheduledJob.errorCount (ScheduledJob.metadata job') = 0
        /\ ScheduledJob.averageRunTime (ScheduledJob.metadata job') = 0
        /\ ScheduledJob.lastRun (ScheduledJob.metadata job') = None
        /\ ScheduledJob.createdAt (ScheduledJob.metadata job') = now w
        /\ (ScheduledJob.enabled d = true ->
            cronTasks w' !! ScheduledJob.id d = Some (length (timers w))
            /\ timers w' !! length (timers w)
               = Some {| expression := ScheduledJob.cronExpression d;
                         fires := ScheduledJob.id d;
                         started := true |}
            /\ length (timers w') = S (length (timers w))
            /\ (forall h task, timers w !! h = Some task -> timers w' !! h = Some task)
            /\ (forall h, taskRunning h w = true -> taskRunning h w' = true))
        /\ (ScheduledJob.enabled d = false ->
            timers w' = timers w /\ cronTasks w' = cronTasks w)).
Proof.
  unfold createJob, JobSchema_parse, scheduleJob, persistJobs.
  destruct (schemaIssues d) as [|issue issues] eqn:Hschema; unfold_monad;
    cbn [env set_jobs fst];
    [|split; [reflexivity|]; split; [intros error [= <-]; left; reflexivity | discriminate]].
  destruct (cron_validate (env w) (ScheduledJob.cronExpression d)) eqn:Hcron; cbn [negb];
    [|split; [reflexivity|]; split; [intros error [= <-]; right; reflexivity | discriminate]].
  split; [destruct (ScheduledJob.enabled d); cron_checked Hcron; reflexivity|].
  split; [destruct (ScheduledJob.enabled d); cron_checked Hcron; discriminate|].
  intros _ _.
  destruct (ScheduledJob.enabled d) eqn:Hen; cron_checked Hcron; cbn.
  - eexists _, _. split; [reflexivity|]. cbn.
    rewrite !lookup_insert_eq.
    repeat split; try reflexivity; try discriminate.
    + unfold startTask. rewrite list_lookup_alter_eq, lookup_app_r by lia.
      rewrite Nat.sub_diag. reflexivity.
    + unfold startTask. rewrite length_alter, length_app. cbn. lia.
    + intros h task Hh. pose proof (lookup_lt_Some _ _ _ Hh) as Hlt.
      unfold startTask. rewrite list_lookup_alter_ne by lia.
      rewrite lookup_app_l by assumption. exact Hh.
    + intros h Hh. apply (taskRunning_kept h w); exact Hh.
  - eexists _, _. split; [reflexivity|]. cbn.
    rewrite lookup_insert_eq. repeat split; try reflexivity; discriminate.
Qed.

(** The theorem on a second [createJob] for ["feed"]: the id comes back, the
    new task has handle 1, and the task with handle 0, installed by the first
    call for the same id, is still running beside it. *)
Lemma createJob_replaces_silently_witness :
  exists old,
    jobs worldFeedScheduled !! ScheduledJob.id feedDataHourly = Some old
    /\ exists w',
         createJob feedDataHourly worldFeedScheduled = (Ret "feed", w')
         /\ cronTasks worldFeedScheduled !! "feed" = Some 0%nat
         /\ cronTasks w' !! "feed" = Some 1%nat
         /\ taskRunning 0 w' = true
         /\ taskRunning 1 w' = true.
Proof.
  eexists. split; [vm_compute; reflexivity|].
  match goal with
  | |- context [createJob ?d ?w] =>
      destruct (createJob_replaces_silently d w _ ltac:(vm_compute; reflexivity))
        as (_ & _ & Hvalid)
  end.
  destruct (Hvalid eq_refl eq_refl)
    as (w' & job' & Heq & _ & _ & _ & _ & _ & _ & _ & Hen & _).
  destruct (Hen eq_refl) as (Hct & Htim & _ & _ & Hkeep).
  exists w'. split; [exact Heq|]. split; [vm_compute; reflexivity|].
  split; [exact Hct|]. split; [apply Hkeep; vm_compute; reflexivity|].
  unfold taskRunning.
  change 1%nat with (length (timers worldFeedScheduled)). rewrite Htim. reflexivity.
Defined.

(** ** The registry invariant *)

Lemma registry_wf_insert jobs id job :
  registry_wf jobs ->
  0 <= ScheduledJob.errorCount (ScheduledJob.metadata job) ->
  ScheduledJob.lastRun (ScheduledJob.metadata job) <> Some 0 ->
  registry_wf (<[id := job]> jobs).
Proof.
  intros Hwf Hcount Hrun id' job'. rewrite lookup_insert.
  destruct (decide (id = id')); [intros [= <-]; split; assumption | apply Hwf].
Qed.

Lemma registry_wf_new c e t : registry_wf (jobs (newManager c e t)).
Proof. intros id job. cbn. rewrite lookup_empty. discriminate. Qed.

(** [createJob] keeps the invariant: a new job has no error and no run. *)
Lemma createJob_keeps_registry_wf d w r w' :
  registry_wf (jobs w) -> createJob d w = (r, w') -> registry_wf (jobs w').
Proof.
  intros Hwf. unfold createJob, JobSchema_parse, scheduleJob, persistJobs.
  destruct (schemaIssues d); unfold_monad; [|intros [= <- <-]; exact Hwf].
  destruct (cron_validate _ _) eqn:Hcron; cbn [negb]; [|intros [= <- <-]; exact Hwf].
  destruct (ScheduledJob.enabled d); cron_checked Hcron; intros [= <- <-]; cbn;
    repeat (apply registry_wf_insert; cbn; [|lia|discriminate]); exact Hwf.
Qed.

(** [executeJob] keeps it as long as the clock is past the epoch: a failure
    adds one to [errorCount], a success sets [lastRun] to the start time. *)
Lemma executeJob_keeps_registry_wf jobId manual w r w' :
  registry_wf (jobs w) -> 0 < now w ->
  executeJob jobId manual w = (r, w') -> registry_wf (jobs w').
Proof.
  intros Hwf Hnow. unfold executeJob.
  destruct (jobs w !! jobId) as [job|] eqn:Hjob; [|intros [= <- <-]; exact Hwf].
  destruct (_ && _); [intros [= <- <-]; exact Hwf|].
  destruct (_ && _); [intros [= <- <-]; exact Hwf|].
  destruct (Hwf _ _ Hjob) as [Hcount Hlast].
  destruct (tryBlock jobId job (startExecution jobId w)) as [rt s1] eqn:Htry.
  destruct (steady_tryBlock _ _ _ _ _ Htry) as ((_ & _ & _ & _ & Hjobs & _) & _ & Hstart).
  cbn in Hjobs, Hstart.
  destruct rt as [result|error|].
  - destruct (runExecution_completed _ _ _ _ _ Htry)
      as (e & w1 & job' & Heq & _ & _ & _ & _ & _ & _ & _ & Hc & _ & Hl & Hreg).
    rewrite Heq. intros [= <- <-]. rewrite Hreg, Hjobs.
    apply registry_wf_insert; [exact Hwf | lia |]. rewrite Hl, Hstart. intros [= H]. lia.
  - destruct (runExecution_failed _ _ _ _ _ Htry)
      as (e & w1 & job' & Heq & _ & _ & _ & _ & _ & _ & _ & Hc & _ & _ & Hl & Hreg).
    rewrite Heq. intros [= <- <-]. rewrite Hreg, Hjobs.
    apply registry_wf_insert; [exact Hwf | lia | congruence].
  - rewrite (runExecution_hang _ _ _ _ Htry). intros [= <- <-]. rewrite Hjobs. exact Hwf.
Qed.

(** * Further properties of the module *)

(** ** Rounded averages *)

(** The rounded quotient of a sum of [n] terms between [lo] and [hi] lies
    between [lo] and [hi]. *)
Lemma round_div_between (total n lo hi : Z) :
  0 < n -> lo * n <= total <= hi * n -> lo <= round_div total n <= hi.
Proof.
  intros Hn [Hlo Hhi]. unfold round_div. split.
  - apply Z.div_le_lower_bound; nia.
  - assert ((2 * total + n) / (2 * n) < hi + 1); [|lia].
    apply Z.div_lt_upper_bound; nia.
Qed.

Lemma foldl_memory_between (lo hi : Z) (l : list ResourceMonitor.Reading) :
  forall acc,
    Forall (fun r => lo <= ResourceMonitor.r_memory r <= hi) l ->
    acc + lo * Z.of_nat (length l)
    <= foldl (fun sum r => sum + ResourceMonitor.r_memory r) acc l
    <= acc + hi * Z.of_nat (length l).
Proof.
  induction l as [|r l IH]; intros acc Hall; cbn [foldl length].
  - lia.
  - apply Forall_cons in Hall as [Hr Hall].
    specialize (IH (acc + ResourceMonitor.r_memory r) Hall).
    rewrite Nat2Z.inj_succ. nia.
Qed.

Lemma round_Q_between (total : Q) (n lo hi : Z) :
  0 < n ->
  (inject_Z lo * inject_Z n <= total)%Q -> (total <= inject_Z hi * inject_Z n)%Q ->
  lo <= round_Q (total / inject_Z n) <= hi.
Proof.
  intros Hn Hlo Hhi. unfold round_Q.
  assert (Hpos : (0 < inject_Z n)%Q)
    by (change 0%Q with (inject_Z 0); rewrite <- Zlt_Qlt; exact Hn).
  assert (H1 : (inject_Z lo <= total / inject_Z n)%Q) by (apply Qle_shift_div_l; assumption).
  assert (H2 : (total / inject_Z n <= inject_Z hi)%Q) by (apply Qle_shift_div_r; assumption).
  set (q := (total / inject_Z n)%Q) in *. split.
  - rewrite <- (Qfloor_Z lo). apply Qfloor_resp_le. lra.
  - assert (Qfloor (q + (1 # 2)) < hi + 1); [|lia].
    rewrite Zlt_Qlt. eapply Qle_lt_trans; [apply Qfloor_le|].
    rewrite inject_Z_plus. change (inject_Z 1) with 1%Q. lra.
Qed.

Lemma foldl_cpu_between (lo hi : Q) (l : list ResourceMonitor.Reading) :
  forall acc,
    Forall (fun r => (lo <= ResourceMonitor.r_cpu r)%Q /\ (ResourceMonitor.r_cpu r <= hi)%Q) l ->
    (acc + lo * inject_Z (Z.of_nat (length l))
     <= foldl (fun sum r => (sum + ResourceMonitor.r_cpu r)%Q) acc l)%Q
    /\ (foldl (fun sum r => (sum + ResourceMonitor.r_cpu r)%Q) acc l
        <= acc + hi * inject_Z (Z.of_nat (length l)))%Q.
Proof.
  induction l as [|r l IH]; intros acc Hall; cbn [foldl length].
  - change (inject_Z (Z.of_nat 0)) with 0%Q. split; lra.
  - apply Forall_cons in Hall as [[Hlo Hhi] Hall].
    destruct (IH (acc + ResourceMonitor.r_cpu r)%Q Hall) as [IHlo IHhi].
    rewrite Nat2Z.inj_succ, <- Z.add_1_r, inject_Z_plus. change (inject_Z 1) with 1%Q.
    split; lra.
Qed.

(** A list that is not empty has an element that a total preorder puts
    before all of them. *)
Lemma extreme_element {A : Type} (R : A -> A -> Prop) (l : list A) :
  (forall a b, R a b \/ R b a) ->
  (forall a b c, R a b -> R b c -> R a c) ->
  l <> [] ->
  exists m, m ∈ l /\ Forall (R m) l.
Proof.
  intros Htotal Htrans. induction l as [|a l IH]; intros Hne; [congruence|].
  destruct l as [|b l].
  - exists a. split; [left|]. constructor; [|constructor].
    destruct (Htotal a a); assumption.
  - destruct (IH ltac:(discriminate)) as (m & Hin & Hall).
    destruct (Htotal a m) as [Ham|Hma].
    + exists a. split; [left|]. constructor.
      * destruct (Htotal a a); assumption.
      * eapply Forall_impl; [exact Hall|]. intros x Hx. exact (Htrans _ _ _ Ham Hx).
    + exists m. split; [right; exact Hin|]. constructor; assumption.
Qed.

Lemma round_Q_monotone (p q : Q) : (p <= q)%Q -> round_Q p <= round_Q q.
Proof. intros Hle. unfold round_Q. apply Qfloor_resp_le. lra. Qed.

(** The mean of rationals that lie between two of them does so too. *)
Lemma mean_cpu_between (lo hi : Q) (l : list ResourceMonitor.Reading) :
  l <> [] ->
  Forall (fun r => (lo <= ResourceMonitor.r_cpu r)%Q /\ (ResourceMonitor.r_cpu r <= hi)%Q) l ->
  (lo <= foldl (fun sum r => (sum + ResourceMonitor.r_cpu r)%Q) 0%Q l
         / inject_Z (Z.of_nat (length l)))%Q
  /\ (foldl (fun sum r => (sum + ResourceMonitor.r_cpu r)%Q) 0%Q l
      / inject_Z (Z.of_nat (length l)) <= hi)%Q.
Proof.
  intros Hne Hall.
  assert (Hpos : (0 < inject_Z (Z.of_nat (length l)))%Q).
  { change 0%Q with (inject_Z 0). rewrite <- Zlt_Qlt.
    destruct l; [congruence | cbn [length]; lia]. }
  destruct (foldl_cpu_between lo hi l 0%Q Hall) as [Hlo Hhi].
  split; [apply Qle_shift_div_l | apply Qle_shift_div_r]; try assumption; lra.
Qed.

(** X1. [getAverageUsage] answers zero for both figures when no reading is
    younger than the window, in particular on an empty history.  Otherwise
    the memory figure, a rounded average of whole numbers, lies between the
    smallest and the largest memory reading in the window.  The cpu
    readings are fractions, and the cpu figure, their rounded average, need
    not lie between them: readings of 0.3 and 0.4 give 0.  It lies between
    the smallest and the largest cpu reading in the window each rounded, and
    no more than a half below the smallest and above the largest.  The
    averages are taken as exact fractions. *)
Theorem getAverageUsage_within_readings (now minutes : Z)
  (readings : list ResourceMonitor.Reading) :
  let recent :=
    filter (fun r => now - minutes * 60 * 1000 < ResourceMonitor.timestamp r) readings in
  let average := getAverageUsage now minutes readings in
  (recent = [] -> average = {| avgMemory := 0; avgCpu := 0 |})
  /\ getAverageUsage now minutes [] = {| avgMemory := 0; avgCpu := 0 |}
  /\ (recent <> [] ->
      exists lowMemory highMemory lowCpu highCpu,
        lowMemory ∈ recent /\ highMemory ∈ recent /\ lowCpu ∈ recent /\ highCpu ∈ recent
        /\ Forall (fun r => ResourceMonitor.r_memory lowMemory <= ResourceMonitor.r_memory r
                            <= ResourceMonitor.r_memory highMemory) recent
        /\ Forall (fun r => (ResourceMonitor.r_cpu lowCpu <= ResourceMonitor.r_cpu r)%Q
                            /\ (ResourceMonitor.r_cpu r <= ResourceMonitor.r_cpu highCpu)%Q)
             recent
        /\ ResourceMonitor.r_memory lowMemory <= avgMemory average
           <= ResourceMonitor.r_memory highMemory
        /\ round_Q (ResourceMonitor.r_cpu lowCpu) <= avgCpu average
           <= round_Q (ResourceMonitor.r_cpu highCpu)
        /\ (ResourceMonitor.r_cpu lowCpu - (1 # 2) < inject_Z (avgCpu average))%Q
        /\ (inject_Z (avgCpu average) <= ResourceMonitor.r_cpu highCpu + (1 # 2))%Q).
Proof.
  intros recent average. subst average. unfold getAverageUsage. fold recent.
  split; [intros ->; reflexivity|]. split; [reflexivity|].
  intros Hne.
  destruct (extreme_element
              (fun a b => ResourceMonitor.r_memory a <= ResourceMonitor.r_memory b) recent)
    as (lowMemory & HlowM & HallLowM); [intros; lia | intros; lia | exact Hne |].
  destruct (extreme_element
              (fun a b => ResourceMonitor.r_memory b <= ResourceMonitor.r_memory a) recent)
    as (highMemory & HhighM & HallHighM); [intros; lia | intros; lia | exact Hne |].
  destruct (extreme_element
              (fun a b => (ResourceMonitor.r_cpu a <= ResourceMonitor.r_cpu b)%Q) recent)
    as (lowCpu & HlowC & HallLowC);
    [intros a b; destruct (Qlt_le_dec (ResourceMonitor.r_cpu b) (ResourceMonitor.r_cpu a));
       [right; apply Qlt_le_weak; assumption | left; assumption]
    | intros a b c; apply Qle_trans | exact Hne |].
  destruct (extreme_element
              (fun a b => (ResourceMonitor.r_cpu b <= ResourceMonitor.r_cpu a)%Q) recent)
    as (highCpu & HhighC & HallHighC);
    [intros a b; destruct (Qlt_le_dec (ResourceMonitor.r_cpu b) (ResourceMonitor.r_cpu a));
       [left; apply Qlt_le_weak; assumption | right; assumption]
    | intros a b c Hab Hbc; exact (Qle_trans _ _ _ Hbc Hab) | exact Hne |].
  assert (HallM : Forall (fun r => ResourceMonitor.r_memory lowMemory
                                   <= ResourceMonitor.r_memory r
                                   <= ResourceMonitor.r_memory highMemory) recent).
  { rewrite Forall_forall in *. intros r Hr. split; [apply HallLowM | apply HallHighM]; exact Hr. }
  assert (HallC : Forall (fun r => (ResourceMonitor.r_cpu lowCpu <= ResourceMonitor.r_cpu r)%Q
                                   /\ (ResourceMonitor.r_cpu r
                                       <= ResourceMonitor.r_cpu highCpu)%Q) recent).
  { rewrite Forall_forall in *. intros r Hr. split; [apply HallLowC | apply HallHighC]; exact Hr. }
  exists lowMemory, highMemory, lowCpu, highCpu.
  repeat (split; [assumption|]).
  destruct (Z.eqb_spec (Z.of_nat (length recent)) 0) as [Hz|_];
    [destruct recent; [congruence | cbn [length] in Hz; lia]|].
  assert (Hlen : 0 < Z.of_nat (length recent))
    by (destruct recent; [congruence | cbn [length]; lia]).
  cbn [avgMemory avgCpu].
  destruct (mean_cpu_between _ _ recent Hne HallC) as [Hlo Hhi].
  set (mean := (foldl (fun sum r => (sum + ResourceMonitor.r_cpu r)%Q) 0%Q recent
                / inject_Z (Z.of_nat (length recent)))%Q) in *.
  split; [|split; [|split]].
  - apply round_div_between; [exact Hlen|].
    pose proof (foldl_memory_between _ _ recent 0 HallM). lia.
  - split; apply round_Q_monotone; assumption.
  - unfold round_Q. pose proof (Qlt_floor (mean + (1 # 2))) as Hfl.
    rewrite inject_Z_plus in Hfl. change (inject_Z 1) with 1%Q in Hfl. lra.
  - unfold round_Q. pose proof (Qfloor_le (mean + (1 # 2))) as Hfl. lra.
Qed.

(** X2. [calculateAverageRunTime], called with [runCount] already counted
    ([runCount >= 1]): the new average lies between the old average and the
    new duration, and after the first run it is the duration of that run. *)
Theorem averageRunTime_between (job : ScheduledJob.t) (newDuration : Z)
  (Hcounted : 1 <= ScheduledJob.runCount (ScheduledJob.metadata job)) :
  Z.min (ScheduledJob.averageRunTime (ScheduledJob.metadata job)) newDuration
  <= calculateAverageRunTime job newDuration
  <= Z.max (ScheduledJob.averageRunTime (ScheduledJob.metadata job)) newDuration
  /\ (ScheduledJob.runCount (ScheduledJob.metadata job) = 1 ->
      calculateAverageRunTime job newDuration = newDuration).
Proof.
  unfold calculateAverageRunTime.
  set (avg := ScheduledJob.averageRunTime (ScheduledJob.metadata job)).
  set (n := ScheduledJob.runCount (ScheduledJob.metadata job)) in *.
  split.
  - apply round_div_between; [lia|]. split.
    + assert (Z.min avg newDuration * (n - 1) <= avg * (n - 1)) by nia. lia.
    + assert (avg * (n - 1) <= Z.max avg newDuration * (n - 1)) by nia. lia.
  - intros ->. unfold round_div. replace (avg * (1 - 1) + newDuration) with newDuration by lia.
    replace (2 * newDuration + 1) with (1 + newDuration * (2 * 1)) by lia.
    rewrite Z.div_add by lia. reflexivity.
Qed.

(** The average of three runs at 40 ms with a fourth of 80 ms stays between
    40 and 80. *)
Lemma averageRunTime_between_witness :
  1 <= ScheduledJob.runCount (ScheduledJob.metadata feedAfterThreeRuns)
  /\ 40 <= calculateAverageRunTime feedAfterThreeRuns 80 <= 80.
Proof.
  split; [simpl; lia|].
  exact (proj1 (averageRunTime_between feedAfterThreeRuns 80 ltac:(simpl; lia))).
Defined.

(** ** The readings of the resource monitor *)



(** ** The guards of executeJob *)

(** X4. The three guards of [executeJob] are decided before anything is
    written: an id that is not registered, a job that is disabled when the
    call is not manual, whatever its dependencies, and an enabled job whose
    dependencies are not ready when the call is not manual are each refused
    with their error, and the state is left as it was.  A call that passes
    the guards writes [pending] for its execution before anything else,
    however it settles; so a call that leaves the state as it was is one
    that a guard refused. *)
Theorem executeJob_guards_refuse_untouched (jobId : string) (manual : bool) (w : World) :
  (jobs w !! jobId = None ->
   executeJob jobId manual w = (Throw (JsError ("Job not found: " +:+ jobId)), w))
  /\ (forall job,
        jobs w !! jobId = Some job ->
        (manual = false ->
         ScheduledJob.enabled (ScheduledJob.definition job) = false ->
         executeJob jobId manual w = (Throw (JsError ("Job is disabled: " +:+ jobId)), w))
        /\ (manual = false ->
            ScheduledJob.enabled (ScheduledJob.definition job) = true ->
            checkDependencies (jobs w)
              (ScheduledJob.dependencies (ScheduledJob.definition job)) = false ->
            executeJob jobId manual w
            = (Throw (JsError ("Job dependencies not met: " +:+ jobId)), w))
        /\ (manual = true
            \/ (ScheduledJob.enabled (ScheduledJob.definition job) = true
                /\ checkDependencies (jobs w)
                     (ScheduledJob.dependencies (ScheduledJob.definition job)) = true) ->
            forall r w',
              executeJob jobId manual w = (r, w') ->
              exists events,
                log w'
                = log w
                  ++ StatusWrite (jobId +:+ "_" +:+ pretty (now w)) JobExecution.pending
                     :: events))
  /\ (forall r,
        executeJob jobId manual w = (r, w) ->
        r = Throw (JsError ("Job not found: " +:+ jobId))
        \/ r = Throw (JsError ("Job is disabled: " +:+ jobId))
        \/ r = Throw (JsError ("Job dependencies not met: " +:+ jobId))).
Proof.
  assert (Hwrites : forall job r w',
            runExecution jobId job w = (r, w') ->
            exists events,
              log w'
              = log w
                ++ StatusWrite (jobId +:+ "_" +:+ pretty (now w)) JobExecution.pending
                   :: events).
  { intros job r w' Hrun.
    destruct (runExecution_log _ _ _ _ _ Hrun) as (middle & closing & Hlog & _).
    exists (middle ++ closing). exact Hlog. }
  assert (Hmoved : forall job r, runExecution jobId job w <> (r, w)).
  { intros job r Hrun. destruct (Hwrites _ _ _ Hrun) as (events & Hlog).
    apply (f_equal (@length Event)) in Hlog. rewrite length_app in Hlog.
    cbn [length] in Hlog. lia. }
  unfold executeJob.
  destruct (jobs w !! jobId) as [job|].
  - split; [discriminate|]. split.
    + intros job' [= <-]. split; [|split].
      * intros -> ->. reflexivity.
      * intros -> -> ->. reflexivity.
      * intros [->|[-> ->]]; [rewrite !andb_false_r | rewrite andb_false_r];
          cbn [negb andb]; apply Hwrites.
    + intros r.
      destruct (negb (ScheduledJob.enabled (ScheduledJob.definition job)) && negb manual);
        [intros [= <-]; right; left; reflexivity|].
      destruct (negb manual && negb _);
        [intros [= <-]; right; right; reflexivity|].
      intros Hrun. destruct (Hmoved _ _ Hrun).
  - split; [reflexivity|]. split; [discriminate|].
    intros r [= <-]. left. reflexivity.
Qed.

(** ** What an execution leaves alone *)

Lemma keeps_ret {A} (a : A) : keeps (ret a).
Proof. intros s r s' [= <- <-]. reflexivity. Qed.

Lemma keeps_throw {A} e : keeps (@throw Frame A e).
Proof. intros s r s' [= <- <-]. reflexivity. Qed.

Lemma keeps_bind {A B} (c : M Frame A) (k : A -> M Frame B) :
  keeps c -> (forall a, keeps (k a)) -> keeps (bind c k).
Proof.
  intros Hc Hk s r s'. unfold bind.
  destruct (c s) as [[a|e|] s1] eqn:Hcs; intros Hrun.
  - rewrite (Hk _ _ _ _ Hrun). eapply Hc; eassumption.
  - injection Hrun as <- <-. eapply Hc; eassumption.
  - injection Hrun as <- <-. eapply Hc; eassumption.
Qed.

Lemma keeps_try_catch {A} (c : M Frame A) (h : Thrown -> M Frame A) :
  keeps c -> (forall e, keeps (h e)) -> keeps (try_catch c h).
Proof.
  intros Hc Hh s r s'. unfold try_catch.
  destruct (c s) as [[a|e|] s1] eqn:Hcs; intros Hrun.
  - injection Hrun as <- <-. eapply Hc; eassumption.
  - rewrite (Hh _ _ _ _ Hrun). eapply Hc; eassumption.
  - injection Hrun as <- <-. eapply Hc; eassumption.
Qed.

Lemma wkeeps_bind {A B} (c : M World A) (k : A -> M World B) :
  wkeeps c -> (forall a, wkeeps (k a)) -> wkeeps (bind c k).
Proof.
  intros Hc Hk w r w'. unfold bind.
  destruct (c w) as [[a|e|] w1] eqn:Hcw; intros Hrun.
  - rewrite (Hk _ _ _ _ Hrun). eapply Hc; eassumption.
  - injection Hrun as <- <-. eapply Hc; eassumption.
  - injection Hrun as <- <-. eapply Hc; eassumption.
Qed.

Lemma keeps_lift {A} (c : M World A) : wkeeps c -> keeps (lift c).
Proof.
  intros Hc [x w] r s'. unfold lift. cbn [fst snd].
  destruct (c w) as [r1 w1] eqn:Hcw. intros [= <- <-]. eapply Hc; eassumption.
Qed.

Lemma keeps_setExecution f : keeps (setExecution f).
Proof. intros s r s' [= <- <-]. reflexivity. Qed.

Lemma keeps_writeStatus st : keeps (writeStatus st).
Proof. intros s r s' [= <- <-]. reflexivity. Qed.

Lemma wkeeps_Date_now : wkeeps Date_now.
Proof. intros w r w' [= <- <-]. reflexivity. Qed.

Lemma wkeeps_memoryUsage : wkeeps process_memoryUsage.
Proof. intros w r w' [= <- <-]. reflexivity. Qed.

Lemma wkeeps_executeJobLogic job : wkeeps (executeJobLogic job).
Proof.
  unfold executeJobLogic, runBody.
  destruct (ScheduledJob.target_type (ScheduledJob.definition job));
    intros w r w'; try (destruct (settles _)); intros [= <- <-]; reflexivity.
Qed.

Lemma wkeeps_backoff delay : wkeeps (backoff delay).
Proof. intros w r w' [= <- <-]. reflexivity. Qed.

Lemma wkeeps_isSystemOverloaded : wkeeps isSystemOverloaded.
Proof. intros w r w' [= <- <-]. reflexivity. Qed.

Lemma wkeeps_checkResources polls : wkeeps (checkResources polls).
Proof.
  induction polls as [|polls IH]; cbn [checkResources].
  - intros w r w' [= <- <-]. reflexivity.
  - apply wkeeps_bind; [apply wkeeps_isSystemOverloaded|].
    intros [|]; [|intros w r w' [= <- <-]; reflexivity].
    apply wkeeps_bind; [intros w r w' [= <- <-]; reflexivity|].
    intros _. apply wkeeps_bind; [intros w r w' [= <- <-]; reflexivity|].
    intros _. exact IH.
Qed.

Lemma wkeeps_waitForResources : wkeeps waitForResources.
Proof. intros w r w'. unfold waitForResources. apply wkeeps_checkResources. Qed.

Lemma keeps_retryLoop rounds : forall attempt job lastError,
  keeps (retryLoop rounds attempt job lastError).
Proof.
  induction rounds as [|rounds IH]; intros attempt job lastError; cbn [retryLoop].
  - apply keeps_throw.
  - apply keeps_bind; [apply keeps_setExecution|].
    intros _. apply keeps_bind; [apply keeps_writeStatus|].
    intros _. apply keeps_try_catch.
    + apply keeps_bind; [apply keeps_lift, wkeeps_memoryUsage|]. intros before.
      apply keeps_bind; [apply keeps_lift, wkeeps_Date_now|]. intros t0.
      apply keeps_bind; [apply keeps_lift, wkeeps_executeJobLogic|]. intros result.
      apply keeps_bind; [apply keeps_lift, wkeeps_Date_now|]. intros t1.
      apply keeps_bind; [apply keeps_lift, wkeeps_memoryUsage|]. intros after.
      apply keeps_bind; [apply keeps_setExecution|].
      intros _. apply keeps_ret.
    + intros e. apply keeps_bind; [|intros _; apply IH].
      destruct (_ <? _); [apply keeps_lift, wkeeps_backoff | apply keeps_ret].
Qed.

Lemma keeps_PQueue_add queue timeout (job : M Frame Value) :
  keeps job -> keeps (PQueue_add queue timeout job).
Proof.
  intros Hjob s r s'. unfold PQueue_add.
  destruct (job s) as [r1 s1] eqn:Hrun. specialize (Hjob _ _ _ Hrun).
  destruct r1 as [v|e|]; [| |intros [= <- <-]; exact Hjob];
    destruct (_ <? _); try (intros [= <- <-]; exact Hjob);
    destruct (throwOnTimeout _); intros [= <- <-]; exact Hjob.
Qed.

Lemma keeps_addJob priority (job : M Frame Value) timeout :
  keeps job -> keeps (addJob priority job timeout).
Proof.
  intros Hjob s r s'. unfold addJob.
  destruct (jobQueue (snd s) !! priority) as [queue|].
  - apply keeps_bind; [apply keeps_lift, wkeeps_isSystemOverloaded|].
    intros overloaded. apply keeps_bind.
    + destruct overloaded; [apply keeps_lift, wkeeps_waitForResources | apply keeps_ret].
    + intros _. apply keeps_PQueue_add, Hjob.
  - intros [= <- <-]. reflexivity.
Qed.

(** The [try] block writes one breaker, the one of its job. *)
Lemma tryBlock_fixtures jobId job s r s' :
  tryBlock jobId job s = (r, s') ->
  config (snd s') = config (snd s)
  /\ jobs (snd s') = jobs (snd s)
  /\ cronTasks (snd s') = cronTasks (snd s)
  /\ executions (snd s') = executions (snd s)
  /\ jobQueue (snd s') = jobQueue (snd s)
  /\ timers (snd s') = timers (snd s)
  /\ env (snd s') = env (snd s)
  /\ is_Some (circuitBreakers (snd s') !! jobId)
  /\ forall other, other <> jobId ->
       circuitBreakers (snd s') !! other = circuitBreakers (snd s) !! other.
Proof.
  unfold tryBlock, CircuitBreaker.execute.
  set (cb := default _ _).
  set (s0 := (fst s, set_circuitBreakers _ (snd s))).
  destruct (CircuitBreaker.enter _ cb) as [cb1|].
  - destruct (addJob _ _ _ s0) as [r1 s1] eqn:Hrun.
    pose proof (keeps_addJob _ _ _ (keeps_retryLoop _ _ _ _) _ _ _ Hrun) as Hkeep.
    unfold fixtures in Hkeep. cbn [snd s0] in Hkeep.
    injection Hkeep as Hc Hj Hct Hx Hq Hb Ht He.
    cbn [circuitBreakers set_circuitBreakers] in Hb.
    destruct r1 as [v|e|]; intros [= <- <-]; cbn;
      (repeat split; try assumption;
       [rewrite lookup_insert_eq; eauto
       | intros other Hother; rewrite lookup_insert_ne, Hb, lookup_insert_ne by congruence;
         reflexivity]).
  - intros [= <- <-]. cbn. repeat split.
    + rewrite lookup_insert_eq. eauto.
    + intros other Hother. rewrite !lookup_insert_ne by congruence. reflexivity.
Qed.

(** X5. Running a job touches that job alone.  Whatever way [executeJob]
    ends, the configuration, the lanes of the queue, the cron tasks and
    their handles are as before; every other job's registry entry and
    breaker are as before; no job is added or removed; and the job itself
    keeps its definition and its dates of creation and update: only its
    counters and run times move. *)
Theorem executeJob_touches_one_job (jobId : string) (manual : bool) (w : World) :
  let w' := snd (executeJob jobId manual w) in
  config w' = config w
  /\ env w' = env w
  /\ jobQueue w' = jobQueue w
  /\ cronTasks w' = cronTasks w
  /\ timers w' = timers w
  /\ (forall other, other <> jobId ->
        jobs w' !! other = jobs w !! other
        /\ circuitBreakers w' !! other = circuitBreakers w !! other)
  /\ (forall id, is_Some (jobs w' !! id) <-> is_Some (jobs w !! id))
  /\ (forall job job',
        jobs w !! jobId = Some job -> jobs w' !! jobId = Some job' ->
        ScheduledJob.definition job' = ScheduledJob.definition job
        /\ ScheduledJob.createdAt (ScheduledJob.metadata job')
           = ScheduledJob.createdAt (ScheduledJob.metadata job)
        /\ ScheduledJob.updatedAt (ScheduledJob.metadata job')
           = ScheduledJob.updatedAt (ScheduledJob.metadata job)).
Proof.
  cbv zeta.
  assert (Hsame : forall w0 : World, w0 = w ->
    config w0 = config w /\ env w0 = env w /\ jobQueue w0 = jobQueue w
    /\ cronTasks w0 = cronTasks w /\ timers w0 = timers w
    /\ (forall other, other <> jobId ->
          jobs w0 !! other = jobs w !! other
          /\ circuitBreakers w0 !! other = circuitBreakers w !! other)
    /\ (forall id, is_Some (jobs w0 !! id) <-> is_Some (jobs w !! id))
    /\ (forall job job',
          jobs w !! jobId = Some job -> jobs w0 !! jobId = Some job' ->
          ScheduledJob.definition job' = ScheduledJob.definition job
          /\ ScheduledJob.createdAt (ScheduledJob.metadata job')
             = ScheduledJob.createdAt (ScheduledJob.metadata job)
          /\ ScheduledJob.updatedAt (ScheduledJob.metadata job')
             = ScheduledJob.updatedAt (ScheduledJob.metadata job))).
  { intros w0 ->. repeat split; try tauto; congruence. }
  unfold executeJob.
  destruct (jobs w !! jobId) as [job|] eqn:Hjob; [|apply Hsame; reflexivity].
  destruct (_ && _); [apply Hsame; reflexivity|].
  destruct (_ && _); [apply Hsame; reflexivity|].
  clear Hsame. unfold runExecution.
  destruct (tryBlock jobId job (startExecution jobId w)) as [rt s1] eqn:Htry.
  destruct (tryBlock_fixtures _ _ _ _ _ Htry)
    as (Hc & Hj & Hct & Hx & Hq & Ht & He & _ & Hb).
  cbn [snd startExecution config jobs cronTasks executions jobQueue timers env
       circuitBreakers set_log set_executions] in Hc, Hj, Hct, Hx, Hq, Ht, He, Hb.
  assert (Hkeys : forall job' id,
            is_Some (<[jobId := job']> (jobs w) !! id) <-> is_Some (jobs w !! id)).
  { intros job' id. destruct (decide (jobId = id)) as [<-|Hne].
    - rewrite lookup_insert_eq, Hjob. split; eauto.
    - rewrite lookup_insert_ne by exact Hne. reflexivity. }
  destruct rt as [result|error|];
    unfold onCompleted, onFailed, settle, cleanupExecutionHistory, persistJobs;
    unfold_monad; cbn [fst snd];
    cbn [config env jobQueue cronTasks timers jobs circuitBreakers
         set_log set_jobs set_executions];
    (split; [exact Hc|]); (split; [exact He|]); (split; [exact Hq|]);
    (split; [exact Hct|]); (split; [exact Ht|]); rewrite Hj.
  - split; [intros other Hother; split;
            [apply lookup_insert_ne; congruence | apply Hb; exact Hother]|].
    split; [intros id; apply Hkeys|].
    intros job0 job' [= <-]. rewrite lookup_insert_eq. intros [= <-].
    repeat split; reflexivity.
  - split; [intros other Hother; split;
            [apply lookup_insert_ne; congruence | apply Hb; exact Hother]|].
    split; [intros id; apply Hkeys|].
    intros job0 job' [= <-]. rewrite lookup_insert_eq. intros [= <-].
    repeat split; reflexivity.
  - split; [intros other Hother; split; [reflexivity | apply Hb; exact Hother]|].
    split; [reflexivity|].
    intros job0 job' [= <-]. rewrite Hjob. intros [= <-]. repeat split; reflexivity.
Qed.

(** ** Completed executions *)

(** X6. An execution returned as [completed] is booked on its job: the
    execution ends no earlier than it started and its duration is the time
    between the two; the job's [runCount] is one more than before, its
    [errorCount] is as before, [lastRun] is the start of the execution,
    [nextRun] is one minute after its end, and [averageRunTime] is the
    rounded mean of the runs so far, this one included; the last event is
    [job:completed] with the job and the execution. *)
Theorem completed_execution_bookkeeping (w : World) (jobId : string) (manual : bool)
  (job : ScheduledJob.t) (e : JobExecution.t) (w' : World)
  (Hjob : jobs w !! jobId = Some job)
  (Hrun : executeJob jobId manual w = (Ret e, w'))
  (Hdone : JobExecution.status e = JobExecution.completed) :
  exists t job',
    JobExecution.startTime e = now w
    /\ JobExecution.endTime e = Some t
    /\ now w <= t
    /\ JobExecution.duration (JobExecution.metrics e) = t - now w
    /\ is_Some (JobExecution.result e)
    /\ jobs w' !! jobId = Some job'
    /\ ScheduledJob.runCount (ScheduledJob.metadata job')
       = ScheduledJob.runCount (ScheduledJob.metadata job) + 1
    /\ ScheduledJob.errorCount (ScheduledJob.metadata job')
       = ScheduledJob.errorCount (ScheduledJob.metadata job)
    /\ ScheduledJob.lastRun (ScheduledJob.metadata job') = Some (now w)
    /\ ScheduledJob.nextRun (ScheduledJob.metadata job') = Some (t + 60000)
    /\ ScheduledJob.averageRunTime (ScheduledJob.metadata job')
       = round_div
           (ScheduledJob.averageRunTime (ScheduledJob.metadata job)
            * ScheduledJob.runCount (ScheduledJob.metadata job) + (t - now w))
           (ScheduledJob.runCount (ScheduledJob.metadata job) + 1)
    /\ last (log w') = Some (JobCompleted job' e).
Proof.
  unfold executeJob in Hrun. rewrite Hjob in Hrun.
  destruct (_ && _); [discriminate|]. destruct (_ && _); [discriminate|].
  destruct (tryBlock jobId job (startExecution jobId w)) as [rt s1] eqn:Htry.
  destruct (steady_tryBlock _ _ _ _ _ Htry) as ((_ & _ & _ & Hnow & _) & _ & Hstart).
  cbn [fst snd startExecution newExecution JobExecution.startTime now set_log
       set_executions] in Hnow, Hstart.
  destruct rt as [result|error|].
  - revert Hrun. unfold runExecution. rewrite Htry.
    unfold onCompleted, settle, cleanupExecutionHistory, persistJobs.
    unfold_monad. cbn [fst snd]. intros [= <- <-].
    exists (now (snd s1)). eexists. cbn.
    rewrite Hstart, lookup_insert_eq, last_app.
    split; [reflexivity|]. split; [reflexivity|]. split; [exact Hnow|].
    split; [reflexivity|]. split; [eauto|]. split; [reflexivity|].
    split; [reflexivity|]. split; [reflexivity|]. split; [reflexivity|].
    split; [reflexivity|]. split; [|reflexivity].
    unfold calculateAverageRunTime. cbn. rewrite Z.add_simpl_r. reflexivity.
  - destruct (runExecution_failed _ _ _ _ _ Htry) as (e0 & w0 & job' & Heq & Hst & _).
    rewrite Heq in Hrun. injection Hrun as <- <-. congruence.
  - rewrite (runExecution_hang _ _ _ _ Htry) in Hrun. discriminate.
Qed.

(** The theorem on the manual run of ["report"], which takes 7 ms from time
    1000: one run, an average of 7 ms, the next run due at 61007. *)
Lemma completed_execution_bookkeeping_witness :
  exists job e w',
    (jobs worldReportAlone !! "report" = Some job
     /\ executeJob "report" true worldReportAlone = (Ret e, w')
     /\ JobExecution.status e = JobExecution.completed)
    /\ exists job',
         jobs w' !! "report" = Some job'
         /\ ScheduledJob.runCount (ScheduledJob.metadata job') = 1
         /\ ScheduledJob.averageRunTime (ScheduledJob.metadata job') = 7
         /\ ScheduledJob.nextRun (ScheduledJob.metadata job') = Some 61007.
Proof.
  assert (Hrun : executeJob "report" true worldReportAlone
                 = (fst (executeJob "report" true worldReportAlone),
                    snd (executeJob "report" true worldReportAlone)))
    by (destruct (executeJob "report" true worldReportAlone); reflexivity).
  match type of Hrun with
  | _ = (?r, ?w1) =>
      assert (Hret : exists e, r = Ret e /\ JobExecution.status e = JobExecution.completed
                               /\ JobExecution.endTime e = Some 1007)
        by (vm_compute; eauto)
  end.
  destruct Hret as (e & He & Hdone & Hend). rewrite He in Hrun.
  assert (Hjob : jobs worldReportAlone !! "report" = Some (ScheduledJob.with_metadata
       (ScheduledJob.with_nextRun (Some 61000) (freshMetadata 1000)) reportJob))
    by (vm_compute; reflexivity).
  eexists _, e, _. split; [split; [exact Hjob | split; [exact Hrun | exact Hdone]]|].
  destruct (completed_execution_bookkeeping _ _ _ _ _ _ Hjob Hrun Hdone)
    as (t & job' & _ & Ht & _ & _ & _ & Hreg & Hcount & _ & _ & Hnext & Havg & _).
  rewrite Hend in Ht. injection Ht as <-.
  exists job'. split; [exact Hreg|]. split; [rewrite Hcount; reflexivity|].
  split; [rewrite Havg; reflexivity | exact Hnext].
Defined.

(** ** The breaker of a job *)

(** X7. Past its guards [executeJob] puts the execution through the breaker
    of its job, made with the configured threshold when the job has none.
    On a breaker that is open and cooling, the execution is booked as failed
    with the rejection of the breaker, and neither the body nor the resource
    monitor nor the clock is touched.  Otherwise the breaker is left as the
    outcome makes it: closed with its failures forgotten after a completed
    execution, one failure more at the end time of a failed one. *)
Theorem executeJob_drives_breaker (w : World) (jobId : string) (manual : bool)
  (job : ScheduledJob.t) (e : JobExecution.t) (w' : World)
  (Hjob : jobs w !! jobId = Some job)
  (Hrun : executeJob jobId manual w = (Ret e, w')) :
  let cb := default (CircuitBreaker.new (circuitBreakerThreshold (config w))
                       CircuitBreaker.default_timeout)
              (circuitBreakers w !! jobId) in
  match CircuitBreaker.enter (now w) cb with
  | None =>
      JobExecution.status e = JobExecution.failed
      /\ JobExecution.error e = Some "Circuit breaker is OPEN - operation rejected"
      /\ circuitBreakers w' !! jobId = Some cb
      /\ bodyRuns w' = bodyRuns w
      /\ heapReads w' = heapReads w
      /\ now w' = now w
  | Some cb1 =>
      exists t,
        JobExecution.endTime e = Some t
        /\ circuitBreakers w' !! jobId
           = Some (match JobExecution.status e with
                   | JobExecution.completed => CircuitBreaker.onSuccess cb1
                   | _ => CircuitBreaker.onFailure t cb1
                   end)
  end.
Proof.
  intros cb. unfold executeJob in Hrun. rewrite Hjob in Hrun.
  destruct (_ && _); [discriminate|]. destruct (_ && _); [discriminate|].
  revert Hrun. unfold runExecution, tryBlock, CircuitBreaker.execute.
  cbn [snd fst startExecution circuitBreakers config now set_log set_executions
       set_circuitBreakers].
  fold cb.
  destruct (CircuitBreaker.enter (now w) cb) as [cb1|].
  - match goal with
    | |- context [addJob ?p ?j ?t ?s0] => destruct (addJob p j t s0) as [r1 s2] eqn:Hadd
    end.
    destruct r1 as [v|error|]; [| |discriminate];
      unfold onCompleted, onFailed, settle, cleanupExecutionHistory, persistJobs;
      unfold_monad; cbn [fst snd]; intros [= <- <-]; cbn;
      eexists; (split; [reflexivity|]); rewrite lookup_insert_eq; reflexivity.
  - unfold onFailed, settle, cleanupExecutionHistory, persistJobs.
    unfold_monad. cbn [fst snd]. intros [= <- <-]. cbn.
    rewrite !lookup_insert_eq. repeat split; reflexivity.
Qed.

(** The theorem on the job whose breaker opened at time 1007: the manual
    call of the same instant is rejected and the breaker stays as it was. *)
Lemma executeJob_drives_breaker_witness :
  exists job e w',
    (jobs worldBreakerOpen !! "feed" = Some job
     /\ executeJob "feed" true worldBreakerOpen = (Ret e, w'))
    /\ JobExecution.status e = JobExecution.failed
    /\ bodyRuns w' = bodyRuns worldBreakerOpen
    /\ circuitBreakers w' !! "feed"
       = Some (CircuitBreaker.onFailure 1007 (CircuitBreaker.new 1 60000)).
Proof.
  assert (Hrun : executeJob "feed" true worldBreakerOpen
                 = (fst (executeJob "feed" true worldBreakerOpen),
                    snd (executeJob "feed" true worldBreakerOpen)))
    by (destruct (executeJob "feed" true worldBreakerOpen); reflexivity).
  match type of Hrun with
  | _ = (?r, ?w1) => assert (Hret : exists e, r = Ret e) by (vm_compute; eauto)
  end.
  destruct Hret as (e & He). rewrite He in Hrun.
  eexists _, e, _.
  assert (Hjob : jobs worldBreakerOpen !! "feed"
                 = Some (default reportJob (jobs worldBreakerOpen !! "feed")))
    by (vm_compute; reflexivity).
  split; [split; [exact Hjob | exact Hrun]|].
  pose proof (executeJob_drives_breaker _ _ _ _ _ _ Hjob Hrun) as Hbreaker.
  cbv zeta in Hbreaker.
  match type of Hbreaker with
  | match ?x with _ => _ end =>
      assert (Hen : x = None) by (vm_compute; reflexivity); rewrite Hen in Hbreaker
  end.
  destruct Hbreaker as (Hst & _ & Hcb & Hruns & _).
  split; [exact Hst|]. split; [exact Hruns|].
  rewrite Hcb. vm_compute. reflexivity.
Defined.

(** ** The ledger across an execution *)

Lemma ledger_set_twice id e0 e (m : list (string * JobExecution.t)) :
  ledger_set id e (ledger_set id e0 m) = ledger_set id e m.
Proof.
  induction m as [|[k v] m IH]; simpl.
  - destruct (decide (id = id)); [reflexivity | congruence].
  - destruct (decide (k = id)) as [->|Hne]; simpl.
    + destruct (decide (id = id)); [reflexivity | congruence].
    + destruct (decide (k = id)); [congruence|]. rewrite IH. reflexivity.
Qed.

Lemma ledger_set_keys id e (m : list (string * JobExecution.t)) :
  (ledger_set id e m).*1 = if decide (id ∈ m.*1) then m.*1 else m.*1 ++ [id].
Proof.
  induction m as [|[k v] m IH]; cbn [ledger_set].
  - rewrite decide_False by (intros Hin; inversion Hin). reflexivity.
  - rewrite (fmap_cons fst (k, v) m). cbn [fst].
    destruct (decide (k = id)) as [->|Hne].
    + rewrite decide_True by left. reflexivity.
    + rewrite fmap_cons, IH. cbn [fst].
      destruct (decide (id ∈ m.*1)) as [Hin|Hnot].
      * rewrite decide_True by (right; exact Hin). reflexivity.
      * rewrite decide_False; [reflexivity|].
        intros [->|Hin]%elem_of_cons; [congruence | contradiction].
Qed.

Lemma ledger_set_NoDup id e (m : list (string * JobExecution.t)) :
  NoDup (m.*1) -> NoDup ((ledger_set id e m).*1).
Proof.
  intros Hnd. rewrite ledger_set_keys.
  destruct (decide (id ∈ m.*1)) as [Hin|Hnot]; [exact Hnd|].
  apply NoDup_app. split; [exact Hnd|]. split; [|apply NoDup_singleton].
  intros k Hk Hid. apply list_elem_of_singleton in Hid as ->. contradiction.
Qed.

Lemma ledger_set_length id e (m : list (string * JobExecution.t)) :
  (length m <= length (ledger_set id e m) <= S (length m))%nat.
Proof.
  rewrite <- (length_fmap fst (ledger_set id e m)), ledger_set_keys, <- (length_fmap fst m).
  destruct (decide (id ∈ m.*1)); [lia|]. rewrite length_app. cbn [length]. lia.
Qed.

Lemma ledger_set_holds id e (m : list (string * JobExecution.t)) :
  (id, e) ∈ ledger_set id e m.
Proof.
  induction m as [|[k v] m IH]; simpl; [left|].
  destruct (decide (k = id)) as [->|Hne]; [left | right; exact IH].
Qed.

(** The trim answers the ledger itself or a prefix of its sorted entries. *)
Lemma trimHistory_prefix (limit : Z) (ledger : list (string * JobExecution.t)) :
  NoDup (ledger.*1) ->
  trimHistory limit ledger = ledger
  \/ exists n, trimHistory limit ledger = take n (sort_recent_first ledger).
Proof.
  intros Hnd. unfold trimHistory, slice0.
  destruct (_ <=? _); [left; reflexivity|]. right. eexists.
  apply (foldl_ledger_set _ []). simpl. rewrite fmap_take.
  eapply sublist_NoDup; [|apply sublist_take].
  rewrite sort_recent_first_perm. exact Hnd.
Qed.

Lemma trimHistory_NoDup (limit : Z) (ledger : list (string * JobExecution.t)) :
  NoDup (ledger.*1) -> NoDup ((trimHistory limit ledger).*1).
Proof.
  intros Hnd. destruct (trimHistory_prefix limit ledger Hnd) as [->|(n & ->)]; [exact Hnd|].
  rewrite fmap_take. eapply sublist_NoDup; [|apply sublist_take].
  rewrite sort_recent_first_perm. exact Hnd.
Qed.

Lemma trimHistory_within (limit : Z) (ledger : list (string * JobExecution.t)) :
  0 <= limit -> NoDup (ledger.*1) ->
  Z.of_nat (length (trimHistory limit ledger)) <= limit.
Proof.
  intros Hlimit Hnd.
  destruct (Z.le_gt_cases (Z.of_nat (length ledger)) limit) as [Hle|Hgt].
  - unfold trimHistory. destruct (Z.leb_spec (Z.of_nat (length ledger)) limit); [exact Hle | lia].
  - rewrite trimHistory_over by (assumption || lia). rewrite length_take. lia.
Qed.

(** X8. The ledger across [executeJob], for a ledger with distinct keys (it
    is a [Map]).  Its keys stay distinct and it grows by one entry at most.
    A call refused by a guard leaves it as it was.  An execution that is
    returned was set under its id, in place of an entry of the same id made
    in the same millisecond if there is one, before the trim: with room for
    one more entry below the limit the ledger is the old one with that
    entry set, and it holds the execution returned; with a limit that is not
    negative the ledger never ends above the limit. *)
Theorem executeJob_keeps_ledger (w : World) (jobId : string) (manual : bool)
  (r : Outcome JobExecution.t) (w' : World)
  (Hkeys : NoDup ((executions w).*1))
  (Hrun : executeJob jobId manual w = (r, w')) :
  NoDup ((executions w').*1)
  /\ (length (executions w') <= S (length (executions w)))%nat
  /\ (forall error, r = Throw error -> executions w' = executions w)
  /\ (forall e, r = Ret e ->
        JobExecution.id e = jobId +:+ "_" +:+ pretty (now w)
        /\ (0 <= executionHistoryLimit (config w) ->
            Z.of_nat (length (executions w')) <= executionHistoryLimit (config w))
        /\ (Z.of_nat (length (executions w)) < executionHistoryLimit (config w) ->
            executions w' = ledger_set (JobExecution.id e) e (executions w)
            /\ (JobExecution.id e, e) ∈ executions w')).
Proof.
  unfold executeJob in Hrun.
  destruct (jobs w !! jobId) as [job|];
    [|injection Hrun as <- <-; repeat split; (discriminate || auto)].
  destruct (_ && _); [injection Hrun as <- <-; repeat split; (discriminate || auto)|].
  destruct (_ && _); [injection Hrun as <- <-; repeat split; (discriminate || auto)|].
  revert Hrun. unfold runExecution.
  destruct (tryBlock jobId job (startExecution jobId w)) as [rt s1] eqn:Htry.
  destruct (tryBlock_fixtures _ _ _ _ _ Htry) as (Hc & _ & _ & Hx & _).
  destruct (steady_tryBlock _ _ _ _ _ Htry) as (_ & Hid & _).
  cbn [fst snd startExecution config executions set_log set_executions] in Hc, Hx, Hid.
  set (id0 := JobExecution.id (newExecution jobId (now w))) in *.
  assert (Hsettled : forall x : JobExecution.t,
            JobExecution.id x = id0 ->
            let ledger := trimHistory (executionHistoryLimit (config w))
                            (ledger_set id0 x (executions (snd s1))) in
            NoDup (ledger.*1)
            /\ (length ledger <= S (length (executions w)))%nat
            /\ (0 <= executionHistoryLimit (config w) ->
                Z.of_nat (length ledger) <= executionHistoryLimit (config w))
            /\ (Z.of_nat (length (executions w)) < executionHistoryLimit (config w) ->
                ledger = ledger_set (JobExecution.id x) x (executions w)
                /\ (JobExecution.id x, x) ∈ ledger)).
  { intros x Hx0 ledger. subst ledger. rewrite Hx, ledger_set_twice.
    pose proof (ledger_set_NoDup id0 x _ Hkeys) as Hnd.
    pose proof (ledger_set_length id0 x (executions w)) as Hlen.
    split; [apply trimHistory_NoDup, Hnd|]. split; [|split].
    - destruct (trimHistory_prefix (executionHistoryLimit (config w)) _ Hnd) as [->|(n & ->)];
        [lia|].
      rewrite length_take, (Permutation_length (sort_recent_first_perm _)). lia.
    - intros Hlimit. apply trimHistory_within; assumption.
    - intros Hroom. rewrite Hx0.
      assert (Hid' : trimHistory (executionHistoryLimit (config w))
                       (ledger_set id0 x (executions w))
                     = ledger_set id0 x (executions w)).
      { unfold trimHistory.
        destruct (Z.leb_spec (Z.of_nat (length (ledger_set id0 x (executions w))))
                    (executionHistoryLimit (config w))); [reflexivity | lia]. }
      rewrite Hid'. split; [reflexivity | apply ledger_set_holds]. }
  destruct rt as [result|error|].
  - unfold onCompleted, settle, cleanupExecutionHistory, persistJobs.
    unfold_monad. cbn [fst snd]. intros [= <- <-].
    cbn [executions config set_executions set_log set_jobs].
    rewrite Hc, Hid.
    match goal with
    | |- context [ledger_set id0 ?x (executions (snd s1))] =>
        destruct (Hsettled x Hid) as (H1 & H2 & H3 & H4)
    end.
    split; [exact H1|]. split; [exact H2|]. split; [discriminate|].
    intros e [= <-]. split; [exact Hid|]. split; [exact H3 | exact H4].
  - unfold onFailed, settle, cleanupExecutionHistory, persistJobs.
    unfold_monad. cbn [fst snd]. intros [= <- <-].
    cbn [executions config set_executions set_log set_jobs].
    rewrite Hc, Hid.
    match goal with
    | |- context [ledger_set id0 ?x (executions (snd s1))] =>
        destruct (Hsettled x Hid) as (H1 & H2 & H3 & H4)
    end.
    split; [exact H1|]. split; [exact H2|]. split; [discriminate|].
    intros e [= <-]. split; [exact Hid|]. split; [exact H3 | exact H4].
  - intros [= <- <-]. rewrite Hx.
    split; [apply ledger_set_NoDup, Hkeys|].
    split; [apply ledger_set_length|]. split; discriminate.
Qed.

(** The theorem on the first run of ["report"]: the ledger holds the
    execution returned, under its id, and nothing else. *)
Lemma executeJob_keeps_ledger_witness :
  exists e w',
    (NoDup ((executions worldReportAlone).*1)
     /\ executeJob "report" true worldReportAlone = (Ret e, w'))
    /\ executions w' = [("report_1000", e)].
Proof.
  assert (Hrun : executeJob "report" true worldReportAlone
                 = (fst (executeJob "report" true worldReportAlone),
                    snd (executeJob "report" true worldReportAlone)))
    by (destruct (executeJob "report" true worldReportAlone); reflexivity).
  match type of Hrun with
  | _ = (?r, ?w1) => assert (Hret : exists e, r = Ret e) by (vm_compute; eauto)
  end.
  destruct Hret as (e & He). rewrite He in Hrun.
  assert (Hempty : executions worldReportAlone = []) by (vm_compute; reflexivity).
  assert (Hkeys : NoDup ((executions worldReportAlone).*1))
    by (rewrite Hempty; constructor).
  exists e, (snd (executeJob "report" true worldReportAlone)).
  split; [split; [exact Hkeys | exact Hrun]|].
  destruct (executeJob_keeps_ledger _ _ _ _ _ Hkeys Hrun) as (_ & _ & _ & Hret).
  destruct (Hret e eq_refl) as (Hid & _ & Hroom).
  destruct Hroom as [Hledger _]; [rewrite Hempty; vm_compute; reflexivity|].
  rewrite Hledger, Hempty, Hid. vm_compute. reflexivity.
Defined.



(** ** deleteJob *)

Lemma stopTask_other h h' (timers : list CronTask) :
  h' <> h -> stopTask h timers !! h' = timers !! h'.
Proof. intros Hne. unfold stopTask. apply list_lookup_alter_ne. congruence. Qed.

Lemma stopTask_stops h (timers : list CronTask) t :
  timers !! h = Some t ->
  stopTask h timers !! h
  = Some {| expression := expression t; fires := fires t; started := false |}.
Proof.
  intros Hh. unfold stopTask. rewrite list_lookup_alter_eq, Hh. reflexivity.
Qed.

Lemma stopTask_length h (timers : list CronTask) : length (stopTask h timers) = length timers.
Proof. unfold stopTask. apply length_alter. Qed.

(** X10. [deleteJob] on an id that is not registered throws and changes
    nothing.  On a registered id it returns; the job, its breaker and its
    entry of [cronTasks] are gone and the task that stood under the id is
    stopped; every other job, breaker, entry and task is as before, and so
    are the ledger, which keeps the executions of the deleted job, and the
    clock; [job:deleted] is notified with the id and the job; after it the id
    is unknown to [deleteJob] and to [executeJob]. *)
Theorem deleteJob_forgets_the_job (jobId : string) (m : Manager) :
  (jobs (world m) !! jobId = None ->
   deleteJob jobId m = (Throw (JsError ("Job not found: " +:+ jobId)), m))
  /\ (forall job,
        jobs (world m) !! jobId = Some job ->
        exists m',
          deleteJob jobId m = (Ret tt, m')
          /\ jobs (world m') = delete jobId (jobs (world m))
          /\ circuitBreakers (world m') = delete jobId (circuitBreakers (world m))
          /\ cronTasks (world m') = delete jobId (cronTasks (world m))
          /\ (forall h, cronTasks (world m) !! jobId = Some h ->
                taskRunning h (world m') = false)
          /\ (forall h, cronTasks (world m) !! jobId <> Some h ->
                timers (world m') !! h = timers (world m) !! h)
          /\ executions (world m') = executions (world m)
          /\ now (world m') = now (world m)
          /\ log (world m') = log (world m)
          /\ isShuttingDown m' = isShuttingDown m
          /\ notices m' = notices m ++ [JobDeleted jobId job]
          /\ deleteJob jobId m' = (Throw (JsError ("Job not found: " +:+ jobId)), m')
          /\ forall manual,
               executeJob jobId manual (world m')
               = (Throw (JsError ("Job not found: " +:+ jobId)), world m')).
Proof.
  unfold deleteJob. split; [intros ->; reflexivity|].
  intros job ->. unfold inWorld, stopCronTask, persistJobs, notify. unfold_monad.
  cbn [world isShuttingDown notices].
  eexists. split; [reflexivity|]. cbn [world isShuttingDown notices].
  destruct (cronTasks (world m) !! jobId) as [h0|] eqn:Hcron;
    cbn [jobs circuitBreakers cronTasks timers executions now log
         set_circuitBreakers set_jobs set_cronTasks set_timers];
    rewrite ?lookup_delete_eq;
    (split; [reflexivity|]); (split; [reflexivity|]).
  - split; [reflexivity|]. split.
    { intros h [= <-]. unfold taskRunning.
      cbn [timers set_circuitBreakers set_jobs set_cronTasks set_timers].
      destruct (timers (world m) !! h0) as [t|] eqn:Hh.
      - rewrite (stopTask_stops _ _ _ Hh). reflexivity.
      - unfold stopTask. rewrite list_lookup_alter_eq, Hh. reflexivity. }
    split; [intros h Hne; apply stopTask_other; congruence|].
    repeat (split; [reflexivity|]).
    intros manual. unfold executeJob. cbn [jobs set_circuitBreakers set_jobs].
    rewrite lookup_delete_eq. reflexivity.
  - split; [symmetry; apply delete_id; exact Hcron|].
    split; [discriminate|]. split; [reflexivity|].
    repeat (split; [reflexivity|]).
    intros manual. unfold executeJob. cbn [jobs set_circuitBreakers set_jobs].
    rewrite lookup_delete_eq. reflexivity.
Qed.

(** ** updateJob *)

(** The state [updateJob] leaves on a registered id, and how it settles. *)
Lemma updateJob_run (jobId : string) (updates : JobUpdates) (m : Manager)
  (job : ScheduledJob.t) :
  jobs (world m) !! jobId = Some job ->
  let d' := applyUpdates (ScheduledJob.definition job) updates in
  let valid := cron_validate (env (world m)) (ScheduledJob.cronExpression d') in
  let scheduled := ScheduledJob.enabled d' && valid in
  let refused := ScheduledJob.enabled d' && negb valid in
  let tasks := match cronTasks (world m) !! jobId with
               | Some h0 => stopTask h0 (timers (world m))
               | None => timers (world m)
               end in
  let base := {| ScheduledJob.definition := d';
                 ScheduledJob.metadata :=
                   with_updatedAt (now (world m)) (ScheduledJob.metadata job) |} in
  let stored :=
    if scheduled
    then ScheduledJob.with_metadata
           (ScheduledJob.with_nextRun (Some (now (world m) + 60000))
              (ScheduledJob.metadata base)) base
    else base in
  updateJob jobId updates m
  = (if refused
     then Throw (scheduleRefusal (env (world m)) (ScheduledJob.cronExpression d'))
     else Ret tt,
     {| world :=
          set_jobs (<[jobId := stored]> (jobs (world m)))
            (set_timers
               (if scheduled
                then startTask (length (timers (world m)))
                       (tasks ++ [ {| expression := ScheduledJob.cronExpression d';
                                      fires := ScheduledJob.id d';
                                      started := false |} ])
                else tasks)
               (set_cronTasks
                  (if scheduled
                   then <[ScheduledJob.id d' := length (timers (world m))]>
                          (delete jobId (cronTasks (world m)))
                   else delete jobId (cronTasks (world m)))
                  (world m)));
        isShuttingDown := isShuttingDown m;
        notices := if refused then notices m else notices m ++ [JobUpdated stored] |}).
Proof.
  intros Hjob d' valid scheduled refused tasks base stored. unfold updateJob. rewrite Hjob.
  unfold inWorld, stopCronTask, scheduleJobUnder, persistJobs, notify. unfold_monad.
  cbn [world isShuttingDown notices]. fold d'. subst tasks stored base scheduled refused valid.
  destruct (cronTasks (world m) !! jobId) as [h0|] eqn:Hcron;
    cbn [world ScheduledJob.definition now set_cronTasks set_timers];
    destruct (ScheduledJob.enabled d'); cron_split; cbn [world isShuttingDown notices]; cbn;
    rewrite ?insert_insert_eq, ?stopTask_length, ?(delete_id _ _ Hcron); reflexivity.
Qed.

(** X11. [updateJob] on a registered id runs neither the schema nor the
    cron validation over the updates.  It stops the task that stood under the
    id, removes its entry, and stores, under the id it was called with, the
    definition with the updates applied, whatever they are; the counters,
    [lastRun] and [createdAt] are kept, [updatedAt] is the time of the call.
    Then, if the updated job is enabled, [cron.schedule] is the first to look
    at the expression.  When it refuses it, the call throws the library's
    error with the old task stopped and the registry overwritten: no new
    task is made, and [job:updated] is not notified.  Otherwise the call
    returns; if the job is enabled one new task is made from the updated
    schedule, started, and stored under the id the updated definition
    carries, with [nextRun] a minute ahead; [job:updated] is notified with
    the job as stored.  In both cases every other task is as before and
    breakers, ledger, clock and log are not touched. *)
Theorem updateJob_replaces_unchecked (jobId : string) (updates : JobUpdates) (m : Manager)
  (job : ScheduledJob.t)
  (Hwf : cron_wf (world m))
  (Hjob : jobs (world m) !! jobId = Some job) :
  let d' := applyUpdates (ScheduledJob.definition job) updates in
  let valid := cron_validate (env (world m)) (ScheduledJob.cronExpression d') in
  let scheduled := ScheduledJob.enabled d' && valid in
  let refused := ScheduledJob.enabled d' && negb valid in
  exists m' stored,
    updateJob jobId updates m
    = (if refused
       then Throw (scheduleRefusal (env (world m)) (ScheduledJob.cronExpression d'))
       else Ret tt, m')
    /\ jobs (world m') = <[jobId := stored]> (jobs (world m))
    /\ ScheduledJob.definition stored = d'
    /\ ScheduledJob.metadata stored
       = ScheduledJob.with_nextRun
           (if scheduled then Some (now (world m) + 60000)
            else ScheduledJob.nextRun (ScheduledJob.metadata job))
           (with_updatedAt (now (world m)) (ScheduledJob.metadata job))
    /\ notices m' = (if refused then notices m else notices m ++ [JobUpdated stored])
    /\ isShuttingDown m' = isShuttingDown m
    /\ circuitBreakers (world m') = circuitBreakers (world m)
    /\ executions (world m') = executions (world m)
    /\ now (world m') = now (world m)
    /\ log (world m') = log (world m)
    /\ (forall h, cronTasks (world m) !! jobId = Some h ->
          taskRunning h (world m') = false)
    /\ (forall h task,
          cronTasks (world m) !! jobId <> Some h ->
          timers (world m) !! h = Some task -> timers (world m') !! h = Some task)
    /\ if scheduled
       then cronTasks (world m')
            = <[ScheduledJob.id d' := length (timers (world m))]>
                (delete jobId (cronTasks (world m)))
            /\ timers (world m') !! length (timers (world m))
               = Some {| expression := ScheduledJob.cronExpression d';
                         fires := ScheduledJob.id d';
                         started := true |}
            /\ length (timers (world m')) = S (length (timers (world m)))
       else cronTasks (world m') = delete jobId (cronTasks (world m))
            /\ length (timers (world m')) = length (timers (world m)).
Proof.
  intros d' valid scheduled refused.
  pose proof (updateJob_run jobId updates m job Hjob) as Hrun. cbv zeta in Hrun.
  fold d' in Hrun. fold valid in Hrun. fold scheduled in Hrun. fold refused in Hrun.
  set (tasks := match cronTasks (world m) !! jobId with
                | Some h0 => stopTask h0 (timers (world m))
                | None => timers (world m)
                end) in *.
  assert (Hlen : length tasks = length (timers (world m))).
  { subst tasks. destruct (cronTasks (world m) !! jobId); [apply stopTask_length | reflexivity]. }
  assert (Hstopped : forall h, cronTasks (world m) !! jobId = Some h ->
            exists t, tasks !! h = Some t /\ started t = false).
  { intros h Hh. subst tasks. rewrite Hh. destruct (Hwf _ _ Hh) as (t0 & Ht0 & _).
    eexists. split; [apply (stopTask_stops _ _ _ Ht0) | reflexivity]. }
  assert (Hothers : forall h task, cronTasks (world m) !! jobId <> Some h ->
            timers (world m) !! h = Some task -> tasks !! h = Some task).
  { intros h task Hne Hh. subst tasks.
    destruct (cronTasks (world m) !! jobId) as [h0|]; [|exact Hh].
    rewrite stopTask_other by congruence. exact Hh. }
  eexists _, _. split; [exact Hrun|].
  cbn [world notices isShuttingDown jobs circuitBreakers cronTasks timers executions now log
       set_circuitBreakers set_jobs set_cronTasks set_timers].
  split; [reflexivity|].
  split; [destruct scheduled; reflexivity|].
  split; [destruct scheduled; reflexivity|].
  repeat (split; [reflexivity|]).
  split; [|split].
  - intros h Hh. destruct (Hstopped h Hh) as (t & Ht & Hst).
    pose proof (lookup_lt_Some _ _ _ Ht) as Hlt.
    unfold taskRunning. cbn [timers set_jobs set_timers set_cronTasks].
    destruct scheduled.
    + unfold startTask. rewrite list_lookup_alter_ne by lia.
      rewrite lookup_app_l by lia. rewrite Ht. exact Hst.
    + rewrite Ht. exact Hst.
  - intros h task Hne Hh. pose proof (lookup_lt_Some _ _ _ Hh) as Hlt.
    destruct scheduled; [|apply Hothers; assumption].
    unfold startTask. rewrite list_lookup_alter_ne by lia.
    rewrite lookup_app_l by lia. apply Hothers; assumption.
  - destruct scheduled.
    + split; [reflexivity|]. unfold startTask. split.
      * rewrite <- Hlen, list_lookup_alter_eq, lookup_app_r, Nat.sub_diag by lia.
        reflexivity.
      * rewrite length_alter, length_app. cbn [length]. lia.
    + split; [reflexivity | exact Hlen].
Qed.

(** ** The handles of the cron tasks *)

Lemma cron_wf_new c e t : cron_wf (newManager c e t).
Proof. intros id h. cbn. rewrite lookup_empty. discriminate. Qed.

(** A new task appended, started and stored under the id it fires. *)
Lemma cron_wf_scheduled (cts : gmap string nat) (tasks : list CronTask) (cron id : string) :
  (forall id' h, cts !! id' = Some h ->
     exists t, tasks !! h = Some t /\ started t = true /\ fires t = id') ->
  forall id' h,
    <[id := length tasks]> cts !! id' = Some h ->
    exists t,
      startTask (length tasks)
        (tasks ++ [ {| expression := cron; fires := id; started := false |} ]) !! h = Some t
      /\ started t = true /\ fires t = id'.
Proof.
  intros Hwf id' h. rewrite lookup_insert. case_decide as Hid.
  - intros [= <-]. subst id'. eexists. unfold startTask.
    rewrite list_lookup_alter_eq, lookup_app_r, Nat.sub_diag by lia.
    split; [reflexivity|]. split; reflexivity.
  - intros Hh. destruct (Hwf _ _ Hh) as (t & Ht & Hst & Hf).
    pose proof (lookup_lt_Some _ _ _ Ht) as Hlt.
    exists t. unfold startTask. rewrite list_lookup_alter_ne by lia.
    rewrite lookup_app_l by lia. auto.
Qed.

(** The entry of an id removed and its task stopped. *)
Lemma cron_wf_stopped (w : World) (jobId : string) (h0 : nat) :
  cron_wf w -> cronTasks w !! jobId = Some h0 ->
  forall id' h,
    delete jobId (cronTasks w) !! id' = Some h ->
    exists t, stopTask h0 (timers w) !! h = Some t /\ started t = true /\ fires t = id'.
Proof.
  intros Hwf Hcron id' h. rewrite lookup_delete. case_decide as Hid; [discriminate|].
  intros Hh. destruct (Hwf _ _ Hh) as (t & Ht & Hst & Hf).
  destruct (Hwf _ _ Hcron) as (t0 & Ht0 & _ & Hf0).
  exists t. rewrite stopTask_other; [auto|].
  intros ->. congruence.
Qed.

Lemma cron_wf_createJob d w r w' : cron_wf w -> createJob d w = (r, w') -> cron_wf w'.
Proof.
  intros Hwf. unfold createJob, JobSchema_parse, scheduleJob, persistJobs.
  destruct (schemaIssues d); unfold_monad; [|intros [= <- <-]; exact Hwf].
  destruct (cron_validate _ _) eqn:Hcron; cbn [negb]; [|intros [= <- <-]; exact Hwf].
  destruct (ScheduledJob.enabled d); cron_checked Hcron; intros [= <- <-]; [|exact Hwf].
  intros id h. cbn. apply cron_wf_scheduled. exact Hwf.
Qed.

(** An execution has no write to the cron tasks. *)
Lemma executeJob_cron jobId manual w r w' :
  executeJob jobId manual w = (r, w') ->
  cronTasks w' = cronTasks w /\ timers w' = timers w.
Proof.
  unfold executeJob.
  destruct (jobs w !! jobId) as [job|]; [|intros [= <- <-]; auto].
  destruct (_ && _); [intros [= <- <-]; auto|].
  destruct (_ && _); [intros [= <- <-]; auto|].
  unfold runExecution.
  destruct (tryBlock jobId job (startExecution jobId w)) as [rt s1] eqn:Htry.
  destruct (tryBlock_fixtures _ _ _ _ _ Htry) as (_ & _ & Hct & _ & _ & Ht & _).
  destruct rt as [result|error|];
    unfold onCompleted, onFailed, settle, cleanupExecutionHistory, persistJobs;
    unfold_monad; cbn [fst snd]; intros [= <- <-]; split; assumption.
Qed.

Lemma cron_wf_executeJob jobId manual w r w' :
  cron_wf w -> executeJob jobId manual w = (r, w') -> cron_wf w'.
Proof.
  intros Hwf Hrun. destruct (executeJob_cron _ _ _ _ _ Hrun) as [Hct Ht].
  intros id h. rewrite Hct, Ht. apply Hwf.
Qed.

Lemma cron_wf_updateJob jobId updates m r m' :
  cron_wf (world m) -> updateJob jobId updates m = (r, m') -> cron_wf (world m').
Proof.
  intros Hwf. unfold updateJob.
  destruct (jobs (world m) !! jobId) as [job|]; [|intros [= <- <-]; exact Hwf].
  unfold inWorld, stopCronTask, scheduleJobUnder, persistJobs, notify. unfold_monad.
  cbn [world isShuttingDown notices].
  destruct (cronTasks (world m) !! jobId) as [h0|] eqn:Hcron;
    cbn [world ScheduledJob.definition now set_cronTasks set_timers];
    destruct (ScheduledJob.enabled _); cron_split; cbn [world isShuttingDown notices];
    intros [= <- <-]; cbn [world]; intros id h; cbn.
  - apply cron_wf_scheduled. apply cron_wf_stopped; assumption.
  - apply cron_wf_stopped; assumption.
  - apply cron_wf_stopped; assumption.
  - apply cron_wf_scheduled. exact Hwf.
  - apply Hwf.
  - apply Hwf.
Qed.

Lemma cron_wf_deleteJob jobId m r m' :
  cron_wf (world m) -> deleteJob jobId m = (r, m') -> cron_wf (world m').
Proof.
  intros Hwf. unfold deleteJob.
  destruct (jobs (world m) !! jobId) as [job|]; [|intros [= <- <-]; exact Hwf].
  unfold inWorld, stopCronTask, persistJobs, notify. unfold_monad.
  cbn [world isShuttingDown notices].
  destruct (cronTasks (world m) !! jobId) as [h0|] eqn:Hcron;
    intros [= <- <-]; cbn [world]; intros id h; cbn.
  - apply cron_wf_stopped; assumption.
  - apply Hwf.
Qed.

Lemma cron_wf_fireTask h m r m' :
  cron_wf (world m) -> fireTask h m = (r, m') -> cron_wf (world m').
Proof.
  intros Hwf. unfold fireTask, cronCallback.
  destruct (timers (world m) !! h) as [t|]; [|intros [= <- <-]; exact Hwf].
  destruct (started t); [|intros [= <- <-]; exact Hwf].
  destruct (isShuttingDown m); [intros [= <- <-]; exact Hwf|].
  unfold inWorld, bind.
  destruct (executeJob (fires t) false (world m)) as [r1 w1] eqn:Hrun.
  pose proof (cron_wf_executeJob _ _ _ _ _ Hwf Hrun) as Hwf1.
  destruct r1; intros [= <- <-]; exact Hwf1.
Qed.

(** ** What every state the manager reaches satisfies *)

Lemma createJob_rest d w r w' :
  createJob d w = (r, w') ->
  executions w' = executions w /\ now w' = now w
  /\ circuitBreakers w' = circuitBreakers w /\ jobQueue w' = jobQueue w
  /\ config w' = config w /\ env w' = env w.
Proof.
  unfold createJob, JobSchema_parse, scheduleJob, persistJobs.
  destruct (schemaIssues d); unfold_monad; [|intros [= <- <-]; repeat split].
  destruct (cron_validate _ _) eqn:Hcron; cbn [negb]; [|intros [= <- <-]; repeat split].
  destruct (ScheduledJob.enabled d); cron_checked Hcron; intros [= <- <-]; repeat split.
Qed.

Lemma executeJob_clock jobId manual w r w' :
  executeJob jobId manual w = (r, w') -> now w <= now w'.
Proof.
  unfold executeJob.
  destruct (jobs w !! jobId) as [job|]; [|intros [= <- <-]; lia].
  destruct (_ && _); [intros [= <- <-]; lia|].
  destruct (_ && _); [intros [= <- <-]; lia|].
  unfold runExecution.
  destruct (tryBlock jobId job (startExecution jobId w)) as [rt s1] eqn:Htry.
  destruct (steady_tryBlock _ _ _ _ _ Htry) as ((_ & _ & _ & Hnow & _) & _).
  cbn [fst snd startExecution now set_log set_executions] in Hnow.
  destruct rt as [result|error|];
    unfold onCompleted, onFailed, settle, cleanupExecutionHistory, persistJobs;
    unfold_monad; cbn [fst snd]; intros [= <- <-]; exact Hnow.
Qed.

Lemma executeJob_ledger_NoDup jobId manual w r w' :
  NoDup ((executions w).*1) -> executeJob jobId manual w = (r, w') ->
  NoDup ((executions w').*1).
Proof.
  intros Hkeys. unfold executeJob.
  destruct (jobs w !! jobId) as [job|]; [|intros [= <- <-]; exact Hkeys].
  destruct (_ && _); [intros [= <- <-]; exact Hkeys|].
  destruct (_ && _); [intros [= <- <-]; exact Hkeys|].
  unfold runExecution.
  destruct (tryBlock jobId job (startExecution jobId w)) as [rt s1] eqn:Htry.
  destruct (tryBlock_fixtures _ _ _ _ _ Htry) as (_ & _ & _ & Hx & _).
  cbn [snd startExecution executions set_log set_executions] in Hx.
  destruct rt as [result|error|];
    unfold onCompleted, onFailed, settle, cleanupExecutionHistory, persistJobs;
    unfold_monad; cbn [fst snd]; intros [= <- <-];
    cbn [executions set_executions set_log set_jobs]; rewrite Hx;
    try apply trimHistory_NoDup; repeat apply ledger_set_NoDup; exact Hkeys.
Qed.

Lemma updateJob_rest jobId updates m r m' :
  registry_wf (jobs (world m)) -> updateJob jobId updates m = (r, m') ->
  registry_wf (jobs (world m'))
  /\ executions (world m') = executions (world m)
  /\ now (world m') = now (world m).
Proof.
  intros Hwf. unfold updateJob.
  destruct (jobs (world m) !! jobId) as [job|] eqn:Hjob; [|intros [= <- <-]; auto].
  destruct (Hwf _ _ Hjob) as [Hcount Hlast].
  unfold inWorld, stopCronTask, scheduleJobUnder, persistJobs, notify. unfold_monad.
  cbn [world isShuttingDown notices].
  destruct (cronTasks (world m) !! jobId) as [h0|];
    cbn [world ScheduledJob.definition now set_cronTasks set_timers];
    destruct (ScheduledJob.enabled _); cron_split; cbn [world isShuttingDown notices];
    intros [= <- <-]; cbn [world]; cbn;
    (split; [|split; reflexivity]);
    repeat (apply registry_wf_insert; [|exact Hcount|exact Hlast]); exact Hwf.
Qed.

Lemma registry_wf_delete jobs id : registry_wf jobs -> registry_wf (delete id jobs).
Proof.
  intros Hwf id' job. rewrite lookup_delete. case_decide; [discriminate | apply Hwf].
Qed.

Lemma deleteJob_rest jobId m r m' :
  registry_wf (jobs (world m)) -> deleteJob jobId m = (r, m') ->
  registry_wf (jobs (world m'))
  /\ executions (world m') = executions (world m)
  /\ now (world m') = now (world m).
Proof.
  intros Hwf. unfold deleteJob.
  destruct (jobs (world m) !! jobId) as [job|]; [|intros [= <- <-]; auto].
  unfold inWorld, stopCronTask, persistJobs, notify. unfold_monad.
  cbn [world isShuttingDown notices].
  destruct (cronTasks (world m) !! jobId) as [h0|];
    intros [= <- <-]; cbn [world]; cbn;
    (split; [apply registry_wf_delete, Hwf | split; reflexivity]).
Qed.

(** One call keeps the four properties. *)
Lemma perform_keeps_well_formed call m :
  cron_wf (world m) -> NoDup ((executions (world m)).*1) ->
  registry_wf (jobs (world m)) -> 0 < now (world m) ->
  cron_wf (world (perform call m))
  /\ NoDup ((executions (world (perform call m))).*1)
  /\ registry_wf (jobs (world (perform call m)))
  /\ now (world m) <= now (world (perform call m)).
Proof.
  intros Hcron Hkeys Hreg Hnow.
  destruct call as [d|jobId updates|jobId|jobId manual|h|ms]; cbn [perform].
  - unfold inWorld. destruct (createJob d (world m)) as [r w'] eqn:Hrun. cbn [snd world].
    destruct (createJob_rest _ _ _ _ Hrun) as (Hx & Ht & _).
    split; [eapply cron_wf_createJob; eassumption|].
    split; [rewrite Hx; exact Hkeys|].
    split; [eapply createJob_keeps_registry_wf; eassumption | lia].
  - destruct (updateJob jobId updates m) as [r m'] eqn:Hrun. cbn [snd].
    destruct (updateJob_rest _ _ _ _ _ Hreg Hrun) as (Hreg' & Hx & Ht).
    split; [eapply cron_wf_updateJob; eassumption|].
    split; [rewrite Hx; exact Hkeys|]. split; [exact Hreg' | lia].
  - destruct (deleteJob jobId m) as [r m'] eqn:Hrun. cbn [snd].
    destruct (deleteJob_rest _ _ _ _ Hreg Hrun) as (Hreg' & Hx & Ht).
    split; [eapply cron_wf_deleteJob; eassumption|].
    split; [rewrite Hx; exact Hkeys|]. split; [exact Hreg' | lia].
  - unfold inWorld. destruct (executeJob jobId manual (world m)) as [r w'] eqn:Hrun.
    cbn [snd world].
    split; [eapply cron_wf_executeJob; eassumption|].
    split; [eapply executeJob_ledger_NoDup; eassumption|].
    split; [eapply executeJob_keeps_registry_wf; eassumption|].
    eapply executeJob_clock; eassumption.
  - unfold fireTask, cronCallback.
    assert (Hstay : cron_wf (world m) /\ NoDup ((executions (world m)).*1)
                    /\ registry_wf (jobs (world m)) /\ now (world m) <= now (world m))
      by (refine (conj Hcron (conj Hkeys (conj Hreg _))); lia).
    destruct (timers (world m) !! h) as [t|]; [|exact Hstay].
    destruct (started t); [|exact Hstay].
    destruct (isShuttingDown m); [exact Hstay|]. clear Hstay.
    unfold inWorld, bind.
    destruct (executeJob (fires t) false (world m)) as [r w'] eqn:Hrun.
    assert (Hgoal : cron_wf w' /\ NoDup ((executions w').*1)
                    /\ registry_wf (jobs w') /\ now (world m) <= now w').
    { split; [eapply cron_wf_executeJob; eassumption|].
      split; [eapply executeJob_ledger_NoDup; eassumption|].
      split; [eapply executeJob_keeps_registry_wf; eassumption|].
      eapply executeJob_clock; eassumption. }
    destruct r; cbn [snd world]; exact Hgoal.
  - cbn. refine (conj Hcron (conj Hkeys (conj Hreg _))). lia.
Qed.

(** X12. Four properties of the state of a manager are kept by every call:
    every entry of [cronTasks] is the handle of a started task that fires the
    id it stands under; the keys of the ledger are distinct; every registered
    job has an [errorCount] of zero or more and a [lastRun] that is not the
    epoch, which is what the dependency gate relies on; and the clock does
    not go back.  A manager that has them, with its clock past the epoch,
    has them after calls to [createJob], [updateJob], [deleteJob] and
    [executeJob], firings of cron tasks and time going by, in any number and
    order, each awaited before the next, whether the calls return or throw.
    The manager that the constructor builds on an empty store has them. *)
Theorem reached_states_are_well_formed (m : Manager) (calls : list Call)
  (Hcron : cron_wf (world m))
  (Hkeys : NoDup ((executions (world m)).*1))
  (Hreg : registry_wf (jobs (world m)))
  (Hepoch : 0 < now (world m)) :
  (cron_wf (world (performAll calls m))
   /\ NoDup ((executions (world (performAll calls m))).*1)
   /\ registry_wf (jobs (world (performAll calls m)))
   /\ now (world m) <= now (world (performAll calls m)))
  /\ (forall c e t,
        cron_wf (world (startManager (newManager c e t)))
        /\ NoDup ((executions (world (startManager (newManager c e t)))).*1)
        /\ registry_wf (jobs (world (startManager (newManager c e t))))
        /\ now (world (startManager (newManager c e t))) = t).
Proof.
  split.
  - revert m Hcron Hkeys Hreg Hepoch.
    induction calls as [|call calls IH]; intros m Hcron Hkeys Hreg Hepoch.
    + cbn. refine (conj Hcron (conj Hkeys (conj Hreg _))). lia.
    + cbn [performAll foldl]. fold (performAll calls (perform call m)).
      destruct (perform_keeps_well_formed call m Hcron Hkeys Hreg Hepoch)
        as (Hcron' & Hkeys' & Hreg' & Hnow').
      destruct (IH (perform call m) Hcron' Hkeys' Hreg' ltac:(lia))
        as (Hcron'' & Hkeys'' & Hreg'' & Hnow'').
      refine (conj Hcron'' (conj Hkeys'' (conj Hreg'' _))). lia.
  - intros c e t. split; [apply cron_wf_new|].
    split; [cbn; constructor|]. split; [apply registry_wf_new | reflexivity].
Qed.

(** The theorem on a manager made at time 1000 on an empty store, in which
    ["feed"] is created, run, given a priority of 9, fired by its task and
    deleted. *)
Lemma reached_states_are_well_formed_witness :
  (cron_wf (world (startManager (newManager defaultConfig (envWith alwaysDone) 1000)))
   /\ NoDup ((executions
                (world (startManager (newManager defaultConfig (envWith alwaysDone) 1000)))).*1)
   /\ registry_wf
        (jobs (world (startManager (newManager defaultConfig (envWith alwaysDone) 1000))))
   /\ 0 < now (world (startManager (newManager defaultConfig (envWith alwaysDone) 1000))))
  /\ cron_wf (world (performAll
       [CallCreateJob feedData; CallExecuteJob "feed" false;
        CallUpdateJob "feed" priorityNine; CronFires 1; TimePasses 500;
        CallDeleteJob "feed"]
       (startManager (newManager defaultConfig (envWith alwaysDone) 1000)))).
Proof.
  assert (Hcron : cron_wf (world (startManager
                                    (newManager defaultConfig (envWith alwaysDone) 1000))))
    by apply cron_wf_new.
  assert (Hkeys : NoDup ((executions
                            (world (startManager
                                      (newManager defaultConfig (envWith alwaysDone) 1000)))).*1))
    by (cbn; constructor).
  assert (Hreg : registry_wf
                   (jobs (world (startManager
                                   (newManager defaultConfig (envWith alwaysDone) 1000)))))
    by apply registry_wf_new.
  assert (Hepoch : 0 < now (world (startManager
                                     (newManager defaultConfig (envWith alwaysDone) 1000))))
    by (cbn; lia).
  split; [exact (conj Hcron (conj Hkeys (conj Hreg Hepoch)))|].
  exact (proj1 (proj1 (reached_states_are_well_formed
                         (startManager (newManager defaultConfig (envWith alwaysDone) 1000))
                         [CallCreateJob feedData; CallExecuteJob "feed" false;
                          CallUpdateJob "feed" priorityNine; CronFires 1; TimePasses 500;
                          CallDeleteJob "feed"] Hcron Hkeys Hreg Hepoch))).
Defined.

Lemma cron_wf_managerIn c e d : cron_wf (managerIn c e d).
Proof.
  unfold managerIn. eapply cron_wf_createJob; [apply cron_wf_new | apply surjective_pairing].
Qed.

(** The theorem on ["feed"] given a priority of 9: the call returns, the
    registry holds a definition that [JobSchema] refuses, the task with
    handle 0 is stopped and a new one with handle 1 runs.  And on ["feed"]
    given an expression the cron library refuses: the call throws what the
    library throws, the registry holds the expression, the task with handle
    0 is stopped, there is no other task and nothing is notified. *)
Lemma updateJob_replaces_unchecked_witness :
  (exists job,
     (cron_wf (world managerFeedScheduled)
      /\ jobs (world managerFeedScheduled) !! "feed" = Some job)
     /\ exists m' stored,
          updateJob "feed" priorityNine managerFeedScheduled = (Ret tt, m')
          /\ jobs (world m') !! "feed" = Some stored
          /\ schemaIssues (ScheduledJob.definition stored) = ["priority"]
          /\ taskRunning 0 (world m') = false
          /\ taskRunning 1 (world m') = true)
  /\ (exists job,
        (cron_wf (world managerFeedStrict)
         /\ jobs (world managerFeedStrict) !! "feed" = Some job)
        /\ exists m' stored,
             updateJob "feed" cronAtDawn managerFeedStrict
             = (Throw (scheduleRefusal (env (world managerFeedStrict)) "at dawn"), m')
             /\ jobs (world m') !! "feed" = Some stored
             /\ ScheduledJob.cronExpression (ScheduledJob.definition stored) = "at dawn"
             /\ taskRunning 0 (world m') = false
             /\ cronTasks (world m') !! "feed" = None
             /\ length (timers (world m')) = 1%nat
             /\ notices m' = []).
Proof.
  split.
  - assert (Hwf : cron_wf (world managerFeedScheduled)) by apply cron_wf_managerIn.
    assert (Hjob : jobs (world managerFeedScheduled) !! "feed"
                   = Some (default reportJob (jobs (world managerFeedScheduled) !! "feed")))
      by (vm_compute; reflexivity).
    eexists. split; [split; [exact Hwf | exact Hjob]|].
    destruct (updateJob_replaces_unchecked "feed" priorityNine managerFeedScheduled _ Hwf Hjob)
      as (m' & stored & Hrun & Hreg & Hdef & _ & _ & _ & _ & _ & _ & _ & Hold & _ & Hnew).
    exists m', stored. split; [exact Hrun|].
    split; [rewrite Hreg; apply lookup_insert_eq|].
    split; [rewrite Hdef; vm_compute; reflexivity|].
    split; [apply Hold; vm_compute; reflexivity|].
    cbv zeta in Hnew.
    match type of Hnew with
    | if ?b then _ else _ => assert (Hen : b = true) by (vm_compute; reflexivity);
                             rewrite Hen in Hnew
    end.
    destruct Hnew as (_ & Htask & _). unfold taskRunning.
    change 1%nat with (length (timers (world managerFeedScheduled))).
    rewrite Htask. reflexivity.
  - assert (Hwf : cron_wf (world managerFeedStrict)) by apply cron_wf_managerIn.
    assert (Hjob : jobs (world managerFeedStrict) !! "feed"
                   = Some (default reportJob (jobs (world managerFeedStrict) !! "feed")))
      by (vm_compute; reflexivity).
    eexists. split; [split; [exact Hwf | exact Hjob]|].
    destruct (updateJob_replaces_unchecked "feed" cronAtDawn managerFeedStrict _ Hwf Hjob)
      as (m' & stored & Hrun & Hreg & Hdef & _ & Hnotices & _ & _ & _ & _ & _ & Hold & _ & Hnew).
    exists m', stored. split; [exact Hrun|].
    split; [rewrite Hreg; apply lookup_insert_eq|].
    split; [rewrite Hdef; reflexivity|].
    split; [apply Hold; vm_compute; reflexivity|].
    cbv zeta in Hnew.
    match type of Hnew with
    | if ?b then _ else _ => assert (Hen : b = false) by (vm_compute; reflexivity);
                             rewrite Hen in Hnew
    end.
    destruct Hnew as (Htasks & Hlen).
    split; [rewrite Htasks; apply lookup_delete_eq|].
    split; [rewrite Hlen; reflexivity|].
    exact Hnotices.
Defined.

(** ** Tasks that outlive their job *)

(** X13. [updateJob] with an [id] among the updates splits the job from its
    schedule.  When the new id differs from the id of the call and is not
    registered, the updated job is enabled and its expression is one that
    [cron.schedule] accepts: the registry keeps the job under the old id,
    carrying the new one; the new task stands under the new id and fires it,
    so each firing is refused with "Job not found"; and [deleteJob] on the
    old id, which finds no task under it, leaves that task running. *)
Theorem updateJob_with_new_id_strands_the_task (jobId newId : string)
  (updates : JobUpdates) (m : Manager) (job : ScheduledJob.t)
  (Hjob : jobs (world m) !! jobId = Some job)
  (Hid : u_id updates = Some newId)
  (Hnew : newId <> jobId)
  (Hfree : jobs (world m) !! newId = None)
  (Henabled : ScheduledJob.enabled (applyUpdates (ScheduledJob.definition job) updates) = true)
  (Hvalid : cron_validate (env (world m))
              (ScheduledJob.cronExpression
                 (applyUpdates (ScheduledJob.definition job) updates)) = true)
  (Hlive : isShuttingDown m = false) :
  exists m' stored,
    updateJob jobId updates m = (Ret tt, m')
    /\ jobs (world m') !! jobId = Some stored
    /\ ScheduledJob.id (ScheduledJob.definition stored) = newId
    /\ jobs (world m') !! newId = None
    /\ cronTasks (world m') !! jobId = None
    /\ cronTasks (world m') !! newId = Some (length (timers (world m)))
    /\ taskRunning (length (timers (world m))) (world m') = true
    /\ fireTask (length (timers (world m))) m'
       = (Throw (JsError ("Job not found: " +:+ newId)), m')
    /\ exists m'',
         deleteJob jobId m' = (Ret tt, m'')
         /\ taskRunning (length (timers (world m))) (world m'') = true
         /\ fireTask (length (timers (world m))) m''
            = (Throw (JsError ("Job not found: " +:+ newId)), m'').
Proof.
  assert (Hcarried : ScheduledJob.id (applyUpdates (ScheduledJob.definition job) updates) = newId)
    by (unfold applyUpdates; cbn [ScheduledJob.id]; rewrite Hid; reflexivity).
  pose proof (updateJob_run jobId updates m job Hjob) as Hrun. cbv zeta in Hrun.
  rewrite Henabled, Hvalid, Hcarried in Hrun. cbn [andb negb] in Hrun.
  set (tasks := match cronTasks (world m) !! jobId with
                | Some h0 => stopTask h0 (timers (world m))
                | None => timers (world m)
                end) in *.
  assert (Hlen : length tasks = length (timers (world m))).
  { subst tasks. destruct (cronTasks (world m) !! jobId); [apply stopTask_length | reflexivity]. }
  assert (Hfire : forall m1 : Manager,
            timers (world m1)
            = startTask (length (timers (world m)))
                (tasks ++ [ {| expression := ScheduledJob.cronExpression
                                               (applyUpdates (ScheduledJob.definition job) updates);
                               fires := newId; started := false |} ]) ->
            jobs (world m1) !! newId = None ->
            isShuttingDown m1 = false ->
            taskRunning (length (timers (world m))) (world m1) = true
            /\ fireTask (length (timers (world m))) m1
               = (Throw (JsError ("Job not found: " +:+ newId)), m1)).
  { intros m1 Htimers Hgone Hlive1.
    assert (Htask : timers (world m1) !! length (timers (world m))
                    = Some {| expression := ScheduledJob.cronExpression
                                              (applyUpdates (ScheduledJob.definition job) updates);
                              fires := newId; started := true |}).
    { rewrite Htimers, <- Hlen. unfold startTask.
      rewrite list_lookup_alter_eq, lookup_app_r, Nat.sub_diag by lia. reflexivity. }
    unfold taskRunning, fireTask, cronCallback. rewrite Htask. cbn [started fires].
    split; [reflexivity|]. rewrite Hlive1.
    unfold inWorld, bind, executeJob. rewrite Hgone. destruct m1; reflexivity. }
  match type of Hrun with _ = (_, ?m1) => set (m' := m1) in Hrun end.
  assert (Hgone : jobs (world m') !! newId = None).
  { subst m'. cbn [world jobs set_jobs]. rewrite lookup_insert_ne by congruence. exact Hfree. }
  assert (Hnone : cronTasks (world m') !! jobId = None).
  { subst m'. cbn [world cronTasks set_jobs set_timers set_cronTasks].
    rewrite lookup_insert_ne, lookup_delete_eq by congruence. reflexivity. }
  destruct (Hfire m' eq_refl Hgone Hlive) as [Hrunning Hrefused].
  exists m'. eexists. split; [exact Hrun|].
  split; [subst m'; cbn [world jobs set_jobs]; apply lookup_insert_eq|].
  split; [exact Hcarried|]. split; [exact Hgone|]. split; [exact Hnone|].
  split; [subst m'; cbn [world cronTasks set_jobs set_timers set_cronTasks];
          apply lookup_insert_eq|].
  split; [exact Hrunning|]. split; [exact Hrefused|].
  assert (Hstill : is_Some (jobs (world m') !! jobId))
    by (subst m'; cbn [world jobs set_jobs]; rewrite lookup_insert_eq; eauto).
  destruct Hstill as (stored' & Hstill).
  unfold deleteJob. rewrite Hstill.
  unfold inWorld, stopCronTask, persistJobs, notify. unfold_monad. rewrite Hnone.
  eexists. split; [reflexivity|].
  apply Hfire; [reflexivity | | exact Hlive].
  cbn [world jobs set_jobs set_circuitBreakers].
  rewrite lookup_delete_ne by congruence. exact Hgone.
Qed.

(** The theorem on ["feed"] renamed to ["feed2"]: the new task has handle
    1, and its firing finds no job. *)
Lemma updateJob_with_new_id_strands_the_task_witness :
  exists job,
    (jobs (world managerFeedScheduled) !! "feed" = Some job
     /\ u_id renameToFeed2 = Some "feed2"
     /\ "feed2" <> "feed"
     /\ jobs (world managerFeedScheduled) !! "feed2" = None
     /\ ScheduledJob.enabled (applyUpdates (ScheduledJob.definition job) renameToFeed2) = true
     /\ cron_validate (env (world managerFeedScheduled))
          (ScheduledJob.cronExpression
             (applyUpdates (ScheduledJob.definition job) renameToFeed2)) = true
     /\ isShuttingDown managerFeedScheduled = false)
    /\ exists m',
         updateJob "feed" renameToFeed2 managerFeedScheduled = (Ret tt, m')
         /\ fireTask 1 m' = (Throw (JsError "Job not found: feed2"), m').
Proof.
  assert (Hjob : jobs (world managerFeedScheduled) !! "feed"
                 = Some (default reportJob (jobs (world managerFeedScheduled) !! "feed")))
    by (vm_compute; reflexivity).
  assert (Hne : "feed2" <> "feed") by discriminate.
  assert (Hfree : jobs (world managerFeedScheduled) !! "feed2" = None)
    by (vm_compute; reflexivity).
  assert (Hen : ScheduledJob.enabled
                  (applyUpdates
                     (ScheduledJob.definition
                        (default reportJob (jobs (world managerFeedScheduled) !! "feed")))
                     renameToFeed2) = true)
    by (vm_compute; reflexivity).
  eexists.
  split; [exact (conj Hjob (conj eq_refl (conj Hne (conj Hfree
                   (conj Hen (conj eq_refl eq_refl))))))|].
  destruct (updateJob_with_new_id_strands_the_task "feed" "feed2" renameToFeed2
              managerFeedScheduled _ Hjob eq_refl Hne Hfree Hen eq_refl eq_refl)
    as (m' & stored & Hrun & _ & _ & _ & _ & _ & _ & Hfire & _).
  exists m'. split; [exact Hrun | exact Hfire].
Defined.

(** X14. [deleteJob] stops the one task that stands under the id.  A started
    task that fires the id without standing under it, as [createJob] on a
    taken id leaves behind, is still running after the job is deleted, and
    each of its firings is refused with "Job not found". *)
Theorem deleteJob_leaves_replaced_task_running (jobId : string) (m : Manager)
  (job : ScheduledJob.t) (h : nat) (task : CronTask)
  (Hjob : jobs (world m) !! jobId = Some job)
  (Htask : timers (world m) !! h = Some task)
  (Hstarted : started task = true)
  (Hfires : fires task = jobId)
  (Hreplaced : cronTasks (world m) !! jobId <> Some h)
  (Hlive : isShuttingDown m = false) :
  exists m',
    deleteJob jobId m = (Ret tt, m')
    /\ jobs (world m') !! jobId = None
    /\ taskRunning h (world m') = true
    /\ fireTask h m' = (Throw (JsError ("Job not found: " +:+ jobId)), m').
Proof.
  unfold deleteJob. rewrite Hjob.
  unfold inWorld, stopCronTask, persistJobs, notify. unfold_monad.
  cbn [world isShuttingDown notices].
  eexists. split; [reflexivity|].
  match goal with |- jobs (world ?m1) !! _ = _ /\ _ => set (m' := m1) end.
  assert (Hgone : jobs (world m') !! jobId = None).
  { subst m'. cbn [world]. destruct (cronTasks (world m) !! jobId);
      cbn [jobs set_circuitBreakers set_jobs]; apply lookup_delete_eq. }
  assert (Hkept : timers (world m') !! h = Some task).
  { subst m'. cbn [world]. destruct (cronTasks (world m) !! jobId) as [h0|] eqn:Hcron;
      cbn [timers set_circuitBreakers set_jobs set_cronTasks set_timers]; [|exact Htask].
    rewrite stopTask_other by congruence. exact Htask. }
  split; [exact Hgone|].
  unfold taskRunning, fireTask, cronCallback. rewrite Hkept, Hstarted, Hfires.
  split; [reflexivity|].
  assert (Hlive' : isShuttingDown m' = false) by exact Hlive. rewrite Hlive'.
  unfold inWorld, bind, executeJob. rewrite Hgone. reflexivity.
Qed.

(** The theorem on ["feed"] created twice: the task with handle 0 survives
    the deletion of the job and finds no job when it fires. *)
Lemma deleteJob_leaves_replaced_task_running_witness :
  exists job task,
    (jobs (world managerFeedTwice) !! "feed" = Some job
     /\ timers (world managerFeedTwice) !! 0%nat = Some task
     /\ started task = true
     /\ fires task = "feed"
     /\ cronTasks (world managerFeedTwice) !! "feed" <> Some 0%nat
     /\ isShuttingDown managerFeedTwice = false)
    /\ exists m',
         deleteJob "feed" managerFeedTwice = (Ret tt, m')
         /\ taskRunning 0 (world m') = true
         /\ fireTask 0 m' = (Throw (JsError "Job not found: feed"), m').
Proof.
  assert (Hjob : jobs (world managerFeedTwice) !! "feed"
                 = Some (default reportJob (jobs (world managerFeedTwice) !! "feed")))
    by (vm_compute; reflexivity).
  assert (Htask : timers (world managerFeedTwice) !! 0%nat
                  = Some {| expression := "*/5 * * * *"; fires := "feed"; started := true |})
    by (vm_compute; reflexivity).
  assert (Hrep : cronTasks (world managerFeedTwice) !! "feed" <> Some 0%nat)
    by (vm_compute; discriminate).
  eexists _, _.
  split; [exact (conj Hjob (conj Htask (conj eq_refl (conj eq_refl (conj Hrep eq_refl)))))|].
  destruct (deleteJob_leaves_replaced_task_running "feed" managerFeedTwice _ 0 _
              Hjob Htask eq_refl eq_refl Hrep eq_refl)
    as (m' & Hrun & _ & Hrunning & Hfire).
  exists m'. repeat split; assumption.
Defined.

(** ** The retry loop: attempts, clock and metrics *)

(** A loop that makes a round writes [running] first. *)
Lemma retryLoop_writes_running rounds attempt job lastError s r s' :
  retryLoop (S rounds) attempt job lastError s = (r, s') ->
  exists events,
    log (snd s')
    = log (snd s) ++ StatusWrite (JobExecution.id (fst s)) JobExecution.running :: events.
Proof.
  intros Hrun. cbn [retryLoop] in Hrun.
  rewrite bind_setExecution, bind_writeStatus in Hrun. cbn [fst snd] in Hrun.
  match type of Hrun with
  | try_catch ?c ?h ?s1 = _ =>
      assert (Hrest : steady true (try_catch c h)); [|pose proof (Hrest _ _ _ Hrun) as Hlater]
  end.
  { apply steady_try_catch.
    - apply steady_bind; [apply steady_lift, wsteady_memoryUsage|]. intros before.
      apply steady_bind; [apply steady_lift, wsteady_Date_now|]. intros t0.
      apply steady_bind; [apply steady_lift, wsteady_executeJobLogic|]. intros result.
      apply steady_bind; [apply steady_lift, wsteady_Date_now|]. intros t1.
      apply steady_bind; [apply steady_lift, wsteady_memoryUsage|]. intros after.
      apply steady_bind; [apply steady_setExecution; intros y; split; reflexivity|].
      intros _. apply steady_ret.
    - intros e. apply steady_bind; [|intros _; apply steady_retryLoop].
      destruct (_ <? _); [apply steady_lift, wsteady_backoff | apply steady_ret]. }
  destruct Hlater as ((events & L & _) & _). cbn [fst snd log set_log] in L.
  rewrite <- app_assoc in L. exists events. exact L.
Qed.

(** X15. A negative [maxRetries], which [updateJob] can store, makes the
    retry loop give up before its first attempt: it throws the fallback error
    "Job failed after all retry attempts" and leaves the execution and the
    state as they were.  With [maxRetries] at zero or more this never
    happens: the loop writes [running] before anything else. *)
Theorem no_attempt_iff_negative_retries (job : ScheduledJob.t) (s : Frame) :
  ScheduledJob.maxRetries (ScheduledJob.retryConfig (ScheduledJob.definition job)) < 0
  <-> runJobWithRetry job s
      = (Throw (JsError "Job failed after all retry attempts"), s).
Proof.
  unfold runJobWithRetry. cbv zeta. split.
  - intros Hneg.
    replace (Z.to_nat (ScheduledJob.maxRetries
                         (ScheduledJob.retryConfig (ScheduledJob.definition job)) + 1))
      with 0%nat by lia.
    reflexivity.
  - intros Hrun.
    destruct (Z.to_nat (ScheduledJob.maxRetries
                          (ScheduledJob.retryConfig (ScheduledJob.definition job)) + 1))
      as [|rounds] eqn:Hrounds; [lia|].
    destruct (retryLoop_writes_running _ _ _ _ _ _ _ Hrun) as (events & Hlog).
    apply (f_equal (@length Event)) in Hlog. rewrite length_app in Hlog.
    cbn [length] in Hlog. lia.
Qed.

(** A timer takes a millisecond at least, the delay it was armed with when
    that is within its range, and one millisecond when it is not. *)
Lemma timerDelay_pos delay : 1 <= timerDelay delay.
Proof.
  unfold timerDelay.
  destruct (Z.leb_spec 1 delay), (Z.leb_spec delay 2147483647); cbn; lia.
Qed.

Lemma timerDelay_in_range delay :
  1 <= delay <= 2147483647 -> timerDelay delay = delay.
Proof.
  intros [H1 H2]. unfold timerDelay.
  destruct (Z.leb_spec 1 delay), (Z.leb_spec delay 2147483647); cbn; lia.
Qed.

Lemma timerDelay_out_of_range delay :
  delay < 1 \/ 2147483647 < delay -> timerDelay delay = 1.
Proof.
  intros H. unfold timerDelay.
  destruct (Z.leb_spec 1 delay), (Z.leb_spec delay 2147483647); cbn; lia.
Qed.

(** One round whose body fails, with rounds left: the counter of the
    execution, the clock, and what is not written. *)
Lemma retryLoop_failed_round_clock rounds (k : nat) job lastError x w e :
  knownTarget job = true ->
  bodyFails w (bodyRuns w) e ->
  exists x1 w1,
    retryLoop (S rounds) (Z.of_nat k) job lastError (x, w)
    = retryLoop rounds (Z.of_nat (S k)) job (Some (toError e)) (x1, w1)
    /\ env w1 = env w
    /\ bodyRuns w1 = S (bodyRuns w)
    /\ JobExecution.retryAttempt x1 = Z.of_nat k
    /\ JobExecution.status x1 = JobExecution.running
    /\ JobExecution.metrics x1 = JobExecution.metrics x
    /\ now w1
       = now w + attemptTime w (bodyRuns w)
         + (if Z.of_nat k
               <? ScheduledJob.maxRetries (ScheduledJob.retryConfig (ScheduledJob.definition job))
            then sleepTime (ScheduledJob.retryConfig (ScheduledJob.definition job)) k
            else 0).
Proof.
  intros Hknown Hfail. unfold bodyFails in Hfail.
  pose proof (timerDelay_pos
                (retryDelay (ScheduledJob.retryConfig (ScheduledJob.definition job)) k))
    as Htimer.
  cbn [retryLoop]. rewrite Nat2Z.inj_succ, <- Z.add_1_r.
  unfold executeJobLogic, knownTarget, attemptTime, sleepTime, retryDelay in *.
  destruct (ScheduledJob.target_type (ScheduledJob.definition job)); try discriminate;
    unfold_monad; cbn [fst snd]; unfold runBody; cbn; rewrite Hfail; cbn;
    destruct (_ <? _); cbn; eexists _, _; (split; [reflexivity|]);
    cbn; repeat split; lia.
Qed.

(** A round whose body returns: the counter, the clock and the metrics. *)
Lemma retryLoop_success_round_clock rounds (k : nat) job lastError x w v :
  knownTarget job = true ->
  bodyReturns w (bodyRuns w) v ->
  exists x1 w1,
    retryLoop (S rounds) (Z.of_nat k) job lastError (x, w) = (Ret v, (x1, w1))
    /\ JobExecution.retryAttempt x1 = Z.of_nat k
    /\ JobExecution.status x1 = JobExecution.running
    /\ JobExecution.duration (JobExecution.metrics x1) = attemptTime w (bodyRuns w)
    /\ JobExecution.memoryUsage (JobExecution.metrics x1)
       = ResourceMonitor.heapUsed (memoryUsage (env w) (S (heapReads w)))
         - ResourceMonitor.heapUsed (memoryUsage (env w) (heapReads w))
    /\ now w1 = now w + attemptTime w (bodyRuns w).
Proof.
  intros Hknown Hret. unfold bodyReturns in Hret.
  cbn [retryLoop].
  unfold executeJobLogic, knownTarget, attemptTime in *.
  destruct (ScheduledJob.target_type (ScheduledJob.definition job)); try discriminate;
    unfold_monad; cbn [fst snd]; unfold runBody; cbn; rewrite Hret; cbn;
    eexists _, _; (split; [reflexivity|]); cbn; repeat split; lia.
Qed.

Lemma total_step (f : nat -> Z) (first n : nat) :
  total f first (S n) = f first + total f (S first) n.
Proof. reflexivity. Qed.

Lemma total_last (f : nat -> Z) (first n : nat) :
  total f first (S n) = total f first n + f (first + n)%nat.
Proof.
  revert first. induction n as [|n IH]; intros first.
  - unfold total. cbn. rewrite Nat.add_0_r. lia.
  - rewrite total_step, IH, (total_step f first n).
    replace (S first + n)%nat with (first + S n)%nat by lia. lia.
Qed.

(** [j] failing rounds in a row, each followed by its sleep. *)
Lemma retryLoop_failed_rounds_clock job (errors : nat -> Thrown) (first : nat) (j : nat) :
  forall rounds (k : nat) lastError x w,
    knownTarget job = true ->
    bodyRuns w = (first + k)%nat ->
    (forall i, (k <= i < k + j)%nat -> bodyFails w (first + i) (errors i)) ->
    Z.of_nat (k + j)
    <= ScheduledJob.maxRetries (ScheduledJob.retryConfig (ScheduledJob.definition job)) ->
    exists lastError' x1 w1,
      retryLoop (j + rounds) (Z.of_nat k) job lastError (x, w)
      = retryLoop rounds (Z.of_nat (k + j)) job lastError' (x1, w1)
      /\ env w1 = env w
      /\ bodyRuns w1 = (first + (k + j))%nat
      /\ (JobExecution.metrics x1 = JobExecution.metrics x)
      /\ now w1
         = now w + total (fun i => attemptTime w (first + i)) k j
           + total (sleepTime (ScheduledJob.retryConfig (ScheduledJob.definition job))) k j.
Proof.
  induction j as [|j IH]; intros rounds k lastError x w Hknown Hruns Hfail Hroom.
  - exists lastError, x, w. rewrite Nat.add_0_r. unfold total. cbn.
    repeat split; (assumption || lia).
  - assert (Hfirst : bodyFails w (bodyRuns w) (errors k)) by (rewrite Hruns; apply Hfail; lia).
    destruct (retryLoop_failed_round_clock (j + rounds) k job lastError x w (errors k)
                Hknown Hfirst)
      as (x1 & w1 & Heq & Henv & Hruns1 & _ & _ & Hmet & Hnow).
    destruct (IH rounds (S k) (Some (toError (errors k))) x1 w1 Hknown) as
      (lastError' & x2 & w2 & Heq2 & Henv2 & Hruns2 & Hmet2 & Hnow2).
    + rewrite Hruns1, Hruns. lia.
    + intros i Hi. unfold bodyFails in *. rewrite Henv. apply Hfail. lia.
    + lia.
    + exists lastError', x2, w2.
      replace (k + S j)%nat with (S k + j)%nat by lia.
      cbn [Nat.add]. rewrite Heq, Heq2. cbn [Nat.add].
      split; [reflexivity|]. split; [congruence|].
      split; [exact Hruns2|]. split; [congruence|].
      rewrite Hnow2, Hnow, !total_step, Hruns.
      destruct (Z.ltb_spec (Z.of_nat k)
                  (ScheduledJob.maxRetries
                     (ScheduledJob.retryConfig (ScheduledJob.definition job)))); [|lia].
      unfold attemptTime. rewrite Henv. lia.
Qed.

Lemma total_nonneg (f : nat -> Z) (first n : nat) :
  (forall i, 0 <= f i) -> 0 <= total f first n.
Proof.
  intros Hf. revert first. induction n as [|n IH]; intros first.
  - unfold total. cbn. lia.
  - rewrite total_step. specialize (Hf first). specialize (IH (S first)). lia.
Qed.

(** X16. What the retry loop leaves behind, for a retry policy with
    [maxRetries = R >= 0] and a job of a known kind.  When all [R + 1]
    attempts fail, the body was run [R + 1] times, the log holds the [R + 1]
    attempts with a timer armed with [initialDelay * backoffMultiplier ^ k]
    after attempt [k < R] and none after attempt [R], the error of attempt
    [R] is thrown, [retryAttempt] is [R], the metrics are as they were, and
    the clock has moved by the time of the [R + 1] attempts and of the [R]
    sleeps.  When attempts [0] to [k - 1] fail and attempt [k <= R] returns,
    the body was run [k + 1] times, the execution carries [retryAttempt = k]
    and status [running], its [duration] is the time the last attempt took,
    not the time of the whole loop, and the clock has moved by the time of
    the [k + 1] attempts and of the [k] sleeps between them.  A sleep takes
    what the timer makes of the delay: the delay itself when it is within
    the range of a timer, one millisecond when it is beyond it. *)
Theorem retry_loop_accounting (job : ScheduledJob.t) (x : JobExecution.t) (w : World)
  (Hretries : 0 <= ScheduledJob.maxRetries (ScheduledJob.retryConfig (ScheduledJob.definition job)))
  (Hknown : knownTarget job = true) :
  let rc := ScheduledJob.retryConfig (ScheduledJob.definition job) in
  let R := Z.to_nat (ScheduledJob.maxRetries rc) in
  (forall errors : nat -> Thrown,
     (forall i, (i <= R)%nat -> bodyFails w (bodyRuns w + i) (errors i)) ->
     exists x' w',
       runJobWithRetry job (x, w) = (Throw (toError (errors R)), (x', w'))
       /\ bodyRuns w' = (bodyRuns w + (R + 1))%nat
       /\ log w' = log w ++ retryTrace (JobExecution.id x) rc (bodyRuns w) R
       /\ JobExecution.retryAttempt x' = Z.of_nat R
       /\ JobExecution.status x' = JobExecution.running
       /\ JobExecution.metrics x' = JobExecution.metrics x
       /\ now w'
          = now w + total (fun i => attemptTime w (bodyRuns w + i)) 0 (R + 1)
            + total (sleepTime rc) 0 R)
  /\ (forall (errors : nat -> Thrown) (k : nat) (v : Value),
        (k <= R)%nat ->
        (forall i, (i < k)%nat -> bodyFails w (bodyRuns w + i) (errors i)) ->
        bodyReturns w (bodyRuns w + k) v ->
        exists x' w',
          runJobWithRetry job (x, w) = (Ret v, (x', w'))
          /\ bodyRuns w' = (bodyRuns w + (k + 1))%nat
          /\ log w' = log w ++ retryTrace (JobExecution.id x) rc (bodyRuns w) k
          /\ JobExecution.retryAttempt x' = Z.of_nat k
          /\ JobExecution.status x' = JobExecution.running
          /\ JobExecution.duration (JobExecution.metrics x') = attemptTime w (bodyRuns w + k)
          /\ now w'
             = now w + total (fun i => attemptTime w (bodyRuns w + i)) 0 (k + 1)
               + total (sleepTime rc) 0 k
          /\ now w + total (sleepTime rc) 0 k <= now w')
  /\ (forall k, 1 <= retryDelay rc k <= 2147483647 -> sleepTime rc k = retryDelay rc k)
  /\ (forall k, 2147483647 < retryDelay rc k -> sleepTime rc k = 1).
Proof.
  intros rc R.
  assert (Hclock :
    (forall errors : nat -> Thrown,
       (forall i, (i <= R)%nat -> bodyFails w (bodyRuns w + i) (errors i)) ->
       exists x' w',
         runJobWithRetry job (x, w) = (Throw (toError (errors R)), (x', w'))
         /\ JobExecution.retryAttempt x' = Z.of_nat R
         /\ JobExecution.status x' = JobExecution.running
         /\ JobExecution.metrics x' = JobExecution.metrics x
         /\ now w'
            = now w + total (fun i => attemptTime w (bodyRuns w + i)) 0 (R + 1)
              + total (sleepTime rc) 0 R)
    /\ (forall (errors : nat -> Thrown) (k : nat) (v : Value),
          (k <= R)%nat ->
          (forall i, (i < k)%nat -> bodyFails w (bodyRuns w + i) (errors i)) ->
          bodyReturns w (bodyRuns w + k) v ->
          exists x' w',
            runJobWithRetry job (x, w) = (Ret v, (x', w'))
            /\ JobExecution.retryAttempt x' = Z.of_nat k
            /\ JobExecution.status x' = JobExecution.running
            /\ JobExecution.duration (JobExecution.metrics x')
               = attemptTime w (bodyRuns w + k)
            /\ now w'
               = now w + total (fun i => attemptTime w (bodyRuns w + i)) 0 (k + 1)
                 + total (sleepTime rc) 0 k
            /\ now w + total (sleepTime rc) 0 k <= now w')).
  { unfold runJobWithRetry. cbv zeta.
    assert (HR : ScheduledJob.maxRetries rc = Z.of_nat R) by (subst R rc; lia).
    clearbody R. fold rc. rewrite HR.
    replace (Z.to_nat (Z.of_nat R + 1)) with (R + 1)%nat by lia.
    split.
    - intros errors Hfail.
      destruct (retryLoop_failed_rounds_clock job errors (bodyRuns w) R 1 0 None x w Hknown)
        as (lastError & x1 & w1 & Heq & Henv & Hruns & Hmet & Hnow).
      + lia.
      + intros i Hi. apply Hfail. lia.
      + fold rc. lia.
      + assert (Hlast : bodyFails w1 (bodyRuns w1) (errors R)).
        { unfold bodyFails in *. rewrite Henv, Hruns. apply Hfail. lia. }
        destruct (retryLoop_failed_round_clock 0 R job lastError x1 w1 (errors R) Hknown Hlast)
          as (x2 & w2 & Heq2 & _ & _ & Hatt & Hst & Hmet2 & Hnow2).
        exists x2, w2. change (Z.of_nat 0) with 0 in Heq. rewrite Heq. cbn [Nat.add].
        rewrite Heq2. cbn [retryLoop from_option id]. unfold throw.
        split; [reflexivity|]. split; [exact Hatt|]. split; [exact Hst|].
        split; [congruence|].
        rewrite Hnow2, Hnow. fold rc.
        destruct (Z.ltb_spec (Z.of_nat R) (ScheduledJob.maxRetries rc)); [lia|].
        replace (R + 1)%nat with (S R) by lia. rewrite total_last. cbn [Nat.add].
        assert (Htime : attemptTime w1 (bodyRuns w1) = attemptTime w (bodyRuns w + R))
          by (unfold attemptTime; rewrite Henv, Hruns; reflexivity).
        rewrite Htime. lia.
    - intros errors k v Hk Hfail Hret.
      destruct (retryLoop_failed_rounds_clock job errors (bodyRuns w) k (R - k + 1) 0 None x w
                  Hknown)
        as (lastError & x1 & w1 & Heq & Henv & Hruns & Hmet & Hnow).
      + lia.
      + intros i Hi. apply Hfail. lia.
      + fold rc. lia.
      + assert (Hlast : bodyReturns w1 (bodyRuns w1) v).
        { unfold bodyReturns in *. rewrite Henv, Hruns. exact Hret. }
        replace (R + 1)%nat with (k + (R - k + 1))%nat by lia.
        change (Z.of_nat 0) with 0 in Heq. rewrite Heq.
        replace (R - k + 1)%nat with (S (R - k)) by lia.
        destruct (retryLoop_success_round_clock (R - k) (0 + k) job lastError x1 w1 v
                    Hknown Hlast) as (x2 & w2 & Heq2 & Hatt & Hst & Hdur & _ & Hnow2).
        exists x2, w2. rewrite Heq2. cbn [Nat.add] in *.
        assert (Htime : attemptTime w1 (bodyRuns w1) = attemptTime w (bodyRuns w + k))
          by (unfold attemptTime; rewrite Henv, Hruns; reflexivity).
        assert (Hclock : now w2
                         = now w + total (fun i => attemptTime w (bodyRuns w + i)) 0 (k + 1)
                           + total (sleepTime rc) 0 k).
        { rewrite Hnow2, Hnow, Htime. fold rc.
          replace (k + 1)%nat with (S k) by lia. rewrite total_last. cbn [Nat.add]. lia. }
        split; [reflexivity|]. split; [exact Hatt|]. split; [exact Hst|].
        split; [rewrite Hdur; exact Htime|]. split; [exact Hclock|].
        rewrite Hclock.
        pose proof (total_nonneg (fun i => attemptTime w (bodyRuns w + i)) 0 (k + 1)) as Hpos.
        specialize (Hpos ltac:(intros i; unfold attemptTime; lia)). lia. }
  destruct Hclock as [Cfail Cret].
  destruct (runJobWithRetry_trace job x w Hretries Hknown) as [Tfail Tret].
  fold rc in Tfail, Tret. fold R in Tfail, Tret.
  split; [|split; [|split]].
  - intros errors Hfail.
    destruct (Tfail errors Hfail) as (x1 & w1 & E1 & _ & Hruns & Hlog).
    destruct (Cfail errors Hfail) as (x2 & w2 & E2 & Hatt & Hst & Hmet & Hnow).
    rewrite E1 in E2. injection E2 as <- <-.
    exists x1, w1. repeat (split; [assumption|]). exact Hnow.
  - intros errors k v Hk Hfail Hret.
    destruct (Tret errors k v Hk Hfail Hret) as (x1 & w1 & E1 & Hruns & Hlog).
    destruct (Cret errors k v Hk Hfail Hret) as (x2 & w2 & E2 & Hatt & Hst & Hdur & Hnow & Hle).
    rewrite E1 in E2. injection E2 as <- <-.
    exists x1, w1. repeat (split; [assumption|]). exact Hle.
  - intros k. apply timerDelay_in_range.
  - intros k Hlong. apply timerDelay_out_of_range. right. exact Hlong.
Qed.

(** The theorem on ["report"], whose body is down and takes 7 ms: three
    attempts and sleeps of 100 and 200 ms move the clock from 1000 to 1321,
    and the execution carries [retryAttempt = 2]. *)
Lemma retry_loop_accounting_witness :
  (0 <= ScheduledJob.maxRetries (ScheduledJob.retryConfig (ScheduledJob.definition reportJob))
   /\ knownTarget reportJob = true)
  /\ exists x' w',
       runJobWithRetry reportJob (newExecution "report" 1000, worldReportDown)
       = (Throw (JsError "upstream down"), (x', w'))
       /\ log w'
          = log worldReportDown
            ++ [StatusWrite "report_1000" JobExecution.running; BodyRun 0; Backoff 100;
                StatusWrite "report_1000" JobExecution.running; BodyRun 1; Backoff 200;
                StatusWrite "report_1000" JobExecution.running; BodyRun 2]
       /\ JobExecution.retryAttempt x' = 2
       /\ now w' = 1321.
Proof.
  assert (H0 : 0 <= ScheduledJob.maxRetries
                      (ScheduledJob.retryConfig (ScheduledJob.definition reportJob)))
    by (simpl; lia).
  split; [split; [exact H0 | reflexivity]|].
  destruct (retry_loop_accounting reportJob (newExecution "report" 1000) worldReportDown
              H0 eq_refl) as [Hdown _].
  destruct (Hdown (fun _ => JsError "upstream down"))
    as (x' & w' & Heq & _ & Hlog & Hatt & _ & _ & Hnow).
  - intros i _. reflexivity.
  - exists x', w'. split; [exact Heq|]. split; [exact Hlog|]. split; [exact Hatt|].
    rewrite Hnow. vm_compute. reflexivity.
Defined.

(** ** Waiting for resources *)

Lemma World_eq (w1 w2 : World) :
  config w1 = config w2 -> jobs w1 = jobs w2 -> cronTasks w1 = cronTasks w2 ->
  executions w1 = executions w2 -> jobQueue w1 = jobQueue w2 ->
  circuitBreakers w1 = circuitBreakers w2 -> timers w1 = timers w2 -> env w1 = env w2 ->
  now w1 = now w2 -> heapReads w1 = heapReads w2 -> bodyRuns w1 = bodyRuns w2 ->
  log w1 = log w2 -> w1 = w2.
Proof. destruct w1, w2. cbn. intros. subst. reflexivity. Qed.

Lemma checkResources_step (k : nat) (w : World) :
  checkResources (S k) w
  = if ResourceMonitor.isSystemOverloaded (memoryUsage (env w) (heapReads w))
    then checkResources k
           (set_now (now w + 2000)
              (set_log (log w ++ [ResourcePoll]) (set_heapReads (S (heapReads w)) w)))
    else (Ret tt, set_heapReads (S (heapReads w)) w).
Proof.
  cbn [checkResources]. unfold isSystemOverloaded. unfold_monad.
  destruct (ResourceMonitor.isSystemOverloaded _); reflexivity.
Qed.

Lemma checkResources_polls (j : nat) : forall (rest : nat) (w : World),
  (forall i, (i < j)%nat ->
     ResourceMonitor.isSystemOverloaded (memoryUsage (env w) (heapReads w + i)) = true) ->
  ResourceMonitor.isSystemOverloaded (memoryUsage (env w) (heapReads w + j)) = false ->
  checkResources (S (j + rest)) w = (Ret tt, afterPolls j w).
Proof.
  induction j as [|j IH]; intros rest w Hbusy Hcalm; rewrite checkResources_step.
  - rewrite Nat.add_0_r in Hcalm. rewrite Hcalm. f_equal.
    apply World_eq; cbn; rewrite ?app_nil_r; try reflexivity; lia.
  - pose proof (Hbusy 0%nat ltac:(lia)) as Hfirst. rewrite Nat.add_0_r in Hfirst.
    rewrite Hfirst. cbn [Nat.add]. rewrite IH.
    + f_equal. apply World_eq; cbn; try reflexivity; try lia.
      rewrite <- app_assoc. reflexivity.
    + intros i Hi. cbn [env heapReads set_now set_log set_heapReads].
      replace (S (heapReads w) + i)%nat with (heapReads w + S i)%nat by lia.
      apply Hbusy. lia.
    + cbn [env heapReads set_now set_log set_heapReads].
      replace (S (heapReads w) + j)%nat with (heapReads w + S j)%nat by lia.
      exact Hcalm.
Qed.

(** X17. [waitForResources] polls the monitor at once and then every two
    seconds.  When the next [j] heap readings are overloaded and the one
    after is not, with [j] below the number of polls the model follows, it
    resolves after exactly [j] waits: the clock has moved by [2000 * j] ms,
    [j + 1] readings were taken, and nothing else has changed; with a calm
    first reading it resolves without any wait. *)
Theorem waitForResources_polls (w : World) (j : nat)
  (Hpatience : (j < patience (env w))%nat)
  (Hbusy : forall i, (i < j)%nat ->
     ResourceMonitor.isSystemOverloaded (memoryUsage (env w) (heapReads w + i)) = true)
  (Hcalm : ResourceMonitor.isSystemOverloaded (memoryUsage (env w) (heapReads w + j)) = false) :
  waitForResources w = (Ret tt, afterPolls j w)
  /\ now (afterPolls j w) = now w + 2000 * Z.of_nat j
  /\ since w (afterPolls j w) = repeat ResourcePoll j
  /\ bodyRuns (afterPolls j w) = bodyRuns w
  /\ fixtures (afterPolls j w) = fixtures w
  /\ (j = 0%nat -> now (afterPolls j w) = now w /\ log (afterPolls j w) = log w).
Proof.
  unfold waitForResources.
  replace (patience (env w)) with (S (j + (patience (env w) - S j)))%nat by lia.
  rewrite checkResources_polls by assumption.
  split; [reflexivity|]. split; [reflexivity|].
  split; [apply since_app; reflexivity|]. split; [reflexivity|]. split; [reflexivity|].
  intros ->. cbn. rewrite app_nil_r. split; [lia | reflexivity].
Qed.

(** The theorem on a manager whose next two heap readings are at 95
    percent: two waits, four seconds. *)
Lemma waitForResources_polls_witness :
  ((2 < patience (env (newManager defaultConfig envBusyTwice 1000)))%nat
   /\ (forall i, (i < 2)%nat ->
         ResourceMonitor.isSystemOverloaded
           (memoryUsage (env (newManager defaultConfig envBusyTwice 1000))
              (heapReads (newManager defaultConfig envBusyTwice 1000) + i)) = true)
   /\ ResourceMonitor.isSystemOverloaded
        (memoryUsage (env (newManager defaultConfig envBusyTwice 1000))
           (heapReads (newManager defaultConfig envBusyTwice 1000) + 2)) = false)
  /\ exists w',
       waitForResources (newManager defaultConfig envBusyTwice 1000) = (Ret tt, w')
       /\ now w' = 5000.
Proof.
  assert (Hpatience : (2 < patience (env (newManager defaultConfig envBusyTwice 1000)))%nat)
    by (cbn; lia).
  assert (Hbusy : forall i, (i < 2)%nat ->
            ResourceMonitor.isSystemOverloaded
              (memoryUsage (env (newManager defaultConfig envBusyTwice 1000))
                 (heapReads (newManager defaultConfig envBusyTwice 1000) + i)) = true).
  { intros i Hi. destruct i as [|[|i]]; [reflexivity | reflexivity | lia]. }
  split; [exact (conj Hpatience (conj Hbusy eq_refl))|].
  destruct (waitForResources_polls (newManager defaultConfig envBusyTwice 1000) 2
              Hpatience Hbusy eq_refl) as (Hrun & Hnow & _).
  eexists. split; [exact Hrun|]. rewrite Hnow. reflexivity.
Defined.

(** ** A priority without a lane *)

(** X18. The queue has lanes for the priorities 1 to 5 only, and
    [updateJob] can store any other.  An execution of a job whose priority
    has no lane, let through by the guards and by its breaker, is booked as
    failed with "Invalid priority": the body is not run, the monitor is not
    read, no time passes, the status goes from [pending] to [failed], and
    the failure counts against the breaker of the job. *)
Theorem execution_without_lane_fails_unrun (w : World) (jobId : string) (manual : bool)
  (job : ScheduledJob.t) (cb1 : CircuitBreaker.t)
  (Hjob : jobs w !! jobId = Some job)
  (Hguards : manual = true
             \/ (ScheduledJob.enabled (ScheduledJob.definition job) = true
                 /\ checkDependencies (jobs w)
                      (ScheduledJob.dependencies (ScheduledJob.definition job)) = true))
  (Hlane : jobQueue w !! ScheduledJob.priority (ScheduledJob.definition job) = None)
  (Hbreaker : CircuitBreaker.enter (now w)
                (default (CircuitBreaker.new (circuitBreakerThreshold (config w))
                            CircuitBreaker.default_timeout)
                   (circuitBreakers w !! jobId)) = Some cb1) :
  exists e w',
    executeJob jobId manual w = (Ret e, w')
    /\ JobExecution.status e = JobExecution.failed
    /\ JobExecution.error e
       = Some ("Invalid priority: "
               +:+ pretty (ScheduledJob.priority (ScheduledJob.definition job)))
    /\ bodyRuns w' = bodyRuns w
    /\ heapReads w' = heapReads w
    /\ now w' = now w
    /\ statusesOf (since w w') = [JobExecution.pending; JobExecution.failed]
    /\ circuitBreakers w' !! jobId = Some (CircuitBreaker.onFailure (now w) cb1).
Proof.
  assert (Hrun : executeJob jobId manual w = runExecution jobId job w).
  { unfold executeJob. rewrite Hjob.
    destruct Hguards as [-> | [-> ->]]; [rewrite !andb_false_r | rewrite andb_false_r];
      reflexivity. }
  rewrite Hrun. unfold runExecution, tryBlock, CircuitBreaker.execute.
  cbn [snd fst startExecution circuitBreakers config now set_log set_executions
       set_circuitBreakers].
  rewrite Hbreaker. unfold addJob.
  cbn [snd fst jobQueue set_circuitBreakers set_log set_executions]. rewrite Hlane.
  unfold onFailed, settle, cleanupExecutionHistory, persistJobs.
  unfold_monad. cbn [fst snd].
  eexists _, _. split; [reflexivity|]. cbn.
  rewrite lookup_insert_eq.
  repeat (split; [reflexivity|]). split; [|reflexivity].
  unfold since. cbn [log set_log set_jobs set_executions set_circuitBreakers].
  rewrite <- !app_assoc, drop_app_length. reflexivity.
Qed.

(** The theorem on ["feed"] after its priority was set to 9. *)
Lemma execution_without_lane_fails_unrun_witness :
  exists w job cb1,
    (jobs w !! "feed" = Some job
     /\ (true = true
         \/ (ScheduledJob.enabled (ScheduledJob.definition job) = true
             /\ checkDependencies (jobs w)
                  (ScheduledJob.dependencies (ScheduledJob.definition job)) = true))
     /\ jobQueue w !! ScheduledJob.priority (ScheduledJob.definition job) = None
     /\ CircuitBreaker.enter (now w)
          (default (CircuitBreaker.new (circuitBreakerThreshold (config w))
                      CircuitBreaker.default_timeout)
             (circuitBreakers w !! "feed")) = Some cb1)
    /\ w = world (snd (updateJob "feed" priorityNine managerFeedScheduled))
    /\ exists e w',
         executeJob "feed" true w = (Ret e, w')
         /\ JobExecution.error e = Some "Invalid priority: 9"
         /\ bodyRuns w' = bodyRuns w.
Proof.
  set (w := world (snd (updateJob "feed" priorityNine managerFeedScheduled))).
  assert (Hjob : jobs w !! "feed" = Some (default reportJob (jobs w !! "feed")))
    by (vm_compute; reflexivity).
  assert (Hlane : jobQueue w
                    !! ScheduledJob.priority
                         (ScheduledJob.definition (default reportJob (jobs w !! "feed")))
                  = None)
    by (vm_compute; reflexivity).
  assert (Hbreaker : CircuitBreaker.enter (now w)
            (default (CircuitBreaker.new (circuitBreakerThreshold (config w))
                        CircuitBreaker.default_timeout)
               (circuitBreakers w !! "feed"))
            = Some (CircuitBreaker.new 5 60000))
    by (vm_compute; reflexivity).
  exists w. eexists _, _.
  split; [exact (conj Hjob (conj (or_introl eq_refl) (conj Hlane Hbreaker)))|].
  split; [reflexivity|].
  destruct (execution_without_lane_fails_unrun w "feed" true _ _ Hjob (or_introl eq_refl)
              Hlane Hbreaker) as (e & w' & Hrun & _ & Herr & Hruns & _).
  exists e, w'. split; [exact Hrun|]. split; [|exact Hruns].
  rewrite Herr. vm_compute. reflexivity.
Defined.

(** ** What createJob lets through *)

Lemma schemaIssues_none (d : ScheduledJob.JobData) :
  schemaIssues d = [] ->
  (1 <= String.length (ScheduledJob.name d))%nat
  /\ knownTarget {| ScheduledJob.definition := d;
                    ScheduledJob.metadata := freshMetadata 0 |} = true
  /\ 1 <= ScheduledJob.priority d <= 5
  /\ 0 <= ScheduledJob.maxRetries (ScheduledJob.retryConfig d)
  /\ 1 <= ScheduledJob.backoffMultiplier (ScheduledJob.retryConfig d)
  /\ 100 <= ScheduledJob.initialDelay (ScheduledJob.retryConfig d)
  /\ 1000 <= ScheduledJob.timeout d.
Proof.
  unfold schemaIssues, knownTarget. cbn [ScheduledJob.definition].
  destruct (Z.leb_spec 1 (Z.of_nat (String.length (ScheduledJob.name d)))); [|discriminate].
  destruct (ScheduledJob.target_type d); try discriminate;
    destruct (Z.leb_spec 1 (ScheduledJob.priority d)); try discriminate;
    destruct (Z.leb_spec (ScheduledJob.priority d) 5); try discriminate;
    destruct (Z.leb_spec 0 (ScheduledJob.maxRetries (ScheduledJob.retryConfig d)));
      try discriminate;
    destruct (Z.leb_spec 1 (ScheduledJob.backoffMultiplier (ScheduledJob.retryConfig d)));
      try discriminate;
    destruct (Z.leb_spec 100 (ScheduledJob.initialDelay (ScheduledJob.retryConfig d)));
      try discriminate;
    destruct (Z.leb_spec 1000 (ScheduledJob.timeout d)); try discriminate;
    intros _; repeat split; (reflexivity || lia).
Qed.

(** X19. [createJob] runs its two checks before it writes anything.  A
    definition that fails the schema is refused with the [ZodError] of its
    issues, and one that passes the schema with an expression that
    [cron.validate] refuses is refused with "Invalid cron expression: ...";
    in both cases the state is as it was.  When the call returns, it returns
    the id of the definition; the definition passed the schema and the cron
    validation, so its priority, a whole number here, has a lane in every
    queue the constructor builds, its [maxRetries] is not negative and its
    target is of a known kind; the job is in the registry and [job:created]
    is the last event, with that job; every other job is as before; and the
    ledger, the breakers, with the one that may stand under the id from an
    earlier job, the queue, the configuration and the clock are untouched. *)
Theorem createJob_checks_before_writing (d : ScheduledJob.JobData) (w : World) :
  (forall issue issues,
     schemaIssues d = issue :: issues ->
     createJob d w = (Throw (ZodError (issue :: issues)), w))
  /\ (schemaIssues d = [] ->
      cron_validate (env w) (ScheduledJob.cronExpression d) = false ->
      createJob d w
      = (Throw (JsError ("Invalid cron expression: " +:+ ScheduledJob.cronExpression d)), w))
  /\ (forall id w',
        createJob d w = (Ret id, w') ->
        id = ScheduledJob.id d
        /\ schemaIssues d = []
        /\ cron_validate (env w) (ScheduledJob.cronExpression d) = true
        /\ (forall concurrency,
              is_Some (PriorityJobQueue.new concurrency !! ScheduledJob.priority d))
        /\ 0 <= ScheduledJob.maxRetries (ScheduledJob.retryConfig d)
        /\ (exists job,
              jobs w' !! id = Some job
              /\ ScheduledJob.definition job = d
              /\ knownTarget job = true
              /\ log w' = log w ++ [JobCreated job])
        /\ (forall other, other <> id -> jobs w' !! other = jobs w !! other)
        /\ executions w' = executions w
        /\ circuitBreakers w' = circuitBreakers w
        /\ jobQueue w' = jobQueue w
        /\ config w' = config w
        /\ now w' = now w).
Proof.
  unfold createJob, JobSchema_parse, scheduleJob, persistJobs.
  destruct (schemaIssues d) as [|issue issues] eqn:Hschema; unfold_monad;
    [|split; [intros ? ? [= <- <-]; reflexivity | split; discriminate]].
  split; [discriminate|].
  destruct (cron_validate (env w) (ScheduledJob.cronExpression d)) eqn:Hcron; cbn [negb];
    [|split; [reflexivity | discriminate]].
  split; [discriminate|].
  destruct (schemaIssues_none d Hschema) as (_ & Hknown & Hprio & Hretries & _).
  assert (Hlane : forall concurrency,
            is_Some (PriorityJobQueue.new concurrency !! ScheduledJob.priority d)).
  { intros concurrency. rewrite lanes_lookup. rewrite decide_True by exact Hprio. eauto. }
  destruct (ScheduledJob.enabled d) eqn:Hen; cron_checked Hcron;
    intros id w' [= <- <-];
    cbn [jobs log executions circuitBreakers jobQueue config now
         set_jobs set_log set_timers set_cronTasks];
    (split; [reflexivity|]); (split; [reflexivity|]); (split; [reflexivity|]);
    (split; [exact Hlane|]); (split; [exact Hretries|]);
    (split; [eexists; rewrite ?lookup_insert_eq;
             (split; [reflexivity|]); (split; [reflexivity|]);
             (split; [exact Hknown | reflexivity])|]);
    (split; [intros other Hother; rewrite !lookup_insert_ne by congruence; reflexivity|]);
    repeat split.
Qed.

(** ** A target of an unknown kind *)

(** One round on a job of an unknown kind. *)
Lemma retryLoop_unknown_round rounds (k : nat) job lastError x w type :
  ScheduledJob.target_type (ScheduledJob.definition job) = ScheduledJob.other_target type ->
  exists x1 w1,
    retryLoop (S rounds) (Z.of_nat k) job lastError (x, w)
    = retryLoop rounds (Z.of_nat (S k)) job
        (Some (JsError ("Unknown job type: " +:+ type))) (x1, w1)
    /\ bodyRuns w1 = bodyRuns w
    /\ JobExecution.retryAttempt x1 = Z.of_nat k
    /\ (exists events,
          log w1 = log w ++ events /\ statusesOf events = [JobExecution.running])
    /\ now w1
       = now w
         + (if Z.of_nat k
               <? ScheduledJob.maxRetries (ScheduledJob.retryConfig (ScheduledJob.definition job))
            then sleepTime (ScheduledJob.retryConfig (ScheduledJob.definition job)) k
            else 0).
Proof.
  intros Htype.
  pose proof (timerDelay_pos
                (retryDelay (ScheduledJob.retryConfig (ScheduledJob.definition job)) k))
    as Htimer.
  cbn [retryLoop]. rewrite Nat2Z.inj_succ, <- Z.add_1_r.
  unfold executeJobLogic, sleepTime, retryDelay in *. rewrite Htype.
  unfold_monad. cbn [fst snd].
  destruct (_ <? _); cbn; eexists _, _; (split; [reflexivity|]); cbn;
    (split; [reflexivity|]); (split; [reflexivity|]);
    (split; [eexists; rewrite <- ?app_assoc; split; reflexivity | lia]).
Qed.

(** The sleeps of a loop that fails every attempt: one after each attempt
    but the last. *)
Lemma retryLoop_unknown_rounds job type (j : nat) :
  ScheduledJob.target_type (ScheduledJob.definition job) = ScheduledJob.other_target type ->
  forall (k : nat) lastError x w,
    Z.of_nat (k + j)
    = ScheduledJob.maxRetries (ScheduledJob.retryConfig (ScheduledJob.definition job)) + 1 ->
    (1 <= j)%nat ->
    exists x1 w1,
      retryLoop j (Z.of_nat k) job lastError (x, w)
      = (Throw (JsError ("Unknown job type: " +:+ type)), (x1, w1))
      /\ bodyRuns w1 = bodyRuns w
      /\ JobExecution.retryAttempt x1 = Z.of_nat (k + j - 1)
      /\ (exists events,
            log w1 = log w ++ events
            /\ statusesOf events = repeat JobExecution.running j)
      /\ now w1
         = now w
           + total (sleepTime (ScheduledJob.retryConfig (ScheduledJob.definition job)))
               k (j - 1).
Proof.
  intros Htype. induction j as [|j IH]; intros k lastError x w Hroom Hj; [lia|].
  destruct (retryLoop_unknown_round j k job lastError x w type Htype)
    as (x1 & w1 & Heq & Hruns & Hatt & (ev1 & L1 & S1) & Hnow).
  rewrite Heq. destruct j as [|j].
  - cbn [retryLoop from_option id]. unfold throw. exists x1, w1.
    split; [reflexivity|]. split; [exact Hruns|].
    split; [rewrite Hatt; f_equal; lia|]. split; [exists ev1; auto|].
    rewrite Hnow.
    destruct (Z.ltb_spec (Z.of_nat k)
                (ScheduledJob.maxRetries
                   (ScheduledJob.retryConfig (ScheduledJob.definition job)))); [lia|].
    unfold total. cbn. lia.
  - destruct (IH (S k) (Some (JsError ("Unknown job type: " +:+ type))) x1 w1)
      as (x2 & w2 & Heq2 & Hruns2 & Hatt2 & (ev2 & L2 & S2) & Hnow2); [lia | lia |].
    exists x2, w2. split; [exact Heq2|]. split; [congruence|].
    split; [rewrite Hatt2; f_equal; lia|]. split.
    + exists (ev1 ++ ev2). rewrite L2, L1, <- app_assoc. split; [reflexivity|].
      rewrite statusesOf_app, S1, S2. reflexivity.
    + rewrite Hnow2, Hnow.
      destruct (Z.ltb_spec (Z.of_nat k)
                  (ScheduledJob.maxRetries
                     (ScheduledJob.retryConfig (ScheduledJob.definition job)))); [|lia].
      replace (S (S j) - 1)%nat with (S j) by lia.
      replace (S j - 1)%nat with j by lia.
      rewrite total_step. lia.
Qed.

(** X20. The retry loop does not tell an error that will come back from one
    that may not.  For a job whose target is of a kind [executeJobLogic]
    does not know, which [updateJob] can store, and a retry policy with
    [maxRetries = R >= 0]: the loop makes all [R + 1] attempts and all [R]
    sleeps between them, no body is run, and it throws "Unknown job type"
    with the execution at [retryAttempt = R].  The clock moves by the [R]
    sleeps alone; a sleep takes what the timer makes of the delay: the delay
    itself when it is within the range of a timer, one millisecond when it
    is beyond it. *)
Theorem unknown_target_exhausts_retries (job : ScheduledJob.t) (type : string)
  (x : JobExecution.t) (w : World)
  (Htype : ScheduledJob.target_type (ScheduledJob.definition job)
           = ScheduledJob.other_target type)
  (Hretries : 0 <= ScheduledJob.maxRetries (ScheduledJob.retryConfig (ScheduledJob.definition job))) :
  let rc := ScheduledJob.retryConfig (ScheduledJob.definition job) in
  let R := Z.to_nat (ScheduledJob.maxRetries rc) in
  exists x' w',
    runJobWithRetry job (x, w)
    = (Throw (JsError ("Unknown job type: " +:+ type)), (x', w'))
    /\ bodyRuns w' = bodyRuns w
    /\ JobExecution.retryAttempt x' = ScheduledJob.maxRetries rc
    /\ statusesOf (since w w') = repeat JobExecution.running (R + 1)
    /\ now w' = now w + total (sleepTime rc) 0 R
    /\ (forall k, 1 <= retryDelay rc k <= 2147483647 -> sleepTime rc k = retryDelay rc k)
    /\ (forall k, 2147483647 < retryDelay rc k -> sleepTime rc k = 1).
Proof.
  intros rc R. subst rc R. unfold runJobWithRetry. cbv zeta.
  destruct (retryLoop_unknown_rounds job type
              (Z.to_nat (ScheduledJob.maxRetries
                           (ScheduledJob.retryConfig (ScheduledJob.definition job)) + 1))
              Htype 0 None x w)
    as (x' & w' & Heq & Hruns & Hatt & (events & L & Hst) & Hnow).
  - lia.
  - lia.
  - exists x', w'. change (Z.of_nat 0) with 0 in Heq. rewrite Heq.
    split; [reflexivity|]. split; [exact Hruns|].
    split; [rewrite Hatt; lia|].
    split; [rewrite (since_app _ _ _ L), Hst; f_equal; lia|].
    split; [rewrite Hnow; f_equal; f_equal; lia|].
    split; [intros k; apply timerDelay_in_range|].
    intros k Hlong. apply timerDelay_out_of_range. right. exact Hlong.
Qed.

(** The theorem on ["feed"] with a target of kind ["archive"] and two
    retries: three attempts, sleeps of 100 and 200 ms, no body run. *)
Lemma unknown_target_exhausts_retries_witness :
  (ScheduledJob.target_type (ScheduledJob.definition feedUnknownKind)
   = ScheduledJob.other_target "archive"
   /\ 0 <= ScheduledJob.maxRetries
             (ScheduledJob.retryConfig (ScheduledJob.definition feedUnknownKind)))
  /\ exists x' w',
       runJobWithRetry feedUnknownKind (newExecution "feed" 1000, worldFeedScheduled)
       = (Throw (JsError "Unknown job type: archive"), (x', w'))
       /\ bodyRuns w' = bodyRuns worldFeedScheduled
       /\ now w' = 1300.
Proof.
  assert (H0 : 0 <= ScheduledJob.maxRetries
                      (ScheduledJob.retryConfig (ScheduledJob.definition feedUnknownKind)))
    by (simpl; lia).
  split; [split; [reflexivity | exact H0]|].
  destruct (unknown_target_exhausts_retries feedUnknownKind "archive"
              (newExecution "feed" 1000) worldFeedScheduled eq_refl H0)
    as (x' & w' & Heq & Hruns & _ & _ & Hnow & _).
  exists x', w'. split; [exact Heq|]. split; [exact Hruns|].
  rewrite Hnow. vm_compute. reflexivity.
Defined.

(** ** A failure that stays *)

Lemma spoiled_blocks (id : string) (jobs : gmap string ScheduledJob.t)
  (dependencies : list string) :
  spoiled id jobs -> id ∈ dependencies -> checkDependencies jobs dependencies = false.
Proof.
  intros Hspoiled Hin.
  assert (Hloop : dependenciesReady jobs dependencies = false).
  { induction dependencies as [|other rest IH]; [inversion Hin|].
    cbn [dependenciesReady]. apply elem_of_cons in Hin as [<-|Hin].
    - unfold spoiled in Hspoiled. destruct (jobs !! id) as [job|]; [|reflexivity].
      destruct (Z.ltb_spec 0 (ScheduledJob.errorCount (ScheduledJob.metadata job))); [|lia].
      rewrite orb_true_r. reflexivity.
    - destruct (jobs !! other) as [job|]; [|reflexivity].
      destruct (_ || _); [reflexivity | exact (IH Hin)]. }
  unfold checkDependencies.
  destruct dependencies as [|first rest]; [inversion Hin|].
  cbn [length]. destruct (Z.eqb_spec (Z.of_nat (S (length rest))) 0) as [Hz|_]; [lia|].
  exact Hloop.
Qed.

Lemma spoiled_insert id key job (jobs : gmap string ScheduledJob.t) :
  spoiled id jobs ->
  (key = id -> 0 < ScheduledJob.errorCount (ScheduledJob.metadata job)) ->
  spoiled id (<[key := job]> jobs).
Proof.
  unfold spoiled. intros Hspoiled Hjob. rewrite lookup_insert.
  case_decide as Hkey; [apply Hjob; exact Hkey | exact Hspoiled].
Qed.

Lemma spoiled_delete id key (jobs : gmap string ScheduledJob.t) :
  spoiled id jobs -> spoiled id (delete key jobs).
Proof.
  unfold spoiled. intros Hspoiled. rewrite lookup_delete.
  case_decide; [exact I | exact Hspoiled].
Qed.

Lemma spoiled_createJob id d w r w' :
  ScheduledJob.id d <> id -> spoiled id (jobs w) -> createJob d w = (r, w') ->
  spoiled id (jobs w').
Proof.
  intros Hne Hspoiled. unfold createJob, JobSchema_parse, scheduleJob, persistJobs.
  destruct (schemaIssues d); unfold_monad; [|intros [= <- <-]; exact Hspoiled].
  destruct (cron_validate _ _) eqn:Hcron; cbn [negb]; [|intros [= <- <-]; exact Hspoiled].
  destruct (ScheduledJob.enabled d); cron_checked Hcron; intros [= <- <-]; cbn;
    repeat (apply spoiled_insert; [|intros Heq; congruence]); exact Hspoiled.
Qed.

Lemma spoiled_executeJob id jobId manual w r w' :
  spoiled id (jobs w) -> executeJob jobId manual w = (r, w') -> spoiled id (jobs w').
Proof.
  intros Hspoiled. unfold executeJob.
  destruct (jobs w !! jobId) as [job|] eqn:Hjob; [|intros [= <- <-]; exact Hspoiled].
  destruct (_ && _); [intros [= <- <-]; exact Hspoiled|].
  destruct (_ && _); [intros [= <- <-]; exact Hspoiled|].
  destruct (tryBlock jobId job (startExecution jobId w)) as [rt s1] eqn:Htry.
  destruct (steady_tryBlock _ _ _ _ _ Htry) as ((_ & _ & _ & _ & Hjobs & _) & _).
  cbn in Hjobs.
  assert (Hold : jobId = id -> 0 < ScheduledJob.errorCount (ScheduledJob.metadata job)).
  { intros ->. unfold spoiled in Hspoiled. rewrite Hjob in Hspoiled. exact Hspoiled. }
  destruct rt as [result|error|].
  - destruct (runExecution_completed _ _ _ _ _ Htry)
      as (e & w1 & job' & Heq & _ & _ & _ & _ & _ & _ & _ & Hc & _ & _ & Hreg).
    rewrite Heq. intros [= <- <-]. rewrite Hreg, Hjobs.
    apply spoiled_insert; [exact Hspoiled|]. intros Hid. specialize (Hold Hid). lia.
  - destruct (runExecution_failed _ _ _ _ _ Htry)
      as (e & w1 & job' & Heq & _ & _ & _ & _ & _ & _ & _ & Hc & _ & _ & _ & Hreg).
    rewrite Heq. intros [= <- <-]. rewrite Hreg, Hjobs.
    apply spoiled_insert; [exact Hspoiled|]. intros Hid. specialize (Hold Hid). lia.
  - rewrite (runExecution_hang _ _ _ _ Htry). intros [= <- <-]. rewrite Hjobs. exact Hspoiled.
Qed.

Lemma spoiled_updateJob id jobId updates m r m' :
  spoiled id (jobs (world m)) -> updateJob jobId updates m = (r, m') ->
  spoiled id (jobs (world m')).
Proof.
  intros Hspoiled.
  destruct (jobs (world m) !! jobId) as [job|] eqn:Hjob.
  - rewrite (updateJob_run jobId updates m job Hjob). intros [= <- <-].
    cbn [world jobs set_jobs]. apply spoiled_insert; [exact Hspoiled|].
    intros ->. unfold spoiled in Hspoiled. rewrite Hjob in Hspoiled.
    match goal with |- context [if ?enabled then _ else _] => destruct enabled end;
      exact Hspoiled.
  - unfold updateJob. rewrite Hjob. intros [= <- <-]. exact Hspoiled.
Qed.

Lemma spoiled_deleteJob id jobId m r m' :
  spoiled id (jobs (world m)) -> deleteJob jobId m = (r, m') ->
  spoiled id (jobs (world m')).
Proof.
  intros Hspoiled. unfold deleteJob.
  destruct (jobs (world m) !! jobId) as [job|]; [|intros [= <- <-]; exact Hspoiled].
  unfold inWorld, stopCronTask, persistJobs, notify. unfold_monad.
  cbn [world isShuttingDown notices].
  destruct (cronTasks (world m) !! jobId) as [h0|];
    intros [= <- <-]; cbn [world]; cbn; apply spoiled_delete, Hspoiled.
Qed.

Lemma spoiled_perform id call m :
  notRecreating id call -> spoiled id (jobs (world m)) ->
  spoiled id (jobs (world (perform call m))).
Proof.
  intros Hcall Hspoiled.
  destruct call as [d|jobId updates|jobId|jobId manual|h|ms]; cbn [perform].
  - unfold inWorld. destruct (createJob d (world m)) as [r w'] eqn:Hrun. cbn [snd world].
    eapply spoiled_createJob; eassumption.
  - destruct (updateJob jobId updates m) as [r m'] eqn:Hrun. cbn [snd].
    eapply spoiled_updateJob; eassumption.
  - destruct (deleteJob jobId m) as [r m'] eqn:Hrun. cbn [snd].
    eapply spoiled_deleteJob; eassumption.
  - unfold inWorld. destruct (executeJob jobId manual (world m)) as [r w'] eqn:Hrun.
    cbn [snd world]. eapply spoiled_executeJob; eassumption.
  - unfold fireTask, cronCallback.
    destruct (timers (world m) !! h) as [t|]; [|exact Hspoiled].
    destruct (started t); [|exact Hspoiled].
    destruct (isShuttingDown m); [exact Hspoiled|].
    unfold inWorld, bind.
    destruct (executeJob (fires t) false (world m)) as [r w'] eqn:Hrun.
    pose proof (spoiled_executeJob _ _ _ _ _ _ Hspoiled Hrun) as Hgoal.
    destruct r; cbn [snd world]; exact Hgoal.
  - exact Hspoiled.
Qed.

(** X21. [errorCount] is only ever incremented, and the dependency gate
    asks for a count of zero: one failed execution of a job closes the gate
    of every job that depends on it, for good.  Whatever calls follow, as
    long as none is a [createJob] for the id of the failed job, which would
    reset its counters: successful runs of it, updates, its deletion: the
    dependency check of a list that names it answers [false], and the
    automatic execution of every enabled job that names it is refused. *)
Theorem one_failure_blocks_dependents_for_good (m : Manager) (failedId : string)
  (failedJob : ScheduledJob.t) (calls : list Call)
  (Hjob : jobs (world m) !! failedId = Some failedJob)
  (Hfailed : 0 < ScheduledJob.errorCount (ScheduledJob.metadata failedJob))
  (Hcalls : Forall (notRecreating failedId) calls) :
  forall dependencies,
    failedId ∈ dependencies ->
    checkDependencies (jobs (world (performAll calls m))) dependencies = false
    /\ forall jobId job,
         jobs (world (performAll calls m)) !! jobId = Some job ->
         ScheduledJob.enabled (ScheduledJob.definition job) = true ->
         ScheduledJob.dependencies (ScheduledJob.definition job) = dependencies ->
         executeJob jobId false (world (performAll calls m))
         = (Throw (JsError ("Job dependencies not met: " +:+ jobId)),
            world (performAll calls m)).
Proof.
  assert (Hspoiled : spoiled failedId (jobs (world (performAll calls m)))).
  { assert (Hstart : spoiled failedId (jobs (world m)))
      by (unfold spoiled; rewrite Hjob; exact Hfailed).
    clear Hjob Hfailed. revert m Hstart.
    induction Hcalls as [|call calls Hcall _ IH]; intros m Hstart; [exact Hstart|].
    cbn [performAll foldl]. fold (performAll calls (perform call m)).
    apply IH, spoiled_perform; assumption. }
  intros dependencies Hin.
  pose proof (spoiled_blocks _ _ _ Hspoiled Hin) as Hgate.
  split; [exact Hgate|].
  intros jobId job Hreg Hen Hdeps. unfold executeJob.
  rewrite Hreg, Hen, Hdeps, Hgate. reflexivity.
Qed.

(** The theorem on ["feed"], which failed once under its down body: after
    the time of its cooldown, a manual run and an update, the gate of a
    list that names it is still closed. *)
Lemma one_failure_blocks_dependents_for_good_witness :
  exists failedJob,
    (jobs (world (startManager worldBreakerOpen)) !! "feed" = Some failedJob
     /\ 0 < ScheduledJob.errorCount (ScheduledJob.metadata failedJob)
     /\ Forall (notRecreating "feed")
          [TimePasses 70000; CallExecuteJob "feed" true; CallUpdateJob "feed" noUpdates])
    /\ checkDependencies
         (jobs (world (performAll
            [TimePasses 70000; CallExecuteJob "feed" true; CallUpdateJob "feed" noUpdates]
            (startManager worldBreakerOpen))))
         ["feed"] = false.
Proof.
  assert (Hjob : jobs (world (startManager worldBreakerOpen)) !! "feed"
                 = Some (default reportJob
                           (jobs (world (startManager worldBreakerOpen)) !! "feed")))
    by (vm_compute; reflexivity).
  assert (Hfailed : 0 < ScheduledJob.errorCount
                          (ScheduledJob.metadata
                             (default reportJob
                                (jobs (world (startManager worldBreakerOpen)) !! "feed"))))
    by (vm_compute; reflexivity).
  assert (Hcalls : Forall (notRecreating "feed")
            [TimePasses 70000; CallExecuteJob "feed" true; CallUpdateJob "feed" noUpdates])
    by (repeat constructor).
  eexists. split; [exact (conj Hjob (conj Hfailed Hcalls))|].
  apply (one_failure_blocks_dependents_for_good _ _ _ _ Hjob Hfailed Hcalls ["feed"]).
  left.
Defined.
